(** * PFAS dashboard Zeeland: the data normalisation and aggregation core

    A shallow embedding of [dashboard_app_v5.py]: [load_data],
    [download_csv], [make_bar_by_location], [make_map] and the part of the
    Streamlit script that derives the filtered subset and its views.

    Conventions of the embedding.
    - A numeric column is a [float64] column, and a [float64] cell is an
      exact rational or NaN: [option Q], with [None] for NaN.  Rounding,
      overflow and the infinities of the machine format are not
      represented in the columns; the percentage of line 159, which
      Python computes on two numbers, is rounded as the machine format
      rounds it ([binary64]).
    - A nullable [Int64] cell is [option Z], [None] for [<NA>].
    - A Python [str] is a [string] holding its UTF-8 bytes.
    - A DataFrame is the list of its rows in index order; a column is the
      list of that field over the rows.  The dataset is taken to carry the
      columns the script reads, so the [if col in df.columns] guards are
      the taken branch.
    - The pandas and [str] routines that depend on parsing and on the Unicode
      tables ([pd.to_numeric] on text, [str.lower], [str.strip], [str] of a
      number) are the members of the class [TextLib].
    - [Series.sort_values] on one column runs quicksort, which is not
      stable: it is the member of the class [SeriesSort], known to return
      the series in order and nothing more about equal values. *)

From Stdlib Require Import QArith Qabs Qround Qpower Lqa ZArith Ascii String Permutation.
From stdpp Require Import base tactics option list strings pretty sorting gmap.

Local Open Scope Z_scope.

(** ** Cells *)

(** A [float64] cell. *)
Abbreviation fcell := (option Q).

(** A cell as [pd.read_csv] delivers it before any coercion: a number when
    the column was inferred numeric, text in an [object] column, NaN for an
    empty field. *)
Inductive raw :=
  | RNum (q : Q)
  | RText (s : string)
  | RNaN.

Inductive exn :=
  | TypeError (msg : string).

Inductive result (A : Type) :=
  | Ok (a : A)
  | Raise (e : exn).
Arguments Ok {A} a.
Arguments Raise {A} e.

Class TextLib := {
  (** what [pd.to_numeric(..., errors="coerce")] makes of a text cell *)
  parse_number : string -> fcell;
  (** [str(x)] of a numeric cell *)
  repr_number : Q -> string;
  (** [str.strip] *)
  str_strip : string -> string;
  (** [str.lower] *)
  str_lower : string -> string;
  (** a text field as the csv writer puts it out, quoted where it must be *)
  csv_field : string -> string
}.

Definition Qgt_bool (x y : Q) : bool := negb (Qle_bool x y).

(** [series.abs() > bound]; a comparison with NaN is [False]. *)
Definition abs_gt (bound : Q) (c : fcell) : bool :=
  match c with
  | Some q => Qgt_bool (Qabs q) bound
  | None => false
  end.

(** [series / k] and [series * k], NaN propagating. *)
Definition fdiv (k : Q) (c : fcell) : fcell := option_map (fun q => q / k)%Q c.
Definition fmul (k : Q) (c : fcell) : fcell := option_map (fun q => q * k)%Q c.

(** ** Column operations *)

(** [col[mask]] / [df.loc[mask, col]]: the cells where the mask holds. *)
Fixpoint loc_get {A} (mask : list bool) (col : list A) : list A :=
  match mask, col with
  | b :: mask', x :: col' =>
      if b then x :: loc_get mask' col' else loc_get mask' col'
  | _, _ => []
  end.

(** [df.loc[mask, col] = vals]: the masked cells are overwritten, in index
    order, by the successive values of [vals]; the others are kept. *)
Fixpoint loc_set {A} (mask : list bool) (vals : list A) (col : list A) : list A :=
  match mask, col with
  | b :: mask', x :: col' =>
      if b then
        match vals with
        | v :: vals' => v :: loc_set mask' vals' col'
        | [] => x :: loc_set mask' [] col'
        end
      else x :: loc_set mask' vals col'
  | _, _ => col
  end.

(** ** Rows *)

(** A row as read from the CSV file. *)
Record RawRow := {
  raw_Locatie : raw;
  raw_PFAS : raw;
  raw_Bron : raw;
  raw_Medium : raw;
  raw_Sampletype : raw;
  raw_Eenheid : raw;
  raw_Jaar : raw;
  raw_Waarde : raw;
  raw_Latitude : raw;
  raw_Longitude : raw;
  raw_LOQ_flag : option bool
}.

(** A row of the table [load_data] returns. *)
Record Row := {
  Locatie : string;
  PFAS : string;
  Bron : string;
  Medium : string;
  Sampletype : string;
  Eenheid : string;
  Jaar : option Z;
  Waarde : fcell;
  Latitude : fcell;
  Longitude : fcell;
  LOQ_flag : option bool
}.

Global Instance fcell_inhabited : Inhabited fcell := populate None.
Global Instance raw_inhabited : Inhabited raw := populate RNaN.

(** ** load_data *)

Section load_data.
Context `{TextLib}.

(** [pd.to_numeric(series, errors="coerce")], cell by cell. *)
Definition to_numeric (c : raw) : fcell :=
  match c with
  | RNum q => Some q
  | RText s => parse_number s
  | RNaN => None
  end.

(** [series.astype(str)], cell by cell: NaN becomes the text [nan]. *)
Definition astype_str (c : raw) : string :=
  match c with
  | RNum q => repr_number q
  | RText s => s
  | RNaN => "nan"
  end.

(** The rescaling mask of line 27. *)
Definition mask_scaled (lat lon : list fcell) : list bool :=
  zip_with orb (map (abs_gt 90) lat) (map (abs_gt 180) lon).

Definition is_whole (q : Q) : bool :=
  (Qnum q mod Zpos (Qden q) =? 0)%Z.

Definition Q_to_Z (q : Q) : Z := (Qnum q / Zpos (Qden q))%Z.

Definition int64_min : Z := - 2 ^ 63.
Definition int64_max : Z := 2 ^ 63 - 1.

(** A float the [Int64] cast accepts: NaN, or a whole number that fits. *)
Definition safe_int64 (c : fcell) : bool :=
  match c with
  | None => true
  | Some q =>
      is_whole q && (int64_min <=? Q_to_Z q)%Z && (Q_to_Z q <=? int64_max)%Z
  end.

(** [series.astype("Int64")] on a float column: NaN becomes [<NA>]; the
    cast compares the truncated values with the originals and raises when
    they differ anywhere in the column. *)
Definition astype_Int64 (col : list fcell) : result (list (option Z)) :=
  if forallb safe_int64 col
  then Ok (map (option_map Q_to_Z) col)
  else Raise (TypeError "cannot safely cast non-equivalent float64 to int64").

Definition load_data (df : list RawRow) : result (list Row) :=
  (* lines 20-22 *)
  let lat := map (fun r => to_numeric (raw_Latitude r)) df in
  let lon := map (fun r => to_numeric (raw_Longitude r)) df in
  (* lines 26-29 *)
  let mask := mask_scaled lat lon in
  let lat' := loc_set mask (map (fdiv 10000) (loc_get mask lat)) lat in
  let lon' := loc_set mask (map (fdiv 10000) (loc_get mask lon)) lon in
  (* lines 32-33 *)
  match astype_Int64 (map (fun r => to_numeric (raw_Jaar r)) df) with
  | Raise e => Raise e
  | Ok jaar =>
      (* lines 34-35 *)
      let waarde := map (fun r => to_numeric (raw_Waarde r)) df in
      (* lines 38-40 *)
      let text (f : RawRow -> raw) := map (fun r => str_strip (astype_str (f r))) df in
      let locatie := text raw_Locatie in
      let pfas := text raw_PFAS in
      let bron := text raw_Bron in
      let medium := text raw_Medium in
      let sampletype := text raw_Sampletype in
      let eenheid := text raw_Eenheid in
      Ok (imap (fun i r =>
            {| Locatie := locatie !!! i;
               PFAS := pfas !!! i;
               Bron := bron !!! i;
               Medium := medium !!! i;
               Sampletype := sampletype !!! i;
               Eenheid := eenheid !!! i;
               Jaar := jaar !!! i;
               Waarde := waarde !!! i;
               Latitude := lat' !!! i;
               Longitude := lon' !!! i;
               LOQ_flag := raw_LOQ_flag r |}) df)
  end.

End load_data.

(** ** Generic table routines *)

(** A stable sort: [insert_by] puts [x] in front of the first element it
    does not come after, so equal keys keep the order of the input.  It
    stands for [sort_values] on several keys, which pandas runs with a
    stable lexicographic sort. *)
Fixpoint insert_by {A} (leb : A -> A -> bool) (x : A) (l : list A) : list A :=
  match l with
  | [] => [x]
  | y :: l' => if leb x y then x :: l else y :: insert_by leb x l'
  end.

Definition sort_by {A} (leb : A -> A -> bool) (l : list A) : list A :=
  foldr (insert_by leb) [] l.

(** The distinct keys of a column, first occurrences kept. *)
Fixpoint nub_by {K} (eqb : K -> K -> bool) (l : list K) : list K :=
  match l with
  | [] => []
  | k :: l' => k :: filter (fun k' => negb (eqb k k')) (nub_by eqb l')
  end.

(** [series.unique()]: the distinct values in order of first appearance. *)
Definition unique {A} `{EqDecision A} (l : list A) : list A :=
  nub_by (fun a b => bool_decide (a = b)) l.

(** [df.groupby(key)]: one group per distinct key, each holding the rows
    of that key in index order; [sort=True] orders the groups by key. *)
Definition groupby {A K} (eqb leb : K -> K -> bool) (key : A -> K)
    (df : list A) : list (K * list A) :=
  map (fun k => (k, filter (fun r => eqb k (key r)) df))
      (sort_by leb (nub_by eqb (map key df))).

(** Sum and mean of a float column without NaN. *)
Definition Qsum (l : list Q) : Q := foldr Qplus 0%Q l.
Definition Qmean (l : list Q) : Q := (Qsum l / inject_Z (Z.of_nat (length l)))%Q.

(** [series.median()]: NaN cells are skipped; an empty series gives NaN. *)
Definition median (col : list fcell) : fcell :=
  let xs := sort_by Qle_bool (omap id col) in
  let n := length xs in
  if (n =? 0)%nat then None
  else if Nat.odd n then xs !! (n / 2)%nat
  else match xs !! (n / 2 - 1)%nat, xs !! (n / 2)%nat with
       | Some a, Some b => Some ((a + b) / 2)%Q
       | _, _ => None
       end.

(** The first median is not below the second; a missing median is below
    every number. *)
Definition median_ge (a b : string * fcell) : Prop :=
  match a.2, b.2 with
  | Some x, Some y => (y <= x)%Q
  | None, Some _ => False
  | _, _ => True
  end.

(** [series.sort_values(ascending=False)] on the medians per location.
    pandas sorts a single column with quicksort unless told otherwise, and
    quicksort is not stable: the result holds the entries of the series,
    highest first and NaN last ([sort_values_spec]), and the order among
    equal medians is the library's. *)
Class SeriesSort := {
  sort_values : list (string * fcell) -> list (string * fcell)
}.

Definition sort_values_spec `{SeriesSort} : Prop :=
  forall s, sort_values s ≡ₚ s /\ StronglySorted median_ge (sort_values s).

Definition Qlt_bool (x y : Q) : bool := negb (Qle_bool y x).

(** ** make_map *)

Definition pfas_priority : list string :=
  [ "PFOS"; "PFOA"; "PFHxS"; "PFNA"; "PFHxA"; "PFBS"; "PFPeA"; "PFPeS";
    "PFHpA"; "PFHpS"; "PFDA"; "PFUnDA"; "PFDoDA"; "GenX"; "HFPO-DA" ].

(** [{p: i for i, p in enumerate(pfas_priority)}]: a later entry of an
    equal key would replace the earlier one. *)
Definition priority_rank : gmap string Z :=
  foldl (fun m ip => <[ip.2 := ip.1]> m) ∅
        (imap (fun i p => (Z.of_nat i, p)) pfas_priority).

Definition default_rank : Z := 9999.

Definition max_rows : nat := 80.

(** The three helper columns of lines 162-164. *)
Definition pfas_rank (r : Row) : Z := default default_rank (priority_rank !! PFAS r).
Definition jaar_sort (r : Row) : Z := default (-1) (Jaar r).
Definition waarde_sort (r : Row) : Q := default (-1)%Q (Waarde r).

(** The order of [sort_values(by=[rank, jaar, waarde],
    ascending=[True, False, False])]. *)
Definition map_order (a b : Row) : bool :=
  (pfas_rank a <? pfas_rank b)%Z
  || ((pfas_rank a =? pfas_rank b)%Z
      && ((jaar_sort b <? jaar_sort a)%Z
          || ((jaar_sort a =? jaar_sort b)%Z
              && Qle_bool (waarde_sort b) (waarde_sort a)))).

(** Lines 161-169: [tmp] after sorting. *)
Definition sort_group (g : list Row) : list Row := sort_by map_order g.

(** Line 173: [show_tmp]. *)
Definition show_rows (tmp : list Row) : list Row := take max_rows tmp.

(** Lines 188-194: [more_note]. *)
Definition more_note (tmp : list Row) : string :=
  if (max_rows <? length tmp)%nat then
    "<div style='margin-top:6px; font-size:12px;'><i>"
    +:+ "Toont " +:+ pretty max_rows +:+ " van " +:+ pretty (length tmp)
    +:+ " metingen. Filter verder om minder te tonen."
    +:+ "</i></div>"
  else "".

(** The integer nearest to [t], the even one of the two when [t] lies
    halfway. *)
Definition round_half_even (t : Q) : Z :=
  let f := Qfloor t in
  let d := (t - inject_Z f)%Q in
  if Qlt_bool d (1 # 2) then f
  else if Qlt_bool (1 # 2) d then f + 1
  else if Z.even f then f else f + 1.

Definition pow2 (e : Z) : Q := Qpower 2 e.

(** The exponent [e] that puts a positive [a] between [2^52 * 2^e] and
    [2^53 * 2^e]: the logarithms of numerator and denominator give it up
    to one, and the comparison decides. *)
Definition binade (a : Q) : Z :=
  let e0 := Z.log2 (Qnum a) - Z.log2 (Zpos (Qden a)) - 53 in
  if Qle_bool (pow2 (e0 + 53)) a then e0 + 1 else e0.

(** The result of one float operation: the exact result rounded to the
    nearest number with a significand of 53 bits, ties to even.  The
    exponent is not bounded; the quotient of two row counts and its
    hundredfold stay far inside the range of the format. *)
Definition binary64 (q : Q) : Q :=
  if Qeq_bool q 0 then 0%Q
  else
    let a := Qabs q in
    let e := binade a in
    let m := inject_Z (round_half_even (a / pow2 e)) in
    if Qle_bool 0 q then (m * pow2 e)%Q else (- (m * pow2 e))%Q.

(** Python's [round(x, 1)]: the decimal with one digit after the point
    nearest to the exact value of the float [x], ties to even.  The float
    returned is the one nearest to that decimal and prints as it. *)
Definition round_tenths (x : Q) : Q := (inject_Z (round_half_even (x * 10)) / 10)%Q.

Record Popup := {
  popup_loc : string;
  popup_n : nat;
  popup_n_loq : nat;
  popup_perc_loq : Q;
  popup_rows_html : list string;
  popup_more_note : string
}.

Record Marker := {
  marker_location : Q * Q;
  marker_icon : nat;
  marker_popup : Popup;
  marker_tooltip : string
}.

(** The two keys of the [tiles] dictionary, the options of the selector. *)
Inductive Kaarttype := Normaal | Satelliet.

Record FoliumMap := {
  map_center : Q * Q;
  map_tiles : Kaarttype;
  map_markers : list Marker
}.

Definition group_key : Type := string * Q * Q.

Definition group_key_eqb (a b : group_key) : bool :=
  String.eqb a.1.1 b.1.1 && Qeq_bool a.1.2 b.1.2 && Qeq_bool a.2 b.2.

Definition group_key_leb (a b : group_key) : bool :=
  String.ltb a.1.1 b.1.1
  || (String.eqb a.1.1 b.1.1
      && (Qlt_bool a.1.2 b.1.2
          || (Qeq_bool a.1.2 b.1.2 && Qle_bool a.2 b.2))).

(** [dropna(subset=["Latitude", "Longitude"])], each kept row paired with
    its two coordinates. *)
Definition with_coords (df : list Row) : list (Row * (Q * Q)) :=
  omap (fun r => match Latitude r, Longitude r with
                 | Some la, Some lo => Some (r, (la, lo))
                 | _, _ => None
                 end) df.

Definition dropna_coords (df : list Row) : list Row := map fst (with_coords df).

(** [series.between(lo, hi)], bounds included. *)
Definition between (lo hi : Q) (c : fcell) : bool :=
  match c with
  | Some q => Qle_bool lo q && Qle_bool q hi
  | None => false
  end.

Section make_map.
Context `{TextLib}.

Definition fmt_float (c : fcell) : string :=
  match c with Some q => repr_number q | None => "nan" end.

Definition fmt_Int64 (c : option Z) : string :=
  match c with Some z => pretty z | None => "<NA>" end.

(** Lines 176-186: one table row of the popup. *)
Definition row_html (row : Row) : string :=
  "<tr>"
  +:+ "<td>" +:+ PFAS row +:+ "</td>"
  +:+ "<td>" +:+ fmt_Int64 (Jaar row) +:+ "</td>"
  +:+ "<td>" +:+ fmt_float (Waarde row) +:+ "</td>"
  +:+ "<td>" +:+ Eenheid row +:+ "</td>"
  +:+ "<td>" +:+ Bron row +:+ "</td>"
  +:+ "<td>" +:+ Medium row +:+ "</td>"
  +:+ "<td>" +:+ Sampletype row +:+ "</td>"
  +:+ "</tr>".

(** Lines 151-255: the marker of one location group. *)
Definition make_marker (key : group_key) (g : list Row) : Marker :=
  let n := length g in
  let n_loq := length (filter (fun r => LOQ_flag r = Some true) g) in
  let perc_loq :=
    if (0 <? n)%nat
    then round_tenths
           (binary64 (binary64 (inject_Z (Z.of_nat n_loq) / inject_Z (Z.of_nat n))
                      * 100))%Q
    else 0%Q in
  let tmp := sort_group g in
  {| marker_location := (key.1.2, key.2);
     marker_icon := n;
     marker_popup :=
       {| popup_loc := key.1.1;
          popup_n := n;
          popup_n_loq := n_loq;
          popup_perc_loq := perc_loq;
          popup_rows_html := map row_html (show_rows tmp);
          popup_more_note := more_note tmp |};
     marker_tooltip := key.1.1 +:+ " (" +:+ pretty n +:+ " metingen)" |}.

(** The location groups of lines 146-149, in the order the loop of line
    151 visits them.  [Locatie] is text in every row, so the [fillna] of
    line 144 changes nothing. *)
Definition location_groups (map_df : list Row) : list (group_key * list Row) :=
  map (fun kg => (kg.1, map fst kg.2))
      (groupby group_key_eqb group_key_leb
               (fun rc : Row * (Q * Q) => (Locatie rc.1, rc.2.1, rc.2.2))
               (with_coords map_df)).

Definition make_map (map_df : list Row) (kaarttype : Kaarttype) : FoliumMap :=
  let nl := filter (fun r => between 50 54 (Latitude r) && between 3 8 (Longitude r))
                   map_df in
  let center :=
    match nl with
    | [] => (5145 # 100, 380 # 100)%Q
    | _ => (Qmean (omap Latitude nl), Qmean (omap Longitude nl))
    end in
  {| map_center := center;
     map_tiles := kaarttype;
     map_markers := map (fun kg => make_marker kg.1 kg.2) (location_groups map_df) |}.

End make_map.

(** ** Tables held by reference

    The chart routines work on copies and add a derived column to them.  A
    table object is a [Frame]; the objects live in a store and the script
    names them by reference, so that a write through one name is seen
    through every other name of the same object. *)

Record Frame := {
  rows : list Row;
  (** the derived column, when the table has one *)
  Waarde_plot : option (list fcell)
}.

Global Instance Frame_inhabited : Inhabited Frame :=
  populate {| rows := []; Waarde_plot := None |}.

Abbreviation ref := nat.
Abbreviation store := (list Frame).

Definition M (A : Type) : Type := store -> A * store.

Definition ret {A} (a : A) : M A := fun s => (a, s).
Definition bind {A B} (m : M A) (k : A -> M B) : M B :=
  fun s => let (a, s') := m s in k a s'.

Declare Scope frame_scope.
Delimit Scope frame_scope with frame.
Notation "x <- m ;; k" := (bind m (fun x => k))
  (at level 100, m at next level, right associativity) : frame_scope.
Notation "m ;;; k" := (bind m (fun _ => k))
  (at level 100, right associativity) : frame_scope.
Local Open Scope frame_scope.

Definition read (r : ref) : M Frame := fun s => (s !!! r, s).
Definition alloc (f : Frame) : M ref := fun s => (length s, s ++ [f]).
Definition write (r : ref) (f : Frame) : M unit := fun s => (tt, <[r := f]> s).

(** [df.copy()] *)
Definition copy (r : ref) : M ref := f <- read r ;; alloc f.

(** [df[mask]]: a new table of the selected rows. *)
Definition getitem (r : ref) (mask : list bool) : M ref :=
  f <- read r ;;
  alloc {| rows := loc_get mask (rows f);
           Waarde_plot := loc_get mask <$> Waarde_plot f |}.

(** [df["Waarde_plot"] = vals], in place. *)
Definition setitem_plot (r : ref) (vals : list fcell) : M unit :=
  f <- read r ;;
  write r {| rows := rows f; Waarde_plot := Some vals |}.

(** [df.loc[mask, "Waarde_plot"] = vals], in place; a column that does not
    exist yet starts as NaN. *)
Definition loc_setitem_plot (r : ref) (mask : list bool) (vals : list fcell) : M unit :=
  f <- read r ;;
  let col := default (replicate (length (rows f)) None) (Waarde_plot f) in
  write r {| rows := rows f; Waarde_plot := Some (loc_set mask vals col) |}.

(** The rows of a table next to their derived value. *)
Definition plot_rows (f : Frame) : list (Row * fcell) :=
  zip (rows f) (default [] (Waarde_plot f)).

(** [groupby(key)["Waarde_plot"].median()] *)
Definition group_median {K} (eqb leb : K -> K -> bool) (key : Row -> option K)
    (f : Frame) : list (K * fcell) :=
  map (fun kg => (kg.1, median (map snd kg.2)))
      (groupby eqb leb fst
         (omap (fun rv : Row * fcell => k ← key rv.1; Some (k, rv.2)) (plot_rows f))).

Section charts.
Context `{TextLib} `{SeriesSort}.

(** The unit labels that stand for micrograms per litre, lines 65 and 459. *)
Definition is_ug (eenheid : string) : bool :=
  bool_decide (str_lower eenheid ∈ ["ug/l"; "µg/l"]).

(** Lines 56-60; [Locatie] is text in every row, so [notna()] holds. *)
Definition valid_locatie (r : Row) : bool :=
  negb (String.eqb (str_strip (Locatie r)) "")
  && negb (String.eqb (str_lower (Locatie r)) "nan").

(** Lines 53-69 of [make_bar_by_location]: the copy with its derived
    column. *)
Definition bar_plot_df (df : ref) : M ref :=
  plot_df <- copy df ;;
  f <- read plot_df ;;
  plot_df <- getitem plot_df (map valid_locatie (rows f)) ;;
  f <- read plot_df ;;
  setitem_plot plot_df (map Waarde (rows f)) ;;;
  let mask_ug := map (fun r => is_ug (Eenheid r)) (rows f) in
  (if existsb id mask_ug
   then loc_setitem_plot plot_df mask_ug
          (map (fmul 1000) (loc_get mask_ug (map Waarde (rows f))))
   else ret tt) ;;;
  ret plot_df.

(** The bar heights: what the figure of [make_bar_by_location] shows. *)
Definition make_bar_by_location (df : ref) (max_locations : nat)
    : M (list (string * fcell)) :=
  plot_df <- bar_plot_df df ;;
  f <- read plot_df ;;
  let medians := group_median String.eqb String.leb (fun r => Some (Locatie r)) f in
  let tmp := map fst (take max_locations (sort_values medians)) in
  plot_df <- getitem plot_df (map (fun r => bool_decide (Locatie r ∈ tmp)) (rows f)) ;;
  f <- read plot_df ;;
  ret (sort_values
         (group_median String.eqb String.leb (fun r => Some (Locatie r)) f)).

(** The combination chosen in the four selectors of the time-series tab. *)
Record Selection := {
  gekozen_pfas : string;
  gekozen_locatie : string;
  gekozen_medium : string;
  gekozen_bron : string
}.

Definition selected (sel : Selection) (r : Row) : bool :=
  String.eqb (PFAS r) (gekozen_pfas sel)
  && String.eqb (Locatie r) (gekozen_locatie sel)
  && String.eqb (Medium r) (gekozen_medium sel)
  && String.eqb (Bron r) (gekozen_bron sel).

(** Lines 449-460: [lijn_df] with its derived column. *)
Definition lijn_plot_df (subset : ref) (sel : Selection) : M ref :=
  f <- read subset ;;
  picked <- getitem subset (map (selected sel) (rows f)) ;;
  lijn_df <- copy picked ;;
  f <- read lijn_df ;;
  setitem_plot lijn_df (map Waarde (rows f)) ;;;
  let mask_ug := map (fun r => is_ug (Eenheid r)) (rows f) in
  loc_setitem_plot lijn_df mask_ug
    (map (fmul 1000) (loc_get mask_ug (map Waarde (rows f)))) ;;;
  ret lijn_df.

(** Line 462: the median per year, years ascending; rows without a year
    belong to no group. *)
Definition lijn_series (subset : ref) (sel : Selection) : M (list (Z * fcell)) :=
  lijn_df <- lijn_plot_df subset sel ;;
  f <- read lijn_df ;;
  ret (group_median Z.eqb Z.leb Jaar f).

End charts.

(** ** The time-series validity filter *)

Definition combo : Type := string * string * string * string.

Definition combo_of (r : Row) : combo := (PFAS r, Locatie r, Medium r, Bron r).

Definition combo_eqb (a b : combo) : bool := bool_decide (a = b).

Definition combo_leb (a b : combo) : bool :=
  match String.compare a.1.1.1 b.1.1.1 with
  | Lt => true
  | Gt => false
  | Eq =>
    match String.compare a.1.1.2 b.1.1.2 with
    | Lt => true
    | Gt => false
    | Eq =>
      match String.compare a.1.2 b.1.2 with
      | Lt => true
      | Gt => false
      | Eq => String.leb a.2 b.2
      end
    end
  end.

(** [series.nunique()]: the number of distinct values, [<NA>] left out. *)
Definition nunique (col : list (option Z)) : nat :=
  length (remove_dups (omap id col)).

(** Lines 413-418: the combinations with their number of distinct years,
    those below two removed. *)
Definition valid_groups (subset : list Row) : list (combo * nat) :=
  filter (fun kc => 2 <=? kc.2)%nat
    (map (fun kg => (kg.1, nunique (map Jaar kg.2)))
         (groupby combo_eqb combo_leb combo_of subset)).

(** ** download_csv *)

Definition newline : string := String (Ascii.ascii_of_nat 10) EmptyString.

Definition join (sep : string) (fields : list string) : string :=
  match fields with
  | [] => ""
  | f :: fs => foldl (fun acc x => acc +:+ sep +:+ x) f fs
  end.

Section download_csv.
Context `{TextLib}.

Definition csv_float (c : fcell) : string :=
  match c with Some q => repr_number q | None => "" end.

Definition csv_Int64 (c : option Z) : string :=
  match c with Some z => pretty z | None => "" end.

Definition csv_bool (c : option bool) : string :=
  match c with Some true => "True" | Some false => "False" | None => "" end.

Definition csv_header (f : Frame) : list string :=
  [ "Locatie"; "PFAS"; "Bron"; "Medium"; "Sampletype"; "Eenheid"; "Jaar";
    "Waarde"; "Latitude"; "Longitude"; "LOQ_flag" ]
  ++ match Waarde_plot f with Some _ => ["Waarde_plot"] | None => [] end.

Definition csv_record (f : Frame) (i : nat) (r : Row) : list string :=
  [ csv_field (Locatie r); csv_field (PFAS r); csv_field (Bron r);
    csv_field (Medium r); csv_field (Sampletype r); csv_field (Eenheid r);
    csv_Int64 (Jaar r); csv_float (Waarde r); csv_float (Latitude r);
    csv_float (Longitude r); csv_bool (LOQ_flag r) ]
  ++ match Waarde_plot f with
     | Some col => [csv_float (col !!! i)]
     | None => []
     end.

(** [df.to_csv(index=False)]: the header, then one line per row, each
    closed by a line feed. *)
Definition to_csv (f : Frame) : string :=
  foldr (fun line acc => join "," line +:+ newline +:+ acc) ""
        (csv_header f :: imap (csv_record f) (rows f)).

(** Line 46; the text is already held as its UTF-8 bytes. *)
Definition download_csv (df : ref) : M string :=
  f <- read df ;; ret (to_csv f).

End download_csv.

(** ** The script: the filtered subset and its views *)

Inductive KaartView :=
  | KaartGeenData
  | KaartGeenCoords
  | KaartMap (m : FoliumMap).

Inductive LijnView :=
  | LijnGeenData
  | LijnGeenCombinatie
  | LijnChart (series : list (Z * fcell)).

Inductive StaafView :=
  | StaafGeenPfas
  | StaafMeerderePfas
  | StaafChart (pfas : string) (gevonden_eenheden : option string)
               (bars : list (string * fcell)).

Record Views := {
  n_rows : nat;
  n_loc : nat;
  n_map : nat;
  tab_kaart : KaartView;
  tab_tabel : Frame;
  tab_tabel_csv : string;
  tab_lijn : LijnView;
  tab_staaf : StaafView
}.

Section script.
Context `{TextLib} `{SeriesSort}.

(** Lines 327-329. *)
Definition make_subset (working_df : ref) : M ref :=
  subset <- copy working_df ;;
  f <- read subset ;;
  getitem subset (map (fun r => bool_decide (is_Some (Waarde r))) (rows f)).

(** Lines 378-393. *)
Definition render_kaart (subset : ref) (kaarttype : Kaarttype) : M KaartView :=
  f <- read subset ;;
  match rows f with
  | [] => ret KaartGeenData
  | _ =>
      kept <- getitem subset
                (map (fun r => bool_decide (is_Some (Latitude r))
                               && bool_decide (is_Some (Longitude r))) (rows f)) ;;
      map_df <- copy kept ;;
      g <- read map_df ;;
      match rows g with
      | [] => ret KaartGeenCoords
      | _ => ret (KaartMap (make_map (rows g) kaarttype))
      end
  end.

(** Lines 407-480. *)
Definition render_lijn (subset : ref) (sel : Selection) : M LijnView :=
  f <- read subset ;;
  match rows f with
  | [] => ret LijnGeenData
  | _ =>
      match valid_groups (rows f) with
      | [] => ret LijnGeenCombinatie
      | _ => series <- lijn_series subset sel ;; ret (LijnChart series)
      end
  end.

(** Lines 495-501: the caption under the warning about several units,
    shown when the subset carries more than one unit label. *)
Definition staaf_eenheden (subset : list Row) : option string :=
  let unieke_eenheden := unique (map Eenheid subset) in
  if (1 <? length unieke_eenheden)%nat
  then Some ("Gevonden eenheden: " +:+ join ", " unieke_eenheden)
  else None.

(** Lines 482-504. *)
Definition render_staaf (subset : ref) : M StaafView :=
  f <- read subset ;;
  match remove_dups (map PFAS (rows f)) with
  | [] => ret StaafGeenPfas
  | [gekozen] =>
      let gevonden := staaf_eenheden (rows f) in
      bars <- make_bar_by_location subset 25 ;;
      ret (StaafChart gekozen gevonden bars)
  | _ => ret StaafMeerderePfas
  end.

(** Lines 327-504, from the filtered table of the sidebar to the views of
    the tabs. *)
Definition dashboard (working_df : ref) (kaarttype : Kaarttype) (sel : Selection)
    : M Views :=
  subset <- make_subset working_df ;;
  f <- read subset ;;
  let rijen := length (rows f) in
  let locaties := length (remove_dups (map Locatie (rows f))) in
  let met_coords := length (dropna_coords (rows f)) in
  kaart <- render_kaart subset kaarttype ;;
  f <- read subset ;;
  csv <- download_csv subset ;;
  lijn <- render_lijn subset sel ;;
  staaf <- render_staaf subset ;;
  ret {| n_rows := rijen;
         n_loc := locaties;
         n_map := met_coords;
         tab_kaart := kaart;
         tab_tabel := f;
         tab_tabel_csv := csv;
         tab_lijn := lijn;
         tab_staaf := staaf |}.

End script.

(** ** A text library for plain ASCII data

    An instance of [TextLib] on which the definitions can be run: letters
    are lowered and blanks stripped in the ASCII range, numbers are read
    from plain decimal literals, and a number is printed as a decimal when
    it is whole and as its fraction otherwise. *)

Module AsciiText.

Definition lower_char (c : ascii) : ascii :=
  let n := nat_of_ascii c in
  if (65 <=? n)%nat && (n <=? 90)%nat then ascii_of_nat (n + 32) else c.

Fixpoint lower (s : string) : string :=
  match s with
  | EmptyString => EmptyString
  | String c s' => String (lower_char c) (lower s')
  end.

Definition is_space (c : ascii) : bool :=
  let n := nat_of_ascii c in
  ((9 <=? n)%nat && (n <=? 13)%nat) || ((28 <=? n)%nat && (n <=? 32)%nat).

Fixpoint lstrip (s : string) : string :=
  match s with
  | EmptyString => EmptyString
  | String c s' => if is_space c then lstrip s' else s
  end.

Definition strip (s : string) : string :=
  String.rev (lstrip (String.rev (lstrip s))).

Definition digit (c : ascii) : option Z :=
  let n := Z.of_nat (nat_of_ascii c) in
  if (48 <=? n) && (n <=? 57) then Some (n - 48) else None.

Fixpoint parse_go (s : string) (num : Z) (den : positive) (frac seen : bool)
    : fcell :=
  match s with
  | EmptyString => if seen then Some (num # den) else None
  | String c s' =>
      match digit c with
      | Some d =>
          parse_go s' (num * 10 + d) (if frac then den * 10 else den)%positive
                   frac true
      | None =>
          if Ascii.eqb c "." && negb frac then parse_go s' num den true seen
          else None
      end
  end.

Definition parse (s : string) : fcell :=
  match s with
  | String "-" s' => option_map Qopp (parse_go s' 0 1 false false)
  | _ => parse_go s 0 1 false false
  end.

Definition repr (q : Q) : string :=
  if (Qnum q mod Zpos (Qden q) =? 0)
  then pretty (Qnum q / Zpos (Qden q)) +:+ ".0"
  else pretty (Qnum q) +:+ "/" +:+ pretty (Zpos (Qden q)).

Definition quote_char : ascii := ascii_of_nat 34.

Fixpoint needs_quote (s : string) : bool :=
  match s with
  | EmptyString => false
  | String c s' =>
      Ascii.eqb c "," || Ascii.eqb c quote_char
      || Ascii.eqb c (ascii_of_nat 10) || Ascii.eqb c (ascii_of_nat 13)
      || needs_quote s'
  end.

Fixpoint double_quotes (s : string) : string :=
  match s with
  | EmptyString => EmptyString
  | String c s' =>
      if Ascii.eqb c quote_char
      then String c (String c (double_quotes s'))
      else String c (double_quotes s')
  end.

Definition field (s : string) : string :=
  if needs_quote s
  then String quote_char (double_quotes s) +:+ String quote_char EmptyString
  else s.

Definition lib : TextLib :=
  {| parse_number := parse;
     repr_number := repr;
     str_strip := strip;
     str_lower := lower;
     csv_field := field |}.

End AsciiText.

(** ** A sort for the examples

    Insertion sort, highest median first and NaN last: one of the orders
    [sort_values] may return. *)

Module InsertionSort.

Definition desc_leb (a b : string * fcell) : bool :=
  match a.2, b.2 with
  | Some x, Some y => Qle_bool y x
  | Some _, None => true
  | None, Some _ => false
  | None, None => true
  end.

Definition lib : SeriesSort := {| sort_values := sort_by desc_leb |}.

End InsertionSort.

(** ** Statements about load_data *)

Section load_data_statements.
Context `{TextLib}.

(** What [load_data] makes of one row, given that the year column as a
    whole passed the [Int64] cast. *)
Definition load_row (rr : RawRow) : Row :=
  let la := to_numeric (raw_Latitude rr) in
  let lo := to_numeric (raw_Longitude rr) in
  let scaled := abs_gt 90 la || abs_gt 180 lo in
  {| Locatie := str_strip (astype_str (raw_Locatie rr));
     PFAS := str_strip (astype_str (raw_PFAS rr));
     Bron := str_strip (astype_str (raw_Bron rr));
     Medium := str_strip (astype_str (raw_Medium rr));
     Sampletype := str_strip (astype_str (raw_Sampletype rr));
     Eenheid := str_strip (astype_str (raw_Eenheid rr));
     Jaar := option_map Q_to_Z (to_numeric (raw_Jaar rr));
     Waarde := to_numeric (raw_Waarde rr);
     Latitude := if scaled then fdiv 10000 la else la;
     Longitude := if scaled then fdiv 10000 lo else lo;
     LOQ_flag := raw_LOQ_flag rr |}.

(** A year cell that is empty or unparsable, or a whole number an [Int64]
    holds. *)
Definition year_castable (rr : RawRow) : Prop :=
  match to_numeric (raw_Jaar rr) with
  | None => True
  | Some q => exists z : Z, (q == inject_Z z)%Q /\ int64_min <= z <= int64_max
  end.

End load_data_statements.

(** Both coordinates within the geographic range, or both missing. *)
Definition coords_in_range (r : Row) : Prop :=
  exists a b, Latitude r = Some a /\ Longitude r = Some b
              /\ (Qabs a <= 90)%Q /\ (Qabs b <= 180)%Q.

Definition coords_missing (r : Row) : Prop :=
  Latitude r = None /\ Longitude r = None.

(** Rows for the examples. *)
Definition raw_row (jaar waarde lat lon : raw) : RawRow :=
  {| raw_Locatie := RText "Westerschelde";
     raw_PFAS := RText "PFOS";
     raw_Bron := RText "RWS";
     raw_Medium := RText "water";
     raw_Sampletype := RText "monster";
     raw_Eenheid := RText "ng/L";
     raw_Jaar := jaar;
     raw_Waarde := waarde;
     raw_Latitude := lat;
     raw_Longitude := lon;
     raw_LOQ_flag := Some false |}.

(** ** Statements about the ordering of a location group *)

(** The order of [sort_group] on the three sort columns: rank ascending,
    then year descending, then value descending. *)
Definition map_le (a b : Row) : Prop :=
  pfas_rank a < pfas_rank b
  \/ (pfas_rank a = pfas_rank b
      /\ (jaar_sort b < jaar_sort a
          \/ (jaar_sort a = jaar_sort b
              /\ (waarde_sort b <= waarde_sort a)%Q))).

(** Rows that tie with [r] on all three sort columns. *)
Definition same_key (r x : Row) : bool :=
  (pfas_rank r =? pfas_rank x)
  && (jaar_sort r =? jaar_sort x)
  && Qeq_bool (waarde_sort r) (waarde_sort x).

(** [needle in hay] *)
Fixpoint occurs (needle hay : string) : bool :=
  String.prefix needle hay
  || match hay with
     | EmptyString => false
     | String _ hay' => occurs needle hay'
     end.

Definition row (pfas : string) (jaar : option Z) (waarde : fcell) (eenheid : string)
    : Row :=
  {| Locatie := "LocA";
     PFAS := pfas;
     Bron := "RWS";
     Medium := "water";
     Sampletype := "monster";
     Eenheid := eenheid;
     Jaar := jaar;
     Waarde := waarde;
     Latitude := Some (515 # 10);
     Longitude := Some (38 # 10);
     LOQ_flag := Some false |}.

(** ** Statements about the validity filter *)

(** The distinct non-missing years observed for a combination: the years
    [y] such that some row of the subset has the combination and year [y]. *)
Definition distinct_years (k : combo) (subset : list Row) : gset Z :=
  list_to_set (omap (fun r => if decide (combo_of r = k) then Jaar r else None) subset).

(** ** Statements about the chart tables *)

Section chart_statements.
Context `{TextLib}.

(** The derived column of lines 64-67 and 457-460 over the rows [rs]. *)
Definition norm_column (rs : list Row) : list fcell :=
  let mask_ug := map (fun r => is_ug (Eenheid r)) rs in
  loc_set mask_ug (map (fmul 1000) (loc_get mask_ug (map Waarde rs))) (map Waarde rs).

(** The table [plot_df] of [make_bar_by_location] after line 69, made from
    the table [f] it was given. *)
Definition bar_frame (f : Frame) : Frame :=
  let rs := filter valid_locatie (rows f) in
  {| rows := rs;
     Waarde_plot :=
       Some (if existsb id (map (fun r => is_ug (Eenheid r)) rs)
             then norm_column rs else map Waarde rs) |}.

(** The table [lijn_df] after line 460, made from the subset [f]. *)
Definition lijn_frame (sel : Selection) (f : Frame) : Frame :=
  let rs := filter (selected sel) (rows f) in
  {| rows := rs; Waarde_plot := Some (norm_column rs) |}.

(** The unit label is one of the two spellings of micrograms per litre,
    letter case aside. *)
Definition microgram_label (eenheid : string) : Prop :=
  str_lower eenheid = "ug/l" \/ str_lower eenheid = "µg/l".

(** Every row of the table has its derived value: a thousand times the
    value under a microgram label, the value itself under any other. *)
Definition plot_normalised (f : Frame) : Prop :=
  exists wp,
    Waarde_plot f = Some wp
    /\ length wp = length (rows f)
    /\ forall i r, rows f !! i = Some r ->
         exists v, wp !! i = Some v
           /\ (microgram_label (Eenheid r) -> v = fmul 1000 (Waarde r))
           /\ (~ microgram_label (Eenheid r) -> v = Waarde r)
           /\ (forall q, Waarde r = Some q -> ~ (q == 0)%Q ->
                 (v = Some (q * 1000)%Q <-> microgram_label (Eenheid r))).

End chart_statements.

(** ** Statements about the views *)

Section view_statements.
Context `{TextLib} `{SeriesSort}.

(** The table a mask selects from [f]. *)
Definition select (mask : list bool) (f : Frame) : Frame :=
  {| rows := loc_get mask (rows f);
     Waarde_plot := loc_get mask <$> Waarde_plot f |}.

(** What [make_bar_by_location] returns, as a function of the table it is
    given. *)
Definition bar_heights (max_locations : nat) (f : Frame) : list (string * fcell) :=
  let plot_df := bar_frame f in
  let medians :=
    group_median String.eqb String.leb (fun r => Some (Locatie r)) plot_df in
  let tmp := map fst (take max_locations (sort_values medians)) in
  let top := select (map (fun r => bool_decide (Locatie r ∈ tmp)) (rows plot_df))
                    plot_df in
  sort_values
    (group_median String.eqb String.leb (fun r => Some (Locatie r)) top).

(** What [lijn_series] returns, as a function of the subset. *)
Definition lijn_medians (sel : Selection) (f : Frame) : list (Z * fcell) :=
  group_median Z.eqb Z.leb Jaar (lijn_frame sel f).

(** The filtered subset of lines 327-329 as a function of the table of
    the sidebar. *)
Definition subset_frame (f : Frame) : Frame :=
  select (map (fun r => bool_decide (is_Some (Waarde r))) (rows f)) f.

Definition has_coords (r : Row) : bool :=
  bool_decide (is_Some (Latitude r)) && bool_decide (is_Some (Longitude r)).

Definition kaart_view (kaarttype : Kaarttype) (f : Frame) : KaartView :=
  match rows f with
  | [] => KaartGeenData
  | _ =>
      match filter has_coords (rows f) with
      | [] => KaartGeenCoords
      | r :: rs => KaartMap (make_map (r :: rs) kaarttype)
      end
  end.

Definition lijn_view (sel : Selection) (f : Frame) : LijnView :=
  match rows f with
  | [] => LijnGeenData
  | _ =>
      match valid_groups (rows f) with
      | [] => LijnGeenCombinatie
      | _ => LijnChart (lijn_medians sel f)
      end
  end.

Definition staaf_view (f : Frame) : StaafView :=
  match remove_dups (map PFAS (rows f)) with
  | [] => StaafGeenPfas
  | [gekozen] => StaafChart gekozen (staaf_eenheden (rows f)) (bar_heights 25 f)
  | _ => StaafMeerderePfas
  end.

(** The views as a function of the filtered subset. *)
Definition views_of (kaarttype : Kaarttype) (sel : Selection) (f : Frame) : Views :=
  {| n_rows := length (rows f);
     n_loc := length (remove_dups (map Locatie (rows f)));
     n_map := length (dropna_coords (rows f));
     tab_kaart := kaart_view kaarttype f;
     tab_tabel := f;
     tab_tabel_csv := to_csv f;
     tab_lijn := lijn_view sel f;
     tab_staaf := staaf_view f |}.

(** One line of the export of a table without derived column: the fields
    of the row as they were loaded. *)
Definition csv_raw_record (r : Row) : list string :=
  [ csv_field (Locatie r); csv_field (PFAS r); csv_field (Bron r);
    csv_field (Medium r); csv_field (Sampletype r); csv_field (Eenheid r);
    csv_Int64 (Jaar r); csv_float (Waarde r); csv_float (Latitude r);
    csv_float (Longitude r); csv_bool (LOQ_flag r) ].

Definition csv_lines (lines : list (list string)) : string :=
  foldr (fun line acc => join "," line +:+ newline +:+ acc) "" lines.

End view_statements.

(** The rows of the end-to-end example of the specification, as a table
    without derived column. *)
Definition example_frame : Frame :=
  {| rows := [row "PFOS" (Some 2019) (Some 5%Q) "ng/L";
              row "PFOS" (Some 2020) (Some 7%Q) "ng/L";
              row "PFOA" (Some 2020) (Some 3%Q) "µg/L"];
     Waarde_plot := None |}.

Definition example_selection : Selection :=
  {| gekozen_pfas := "PFOS"; gekozen_locatie := "LocA";
     gekozen_medium := "water"; gekozen_bron := "RWS" |}.

(** ** Statements about the markers *)

(** The row lies at the place a group key names: the same location name
    and coordinates of the same value. *)
Definition at_place (key : group_key) (r : Row) : Prop :=
  exists la lo, Latitude r = Some la /\ Longitude r = Some lo
                /\ Locatie r = key.1.1 /\ (la == key.1.2)%Q /\ (lo == key.2)%Q.

(** Two keys name the same place. *)
Definition same_place (a b : group_key) : Prop :=
  a.1.1 = b.1.1 /\ (a.1.2 == b.1.2)%Q /\ (a.2 == b.2)%Q.

(** ** The sidebar: filters and information *)

(** [sorted(...)] on texts and on years. *)
Definition sorted_strings (l : list string) : list string := sort_by String.leb l.
Definition sorted_years (l : list Z) : list Z := sort_by Z.leb l.

(** What the widgets of the sidebar return. *)
Record Keuzes := {
  filters_aan : bool;
  bron_filter : list string;
  medium_filter : list string;
  pfas_filter : list string;
  jaar_filter : list Z;
  sampletype_filter : list string;
  locatie_filter : list string
}.

(** [series.isin(keuze)], cell by cell: a missing cell is in no
    selection. *)
Definition isin {A} `{EqDecision A} (keuze : list A) (c : option A) : bool :=
  match c with
  | Some x => bool_decide (x ∈ keuze)
  | None => false
  end.

(** [if keuze: df = df[df[col].isin(keuze)]]: an empty selection keeps
    the table. *)
Definition keep_isin {A} `{EqDecision A} (col : Row -> option A) (keuze : list A)
    (df : list Row) : list Row :=
  match keuze with
  | [] => df
  | _ => filter (fun r => isin keuze (col r)) df
  end.

Definition top_pfas : list string := ["PFOS"; "PFOA"; "PFHxS"; "PFNA"; "PFHxA"].

(** Lines 295-298 and 428-432: the five best-known substances first, in
    their fixed order, then the others sorted. *)
Definition pfas_options (pfas_all : list string) : list string :=
  let top_present := filter (fun p => p ∈ pfas_all) top_pfas in
  let rest := sorted_strings (filter (fun p => p ∉ top_present) pfas_all) in
  top_present ++ rest.

(** [sorted(df[col].dropna().unique())] *)
Definition string_options (col : Row -> string) (df : list Row) : list string :=
  sorted_strings (unique (map col df)).

Record Sidebar := {
  bron_options : list string;
  medium_options : list string;
  sidebar_pfas_options : list string;
  jaar_options : list Z;
  sampletype_options : list string;
  locatie_options : list string;
  working_df : list Row
}.

(** Lines 279-320 with the filters switched on: each selector is offered
    the values left by the selectors above it. *)
Definition sidebar_filters (df : list Row) (k : Keuzes) : Sidebar :=
  let df1 := keep_isin (fun r => Some (Bron r)) (bron_filter k) df in
  let df2 := keep_isin (fun r => Some (Medium r)) (medium_filter k) df1 in
  let df3 := keep_isin (fun r => Some (PFAS r)) (pfas_filter k) df2 in
  let df4 := keep_isin Jaar (jaar_filter k) df3 in
  let df5 := keep_isin (fun r => Some (Sampletype r)) (sampletype_filter k) df4 in
  let df6 := keep_isin (fun r => Some (Locatie r)) (locatie_filter k) df5 in
  {| bron_options := string_options Bron df;
     medium_options := string_options Medium df1;
     sidebar_pfas_options := pfas_options (unique (map PFAS df2));
     jaar_options := sorted_years (unique (omap Jaar df3));
     sampletype_options := string_options Sampletype df4;
     locatie_options := string_options Locatie df5;
     working_df := df6 |}.

(** Lines 279-320: the table the views are made from. *)
Definition sidebar_working_df (df : list Row) (k : Keuzes) : list Row :=
  if filters_aan k then working_df (sidebar_filters df k) else df.


Section sidebar_info.
Context `{TextLib}.



End sidebar_info.

(** Lines 357-359: the number of rows flagged below the limit, shown when
    it is not zero. *)
Definition sidebar_n_loq (subset : list Row) : option nat :=
  match subset with
  | [] => None
  | _ =>
      let n_loq := length (filter (fun r => LOQ_flag r = Some true) subset) in
      if (0 <? n_loq)%nat then Some n_loq else None
  end.

(** ** The selectors of the time-series tab *)

Definition combo_pfas (k : combo) : string := k.1.1.1.
Definition combo_locatie (k : combo) : string := k.1.1.2.
Definition combo_medium (k : combo) : string := k.1.2.
Definition combo_bron (k : combo) : string := k.2.

(** Line 434: [pfas_options.index("PFOS") if "PFOS" in pfas_options else 0]. *)
Definition default_index (options : list string) : nat :=
  match list_find (fun p => p = "PFOS") options with
  | Some (i, _) => i
  | None => 0%nat
  end.

(** Lines 428-447: what each selector offers, given the choices made in
    the selectors before it. *)
Definition lijn_pfas_options (vg : list (combo * nat)) : list string :=
  pfas_options (unique (map (fun kc => combo_pfas kc.1) vg)).

Definition vg_pfas (vg : list (combo * nat)) (sel : Selection) : list (combo * nat) :=
  filter (fun kc => combo_pfas kc.1 = gekozen_pfas sel) vg.

Definition lijn_locatie_options (vg : list (combo * nat)) (sel : Selection)
    : list string :=
  sorted_strings (unique (map (fun kc => combo_locatie kc.1) (vg_pfas vg sel))).

Definition vg_loc (vg : list (combo * nat)) (sel : Selection) : list (combo * nat) :=
  filter (fun kc => combo_locatie kc.1 = gekozen_locatie sel) (vg_pfas vg sel).

Definition lijn_medium_options (vg : list (combo * nat)) (sel : Selection)
    : list string :=
  sorted_strings (unique (map (fun kc => combo_medium kc.1) (vg_loc vg sel))).

Definition vg_med (vg : list (combo * nat)) (sel : Selection) : list (combo * nat) :=
  filter (fun kc => combo_medium kc.1 = gekozen_medium sel) (vg_loc vg sel).

Definition lijn_bron_options (vg : list (combo * nat)) (sel : Selection)
    : list string :=
  sorted_strings (unique (map (fun kc => combo_bron kc.1) (vg_med vg sel))).

(** The four selectors were each answered from what they offered. *)
Definition offered (vg : list (combo * nat)) (sel : Selection) : Prop :=
  gekozen_pfas sel ∈ lijn_pfas_options vg
  /\ gekozen_locatie sel ∈ lijn_locatie_options vg sel
  /\ gekozen_medium sel ∈ lijn_medium_options vg sel
  /\ gekozen_bron sel ∈ lijn_bron_options vg sel.

Definition selection_combo (sel : Selection) : combo :=
  (gekozen_pfas sel, gekozen_locatie sel, gekozen_medium sel, gekozen_bron sel).

(** ** Statements about the sidebar *)

(** A selection is empty or holds the value of the cell. *)
Definition chosen {A} (keuze : list A) (c : option A) : Prop :=
  keuze = [] \/ exists x, c = Some x /\ x ∈ keuze.

(** The row passes the six filters. *)
Definition passes (k : Keuzes) (r : Row) : Prop :=
  chosen (bron_filter k) (Some (Bron r))
  /\ chosen (medium_filter k) (Some (Medium r))
  /\ chosen (pfas_filter k) (Some (PFAS r))
  /\ chosen (jaar_filter k) (Jaar r)
  /\ chosen (sampletype_filter k) (Some (Sampletype r))
  /\ chosen (locatie_filter k) (Some (Locatie r)).

(** ** Statements about the bar chart *)

Section bar_statements.
Context `{TextLib}.

(** The median of the derived values per location, over the rows whose
    location name is valid, locations in ascending order. *)
Definition location_medians (f : Frame) : list (string * fcell) :=
  group_median String.eqb String.leb (fun r => Some (Locatie r)) (bar_frame f).

End bar_statements.

(** The row has both coordinates, of the values [la] and [lo], and the
    location name [loc]. *)
Definition placed_at (loc : string) (la lo : Q) (r : Row) : bool :=
  match Latitude r, Longitude r with
  | Some a, Some b => String.eqb loc (Locatie r) && Qeq_bool la a && Qeq_bool lo b
  | _, _ => false
  end.

(** The rows of the table that lie where a marker stands and carry its
    name. *)
Definition rows_of_marker (map_df : list Row) (m : Marker) : list Row :=
  filter (placed_at (popup_loc (marker_popup m))
                    (marker_location m).1 (marker_location m).2) map_df.

(** The positions of the rows between 50 and 54 degrees north and 3 and 8
    degrees east. *)
Definition box_positions (map_df : list Row) : list (Q * Q) :=
  omap (fun r => match Latitude r, Longitude r with
                 | Some la, Some lo =>
                     if Qle_bool 50 la && Qle_bool la 54
                        && Qle_bool 3 lo && Qle_bool lo 8
                     then Some (la, lo) else None
                 | _, _ => None
                 end) map_df.

(** ** Statements about the bars *)

Section bar_values.
Context `{TextLib}.

(** The location name passes the filter of lines 56-60. *)
Definition usable_name (loc : string) : Prop :=
  str_strip loc <> "" /\ str_lower loc <> "nan".

(** The value the charts plot for a row: a thousand times the value under
    a microgram label, the value itself under any other. *)
Definition derived_value (r : Row) : fcell :=
  match Waarde r with
  | Some q =>
      Some (if bool_decide (str_lower (Eenheid r) = "ug/l")
               || bool_decide (str_lower (Eenheid r) = "µg/l")
            then q * 1000 else q)%Q
  | None => None
  end.

(** The derived values, NaN left out, of the rows of a location. *)
Definition location_values (rs : list Row) (loc : string) : list Q :=
  omap (fun r => if decide (Locatie r = loc) then derived_value r else None) rs.

End bar_values.

(** [m] is the median of the numbers [vs]: NaN when there are none, else
    the middle one of the numbers put in ascending order, or the mean of
    the two middle ones when their count is even. *)
Definition is_median (vs : list Q) (m : fcell) : Prop :=
  match m with
  | None => vs = []
  | Some q =>
      exists sorted,
        sorted ≡ₚ vs /\ StronglySorted Qle sorted
        /\ if Nat.odd (length vs) then sorted !! (length vs / 2)%nat = Some q
           else exists a b,
                  sorted !! (length vs / 2 - 1)%nat = Some a
                  /\ sorted !! (length vs / 2)%nat = Some b
                  /\ q = ((a + b) / 2)%Q
  end.

(** * Properties *)

(** ** Column operations *)

Lemma loc_set_loc_get {A} (f : A -> A) (mask : list bool) (col : list A) :
  loc_set mask (map f (loc_get mask col)) col
  = zip_with (fun (b : bool) x => if b then f x else x) mask col
    ++ drop (length mask) col.
Proof.
  revert col; induction mask as [|b mask IH]; intros [|x col]; simpl; try done.
  destruct b; simpl; by rewrite IH.
Qed.

Lemma loc_set_loc_get_lookup {A} (f : A -> A) (mask : list bool) (col : list A)
    (i : nat) (b : bool) (x : A) :
  mask !! i = Some b -> col !! i = Some x ->
  loc_set mask (map f (loc_get mask col)) col !! i = Some (if b then f x else x).
Proof.
  intros Hm Hc. rewrite loc_set_loc_get.
  assert (i < length (zip_with (fun (b : bool) x => if b then f x else x) mask col))%nat.
  { rewrite length_zip_with. apply lookup_lt_Some in Hm, Hc. lia. }
  rewrite lookup_app_l by done.
  rewrite lookup_zip_with, Hm; simpl. by rewrite Hc.
Qed.

Lemma loc_get_filter {A} (p : A -> bool) (l : list A) :
  loc_get (map p l) l = filter p l.
Proof.
  induction l as [|x l IH]; simpl; [done|].
  rewrite filter_cons. destruct (p x); simpl; by rewrite IH.
Qed.

(** ** load_data *)

Lemma Qgt_bool_true (x y : Q) : Qgt_bool x y = true <-> (y < x)%Q.
Proof.
  unfold Qgt_bool. rewrite negb_true_iff, <- not_true_iff_false, Qle_bool_iff.
  split; [apply Qnot_le_lt | apply Qlt_not_le].
Qed.

Lemma Qgt_bool_false (x y : Q) : Qgt_bool x y = false <-> (x <= y)%Q.
Proof.
  unfold Qgt_bool. rewrite negb_false_iff. apply Qle_bool_iff.
Qed.

Lemma abs_gt_true (bound : Q) (c : fcell) :
  abs_gt bound c = true <-> exists q, c = Some q /\ (bound < Qabs q)%Q.
Proof.
  destruct c as [q|]; simpl.
  - rewrite Qgt_bool_true. split; [eauto|]. by intros (? & [= <-] & ?).
  - split; [done|]. by intros (? & ? & ?).
Qed.

Lemma abs_gt_false_Some (bound q : Q) :
  abs_gt bound (Some q) = false <-> (Qabs q <= bound)%Q.
Proof. simpl. apply Qgt_bool_false. Qed.

Lemma is_whole_spec (q : Q) :
  is_whole q = true <-> exists z : Z, (q == inject_Z z)%Q.
Proof.
  unfold is_whole. rewrite Z.eqb_eq. destruct q as [n d]; simpl.
  unfold Qeq; simpl. split.
  - intros Hm. exists (n / Z.pos d). rewrite Z.mul_1_r.
    rewrite (Z.div_mod n (Z.pos d)) at 1 by done. lia.
  - intros [z Hz]. rewrite Z.mul_1_r in Hz. subst n. apply Z_mod_mult.
Qed.

Lemma Q_to_Z_inject (q : Q) (z : Z) : (q == inject_Z z)%Q -> Q_to_Z q = z.
Proof.
  unfold Q_to_Z, Qeq; destruct q as [n d]; simpl. rewrite Z.mul_1_r.
  intros ->. by apply Z_div_mult.
Qed.

Section load_data_facts.
Context `{TextLib}.

Lemma safe_int64_spec (rr : RawRow) :
  safe_int64 (to_numeric (raw_Jaar rr)) = true <-> year_castable rr.
Proof.
  unfold year_castable, safe_int64.
  destruct (to_numeric (raw_Jaar rr)) as [q|]; [|done].
  rewrite !andb_true_iff, is_whole_spec, !Z.leb_le. split.
  - intros [[[z Hz] Hlo] Hhi]. exists z.
    rewrite (Q_to_Z_inject _ _ Hz) in Hlo, Hhi. done.
  - intros (z & Hz & Hlo & Hhi). rewrite (Q_to_Z_inject _ _ Hz). eauto.
Qed.

Lemma astype_Int64_Ok (df : list RawRow) :
  Forall year_castable df ->
  astype_Int64 (map (fun r => to_numeric (raw_Jaar r)) df)
  = Ok (map (fun r => option_map Q_to_Z (to_numeric (raw_Jaar r))) df).
Proof.
  intros Hall. unfold astype_Int64.
  rewrite (proj2 (forallb_forall _ _)).
  - by rewrite map_map.
  - intros c Hc. apply in_map_iff in Hc as (rr & <- & Hin).
    apply safe_int64_spec. rewrite Forall_forall in Hall.
    by apply Hall, list_elem_of_In.
Qed.

Lemma astype_Int64_Raise (df : list RawRow) :
  ~ Forall year_castable df ->
  exists e, astype_Int64 (map (fun r => to_numeric (raw_Jaar r)) df) = Raise e.
Proof.
  intros Hnot. unfold astype_Int64.
  destruct (forallb _ _) eqn:Hall; [|eauto].
  exfalso; apply Hnot. rewrite Forall_forall. intros rr Hin.
  apply safe_int64_spec. rewrite forallb_forall in Hall. apply Hall.
  apply in_map_iff. exists rr. split; [done|]. by apply list_elem_of_In.
Qed.

(** A successful [load_data] is [load_row] on every row. *)
Lemma load_data_Ok (raw_df : list RawRow) (df : list Row) :
  load_data raw_df = Ok df -> df = map load_row raw_df.
Proof.
  unfold load_data.
  destruct (astype_Int64 _) as [jaar|] eqn:Hj; [|done].
  intros [= <-]. unfold astype_Int64 in Hj.
  destruct (forallb _ _); [|done]. injection Hj as <-.
  apply list_eq; intros i. rewrite list_lookup_imap, list_lookup_fmap.
  destruct (raw_df !! i) as [rr|] eqn:Hi; simpl; [|done].
  f_equal. unfold load_row.
  assert (Hcol : forall {B} `{Inhabited B} (g : RawRow -> B),
             map g raw_df !!! i = g rr).
  { intros B ? g. apply list_lookup_total_correct.
    by rewrite list_lookup_fmap, Hi. }
  rewrite !Hcol.
  assert (Hmask : mask_scaled (map (fun r => to_numeric (raw_Latitude r)) raw_df)
                              (map (fun r => to_numeric (raw_Longitude r)) raw_df) !! i
                  = Some (abs_gt 90 (to_numeric (raw_Latitude rr))
                          || abs_gt 180 (to_numeric (raw_Longitude rr)))).
  { unfold mask_scaled. rewrite lookup_zip_with, !list_lookup_fmap, Hi. done. }
  f_equal.
  - rewrite map_map. apply list_lookup_total_correct.
    by rewrite list_lookup_fmap, Hi.
  - apply list_lookup_total_correct.
    erewrite loc_set_loc_get_lookup; [done|apply Hmask|].
    by rewrite list_lookup_fmap, Hi.
  - apply list_lookup_total_correct.
    erewrite loc_set_loc_get_lookup; [done|apply Hmask|].
    by rewrite list_lookup_fmap, Hi.
Qed.

Lemma load_data_total (raw_df : list RawRow) :
  Forall year_castable raw_df -> load_data raw_df = Ok (map load_row raw_df).
Proof.
  intros Hall. pose proof (astype_Int64_Ok _ Hall) as Hj.
  destruct (load_data raw_df) as [df|e] eqn:Hl.
  - by rewrite (load_data_Ok _ _ Hl).
  - unfold load_data in Hl. by rewrite Hj in Hl.
Qed.

Lemma load_data_raises (raw_df : list RawRow) :
  ~ Forall year_castable raw_df -> exists e, load_data raw_df = Raise e.
Proof.
  intros Hnot. destruct (astype_Int64_Raise _ Hnot) as [e He].
  exists e. unfold load_data. by rewrite He.
Qed.

End load_data_facts.

Lemma Qabs_scaled_bound (q b : Q) :
  (Qabs q <= b * 10000)%Q -> (Qabs (q / 10000) <= b)%Q.
Proof.
  intros Hq. apply Qabs_Qle_condition in Hq as [Hlo Hhi].
  apply Qabs_Qle_condition. split.
  - apply Qle_shift_div_l; [reflexivity|]. lra.
  - apply Qle_shift_div_r; [reflexivity|]. lra.
Qed.

(** C8. Rescaling is row-atomic: a row with |latitude| > 90 or
    |longitude| > 180 has both coordinates divided by 10000, a coordinate
    [a] becoming [a / 10000] and a missing one staying missing; every
    other row keeps both coordinates as they were read, so in particular a
    row with both coordinates in range keeps them. *)
Theorem load_data_rescale_row_atomic `{TextLib}
    (raw_df : list RawRow) (df : list Row) (i : nat) (rr : RawRow) :
  load_data raw_df = Ok df ->
  raw_df !! i = Some rr ->
  exists r, df !! i = Some r /\
    let la := to_numeric (raw_Latitude rr) in
    let lo := to_numeric (raw_Longitude rr) in
    (((exists a, la = Some a /\ (90 < Qabs a)%Q)
      \/ (exists b, lo = Some b /\ (180 < Qabs b)%Q)) ->
     (forall a, la = Some a -> Latitude r = Some (a / 10000)%Q)
     /\ (la = None -> Latitude r = None)
     /\ (forall b, lo = Some b -> Longitude r = Some (b / 10000)%Q)
     /\ (lo = None -> Longitude r = None))
    /\ (~ ((exists a, la = Some a /\ (90 < Qabs a)%Q)
           \/ (exists b, lo = Some b /\ (180 < Qabs b)%Q)) ->
        Latitude r = la /\ Longitude r = lo)
    /\ (forall a b, la = Some a -> lo = Some b ->
          (Qabs a <= 90)%Q -> (Qabs b <= 180)%Q ->
          Latitude r = Some a /\ Longitude r = Some b).
Proof.
  intros Hload Hi. apply load_data_Ok in Hload as ->.
  exists (load_row rr). split.
  { by rewrite list_lookup_fmap, Hi. }
  simpl. split; [|split].
  - intros Hout.
    assert (abs_gt 90 (to_numeric (raw_Latitude rr))
            || abs_gt 180 (to_numeric (raw_Longitude rr)) = true) as ->.
    { apply orb_true_iff. destruct Hout as [Ha|Hb]; [left|right];
        by apply abs_gt_true. }
    repeat split.
    + by intros a ->.
    + by intros ->.
    + by intros b ->.
    + by intros ->.
  - intros Hin.
    assert (abs_gt 90 (to_numeric (raw_Latitude rr))
            || abs_gt 180 (to_numeric (raw_Longitude rr)) = false) as ->; [|done].
    apply not_true_iff_false. intros Hm. apply Hin.
    apply orb_true_iff in Hm as [Hm|Hm]; [left|right]; by apply abs_gt_true.
  - intros a b Ha Hb Hra Hrb. rewrite Ha, Hb.
    rewrite (proj2 (abs_gt_false_Some 90 a) Hra).
    rewrite (proj2 (abs_gt_false_Some 180 b) Hrb). done.
Qed.

Lemma load_data_rescale_row_atomic_witness :
  exists df r,
    load_data (H := AsciiText.lib)
      [raw_row (RNum 2020) (RNum 5) (RNum 514425) (RNum 38000)] = Ok df
    /\ df !! 0%nat = Some r
    /\ Latitude r = Some (514425 / 10000)%Q
    /\ Longitude r = Some (38000 / 10000)%Q.
Proof.
  destruct (load_data_rescale_row_atomic (H := AsciiText.lib)
              [raw_row (RNum 2020) (RNum 5) (RNum 514425) (RNum 38000)] _ 0%nat
              (raw_row (RNum 2020) (RNum 5) (RNum 514425) (RNum 38000))
              eq_refl eq_refl) as (r & Hr & Hscaled & _).
  eexists. exists r. split; [reflexivity|]. split; [exact Hr|].
  destruct Hscaled as (Hla & _ & Hlo & _).
  { left. eexists. split; [reflexivity|]. reflexivity. }
  split; [by apply Hla|by apply Hlo].
Defined.

(** C1, as the code has it.  A row whose two coordinates are numbers with
    |latitude| <= 900000 and |longitude| <= 1800000 lies in the geographic
    range after the sanitizer; the sanitizer marks nothing missing: a
    coordinate is missing afterwards exactly when it did not parse. *)
Theorem load_data_coords_bounded `{TextLib}
    (raw_df : list RawRow) (df : list Row) (i : nat) (rr : RawRow) :
  load_data raw_df = Ok df ->
  raw_df !! i = Some rr ->
  exists r, df !! i = Some r /\
    let la := to_numeric (raw_Latitude rr) in
    let lo := to_numeric (raw_Longitude rr) in
    (forall a b, la = Some a -> lo = Some b ->
       (Qabs a <= 900000)%Q -> (Qabs b <= 1800000)%Q -> coords_in_range r)
    /\ (Latitude r = None <-> la = None)
    /\ (Longitude r = None <-> lo = None).
Proof.
  intros Hload Hi. apply load_data_Ok in Hload as ->.
  exists (load_row rr). split.
  { by rewrite list_lookup_fmap, Hi. }
  simpl. split; [|split].
  - intros a b Ha Hb Hba Hbb. unfold coords_in_range; simpl.
    rewrite Ha, Hb.
    destruct (abs_gt 90 (Some a) || abs_gt 180 (Some b)) eqn:Hm.
    + exists (a / 10000)%Q, (b / 10000)%Q. repeat split.
      * by apply Qabs_scaled_bound.
      * by apply Qabs_scaled_bound.
    + apply orb_false_iff in Hm as [Hma Hmb].
      exists a, b. repeat split; by apply abs_gt_false_Some.
  - destruct (abs_gt 90 _ || abs_gt 180 _);
      destruct (to_numeric (raw_Latitude rr)); simpl; done.
  - destruct (abs_gt 90 _ || abs_gt 180 _);
      destruct (to_numeric (raw_Longitude rr)); simpl; done.
Qed.

Lemma load_data_coords_bounded_witness :
  exists r, coords_in_range r.
Proof.
  destruct (load_data_coords_bounded (H := AsciiText.lib)
              [raw_row (RNum 2020) (RNum 5) (RNum 514425) (RNum 38000)] _ 0%nat
              (raw_row (RNum 2020) (RNum 5) (RNum 514425) (RNum 38000))
              eq_refl eq_refl) as (r & _ & Hrange & _).
  exists r. apply (Hrange 514425%Q 38000%Q eq_refl eq_refl).
  - unfold Qle; simpl. lia.
  - unfold Qle; simpl. lia.
Defined.

(** C1 as stated fails: a latitude of 9500000 is divided once, to 950,
    which is neither in range nor missing. *)
Lemma load_data_coords_counterexample :
  exists r,
    load_data (H := AsciiText.lib)
      [raw_row (RNum 2020) (RNum 5) (RNum 9500000) (RNum 38000)] = Ok [r]
    /\ ~ (coords_in_range r \/ coords_missing r).
Proof.
  eexists. split; [reflexivity|].
  intros [(a & b & Ha & _ & Hra & _) | [Ha _]]; simpl in *.
  - injection Ha as <-. revert Hra. unfold Qle; simpl. lia.
  - discriminate.
Qed.

(** C3, as the code has it.  On a table whose year cells are each empty,
    unparsable or a whole number an Int64 holds, [load_data] returns
    normally with as many rows as it was given; an empty or unparsable year
    is missing in the result (not zero) and a whole year is kept. *)
Theorem load_data_year_coercion `{TextLib} (raw_df : list RawRow) :
  Forall year_castable raw_df ->
  exists df,
    load_data raw_df = Ok df
    /\ length df = length raw_df
    /\ forall i rr, raw_df !! i = Some rr ->
         exists r, df !! i = Some r
           /\ (to_numeric (raw_Jaar rr) = None -> Jaar r = None)
           /\ (forall q, to_numeric (raw_Jaar rr) = Some q ->
                 exists z, Jaar r = Some z /\ (inject_Z z == q)%Q).
Proof.
  intros Hall. exists (map load_row raw_df). split; [|split].
  - by apply load_data_total.
  - by rewrite length_map.
  - intros i rr Hi. exists (load_row rr). split.
    { by rewrite list_lookup_fmap, Hi. }
    rewrite Forall_forall in Hall.
    assert (Hrr : year_castable rr).
    { apply Hall. by eapply list_elem_of_lookup_2. }
    unfold year_castable in Hrr. simpl. split.
    + by intros ->.
    + intros q Hq. rewrite Hq in *. simpl.
      destruct Hrr as (z & Hz & _). exists z.
      by rewrite (Q_to_Z_inject _ _ Hz).
Qed.

Lemma load_data_year_coercion_witness :
  exists df,
    load_data (H := AsciiText.lib)
      [raw_row (RText "onbekend") (RNum 5) (RNum 51) (RNum 4);
       raw_row (RText "2019") (RNum 7) (RNum 51) (RNum 4)] = Ok df
    /\ map Jaar df = [None; Some 2019].
Proof.
  destruct (load_data_year_coercion (H := AsciiText.lib)
              [raw_row (RText "onbekend") (RNum 5) (RNum 51) (RNum 4);
               raw_row (RText "2019") (RNum 7) (RNum 51) (RNum 4)])
    as (df & Hload & _ & _).
  - repeat constructor. exists 2019. split; [reflexivity|]. split; by vm_compute.
  - exists df. split; [exact Hload|].
    vm_compute in Hload. by injection Hload as <-.
Defined.

(** C3 as stated fails: a fractional year does not become missing, the
    Int64 cast raises and [load_data] returns no table. *)
Lemma load_data_fractional_year_counterexample :
  load_data (H := AsciiText.lib)
    [raw_row (RNum 2019.5) (RNum 5) (RNum 51) (RNum 4)]
  = Raise (TypeError "cannot safely cast non-equivalent float64 to int64").
Proof. reflexivity. Qed.

(** ** The stable sort *)

Section sort_by.
Context {A : Type} (leb : A -> A -> bool).

Lemma insert_by_Permutation (x : A) (l : list A) : insert_by leb x l ≡ₚ x :: l.
Proof.
  induction l as [|y l IH]; simpl; [done|].
  destruct (leb x y); [done|]. rewrite IH. apply Permutation_swap.
Qed.

Lemma sort_by_Permutation (l : list A) : sort_by leb l ≡ₚ l.
Proof.
  unfold sort_by. induction l as [|x l IH]; simpl; [done|].
  by rewrite insert_by_Permutation, IH.
Qed.

Lemma length_sort_by (l : list A) : length (sort_by leb l) = length l.
Proof. apply Permutation_length, sort_by_Permutation. Qed.

(** Rows of one class, any two of which are in order both ways, keep
    their places relative to each other. *)
Lemma insert_by_stable (p : A -> bool) (x : A) (l : list A) :
  (forall y, p x = true -> p y = true -> leb x y = true) ->
  filter p (insert_by leb x l) = filter p (x :: l).
Proof.
  intros Hp. induction l as [|y l IH]; simpl; [done|].
  destruct (leb x y) eqn:Hxy; [done|].
  rewrite filter_cons, IH, !filter_cons.
  destruct (decide (p y)) as [Hy|Hy], (decide (p x)) as [Hx|Hx]; try done.
  apply Is_true_true in Hx, Hy. rewrite (Hp y Hx Hy) in Hxy. done.
Qed.

Lemma sort_by_stable (p : A -> bool) (l : list A) :
  (forall x y, p x = true -> p y = true -> leb x y = true) ->
  filter p (sort_by leb l) = filter p l.
Proof.
  intros Hp. unfold sort_by. induction l as [|x l IH]; simpl; [done|].
  rewrite insert_by_stable by (intros y; apply Hp).
  by rewrite !filter_cons, IH.
Qed.

Context (Htotal : forall x y, leb x y = true \/ leb y x = true).
Context (Htrans : forall x y z, leb x y = true -> leb y z = true -> leb x z = true).

Lemma insert_by_StronglySorted (x : A) (l : list A) :
  StronglySorted (fun a b => leb a b = true) l ->
  StronglySorted (fun a b => leb a b = true) (insert_by leb x l).
Proof.
  induction 1 as [|y l Hs IH Hall]; simpl.
  - repeat constructor.
  - destruct (leb x y) eqn:Hxy.
    + constructor; [by constructor|].
      constructor; [done|]. eapply Forall_impl; [exact Hall|].
      intros z Hz. by eapply Htrans.
    + constructor; [done|].
      rewrite insert_by_Permutation. constructor; [|done].
      destruct (Htotal x y) as [Hc|Hc]; [congruence|done].
Qed.

Lemma sort_by_StronglySorted (l : list A) :
  StronglySorted (fun a b => leb a b = true) (sort_by leb l).
Proof.
  unfold sort_by. induction l as [|x l IH]; simpl; [constructor|].
  by apply insert_by_StronglySorted.
Qed.

End sort_by.

Lemma StronglySorted_lookup {A} (R : A -> A -> Prop) (l : list A)
    (i j : nat) (a b : A) :
  StronglySorted R l -> (i < j)%nat -> l !! i = Some a -> l !! j = Some b -> R a b.
Proof.
  intros Hs. revert i j. induction Hs as [|x l Hs IH Hall]; intros i j Hij Hi Hj.
  - done.
  - destruct j as [|j]; [lia|]. destruct i as [|i]; simpl in *.
    + injection Hi as <-. rewrite Forall_forall in Hall.
      apply Hall. by eapply list_elem_of_lookup_2.
    + apply (IH i j); [lia|done..].
Qed.

(** ** The order of a location group *)

Lemma map_order_spec (a b : Row) : map_order a b = true <-> map_le a b.
Proof.
  unfold map_order, map_le.
  rewrite !orb_true_iff, !andb_true_iff, !orb_true_iff, !andb_true_iff.
  rewrite !Z.ltb_lt, !Z.eqb_eq, Qle_bool_iff. done.
Qed.

Lemma map_le_total (a b : Row) : map_le a b \/ map_le b a.
Proof.
  unfold map_le.
  destruct (Z.lt_trichotomy (pfas_rank a) (pfas_rank b)) as [?|[?|?]];
    [by left; left| |by right; left].
  destruct (Z.lt_trichotomy (jaar_sort a) (jaar_sort b)) as [?|[?|?]];
    [by right; right; split; [|left]| |by left; right; split; [|left]].
  destruct (Qlt_le_dec (waarde_sort a) (waarde_sort b)) as [Hv|Hv].
  - right; right. split; [done|]. right. split; [done|]. by apply Qlt_le_weak.
  - left; right. split; [done|]. right. done.
Qed.

Lemma map_le_trans (a b c : Row) : map_le a b -> map_le b c -> map_le a c.
Proof.
  unfold map_le.
  intros [?|[? [?|[? Hab]]]] [?|[? [?|[? Hbc]]]];
    try (left; lia);
    try (right; split; [lia|left; lia]).
  right; split; [lia|]. right; split; [lia|]. by eapply Qle_trans.
Qed.

Lemma same_key_order (r x y : Row) :
  same_key r x = true -> same_key r y = true -> map_order x y = true.
Proof.
  unfold same_key. rewrite !andb_true_iff, !Z.eqb_eq, !Qeq_bool_iff.
  intros [[? ?] Hx] [[? ?] Hy]. apply map_order_spec.
  right; split; [lia|]. right; split; [lia|].
  rewrite <- Hx, <- Hy. apply Qle_refl.
Qed.

Lemma StronglySorted_weaken {A} (R R' : A -> A -> Prop) (l : list A) :
  (forall a b, R a b -> R' a b) -> StronglySorted R l -> StronglySorted R' l.
Proof.
  intros HR. induction 1 as [|x l Hs IH Hall]; constructor; [done|].
  eapply Forall_impl; [exact Hall|]. intros b. apply HR.
Qed.

Lemma sort_group_sorted (g : list Row) : StronglySorted map_le (sort_group g).
Proof.
  eapply StronglySorted_weaken; last apply sort_by_StronglySorted.
  - intros a b. apply map_order_spec.
  - intros a b. destruct (map_le_total a b); [left|right]; by apply map_order_spec.
  - intros a b c. rewrite !map_order_spec. apply map_le_trans.
Qed.

(** C7, as the code has it.  [sort_group] permutes the group, orders it by
    rank ascending, then year descending, then value descending, a missing
    year or value counting as -1, and keeps the input order among rows that
    tie on all three keys.  A missing year therefore comes after every year
    above -1 of the same rank, and a missing value after every value above
    -1 of the same rank and year. *)
Theorem sort_group_order (g : list Row) :
  sort_group g ≡ₚ g
  /\ (forall i j a b, (i < j)%nat ->
        sort_group g !! i = Some a -> sort_group g !! j = Some b -> map_le a b)
  /\ (forall r, filter (same_key r) (sort_group g) = filter (same_key r) g)
  /\ (forall i j a b y, (i < j)%nat ->
        sort_group g !! i = Some a -> sort_group g !! j = Some b ->
        pfas_rank a = pfas_rank b -> Jaar a = None -> Jaar b = Some y -> y <= -1)
  /\ (forall i j a b v, (i < j)%nat ->
        sort_group g !! i = Some a -> sort_group g !! j = Some b ->
        pfas_rank a = pfas_rank b -> jaar_sort a = jaar_sort b ->
        Waarde a = None -> Waarde b = Some v -> (v <= -1)%Q).
Proof.
  pose proof (sort_group_sorted g) as Hs.
  split; [apply sort_by_Permutation|].
  split; [intros i j a b; by apply StronglySorted_lookup|].
  split.
  { intros r. apply sort_by_stable. intros x y. apply same_key_order. }
  split.
  - intros i j a b y Hij Hi Hj Hrank Ha Hb.
    pose proof (StronglySorted_lookup _ _ _ _ _ _ Hs Hij Hi Hj) as Hle.
    unfold map_le, jaar_sort in Hle. rewrite Ha, Hb in Hle. simpl in Hle.
    destruct Hle as [?|[_ [?|[? _]]]]; lia.
  - intros i j a b v Hij Hi Hj Hrank Hjaar Ha Hb.
    pose proof (StronglySorted_lookup _ _ _ _ _ _ Hs Hij Hi Hj) as Hle.
    unfold map_le, waarde_sort in Hle. rewrite Ha, Hb in Hle. simpl in Hle.
    destruct Hle as [?|[_ [?|[_ ?]]]]; [lia|lia|done].
Qed.

Lemma sort_group_order_witness :
  map_le (row "PFOS" (Some 2020) (Some 7%Q) "ng/L")
         (row "PFOS" None (Some 5%Q) "ng/L")
  /\ -999 <= -1
  /\ (-5 <= -1)%Q.
Proof.
  split; [|split].
  - apply (proj1 (proj2 (sort_group_order
             [row "PFOA" (Some 2020) (Some 3%Q) "µg/L";
              row "PFOS" None (Some 5%Q) "ng/L";
              row "PFOS" (Some 2020) (Some 7%Q) "ng/L"])) 0%nat 1%nat).
    + lia.
    + by vm_compute.
    + by vm_compute.
  - apply (proj1 (proj2 (proj2 (proj2 (sort_group_order
             [row "PFOS" (Some (-999)) (Some 5%Q) "ng/L";
              row "PFOS" None (Some 5%Q) "ng/L"])))) 0%nat 1%nat
             (row "PFOS" None (Some 5%Q) "ng/L")
             (row "PFOS" (Some (-999)) (Some 5%Q) "ng/L")).
    + lia.
    + by vm_compute.
    + by vm_compute.
    + by vm_compute.
    + reflexivity.
    + reflexivity.
  - apply (proj2 (proj2 (proj2 (proj2 (sort_group_order
             [row "PFOS" (Some 2020) (Some (-5)%Q) "ng/L";
              row "PFOS" (Some 2020) None "ng/L"])))) 0%nat 1%nat
             (row "PFOS" (Some 2020) None "ng/L")
             (row "PFOS" (Some 2020) (Some (-5)%Q) "ng/L")).
    + lia.
    + by vm_compute.
    + by vm_compute.
    + by vm_compute.
    + reflexivity.
    + reflexivity.
    + reflexivity.
Defined.

(** C7 as stated fails: with a year below -1 in the group, the row whose
    year is missing is listed first, not last. *)
Lemma sort_group_missing_year_counterexample :
  sort_group [row "PFOS" (Some (-999)) (Some 5%Q) "ng/L";
              row "PFOS" None (Some 5%Q) "ng/L"]
  = [row "PFOS" None (Some 5%Q) "ng/L";
     row "PFOS" (Some (-999)) (Some 5%Q) "ng/L"].
Proof. by vm_compute. Qed.

(** ** The priority ranking *)

Lemma priority_rank_unlisted (l : list (Z * string)) (m : gmap string Z) (p : string) :
  p ∉ l.*2 ->
  foldl (fun m ip => <[ip.2 := ip.1]> m) m l !! p = m !! p.
Proof.
  revert m. induction l as [|[i q] l IH]; intros m Hp; simpl; [done|].
  simpl in Hp. apply not_elem_of_cons in Hp as [Hpq Hp].
  rewrite IH by done. by rewrite lookup_insert_ne.
Qed.

Lemma priority_rank_listed (i : nat) (p : string) :
  pfas_priority !! i = Some p -> priority_rank !! p = Some (Z.of_nat i).
Proof.
  intros Hi.
  do 15 (destruct i as [|i]; [injection Hi as <-; by vm_compute|]).
  done.
Qed.

Lemma pfas_rank_listed (r : Row) :
  PFAS r ∈ pfas_priority -> 0 <= pfas_rank r < 15.
Proof.
  intros Hin. apply list_elem_of_lookup in Hin as [i Hi].
  unfold pfas_rank. rewrite (priority_rank_listed _ _ Hi). simpl.
  apply lookup_lt_Some in Hi. change (length pfas_priority) with 15%nat in Hi. lia.
Qed.

Lemma pfas_rank_unlisted (r : Row) :
  PFAS r ∉ pfas_priority -> pfas_rank r = default_rank.
Proof.
  intros Hout. unfold pfas_rank, priority_rank.
  rewrite priority_rank_unlisted; [done|]. exact Hout.
Qed.

(** C9. A substance of the fifteen-element priority list has its index in
    the list as rank, any other substance has rank 9999, above every index;
    so in a sorted group every listed substance comes before every unlisted
    one, and the sorting leaves no row out. *)
Theorem priority_rank_order :
  length pfas_priority = 15%nat
  /\ (forall i p r, pfas_priority !! i = Some p -> PFAS r = p ->
        pfas_rank r = Z.of_nat i)
  /\ (forall r, PFAS r ∉ pfas_priority -> pfas_rank r = 9999)
  /\ (forall i p, pfas_priority !! i = Some p -> Z.of_nat i < 9999)
  /\ (forall g i j a b,
        sort_group g !! i = Some a -> sort_group g !! j = Some b ->
        PFAS a ∈ pfas_priority -> PFAS b ∉ pfas_priority -> (i < j)%nat)
  /\ (forall g, sort_group g ≡ₚ g).
Proof.
  split; [done|]. split.
  { intros i p r Hi Hp. unfold pfas_rank.
    by rewrite Hp, (priority_rank_listed _ _ Hi). }
  split; [apply pfas_rank_unlisted|]. split.
  { intros i p Hi. apply lookup_lt_Some in Hi.
    change (length pfas_priority) with 15%nat in Hi. lia. }
  split; [|intros g; apply sort_by_Permutation].
  intros g i j a b Hi Hj Ha Hb.
  pose proof (pfas_rank_listed _ Ha) as Hra.
  pose proof (pfas_rank_unlisted _ Hb) as Hrb. unfold default_rank in Hrb.
  destruct (Nat.lt_trichotomy i j) as [?|[->|Hji]]; [done| |].
  - rewrite Hi in Hj. injection Hj as ->. done.
  - pose proof (StronglySorted_lookup _ _ _ _ _ _ (sort_group_sorted g) Hji Hj Hi)
      as Hle.
    unfold map_le in Hle. lia.
Qed.

Lemma priority_rank_order_witness :
  pfas_rank (row "PFOA" (Some 2020) (Some 3%Q) "µg/L") = 1
  /\ pfas_rank (row "PFBA" (Some 2020) (Some 4%Q) "ng/L") = 9999
  /\ 14 < 9999
  /\ (0 < 2)%nat.
Proof.
  pose proof priority_rank_order as (_ & Hrank & Hdefault & Hbelow & Hbefore & _).
  split; [|split; [|split]].
  - apply (Hrank 1%nat "PFOA"); reflexivity.
  - apply Hdefault. apply (bool_decide_unpack _). by vm_compute.
  - apply (Hbelow 14%nat "HFPO-DA"). reflexivity.
  - apply (Hbefore [row "6:2 FTS" (Some 2021) (Some 9%Q) "ng/L";
                    row "PFBA" (Some 2020) (Some 4%Q) "ng/L";
                    row "PFOA" (Some 2020) (Some 3%Q) "µg/L"]
                   0%nat 2%nat
                   (row "PFOA" (Some 2020) (Some 3%Q) "µg/L")
                   (row "PFBA" (Some 2020) (Some 4%Q) "ng/L")).
    + by vm_compute.
    + by vm_compute.
    + apply (bool_decide_unpack _). by vm_compute.
    + apply (bool_decide_unpack _). by vm_compute.
Defined.

(** ** The detail listing of a marker *)

Lemma more_note_text (tmp : list Row) :
  (max_rows < length tmp)%nat ->
  more_note tmp
  = "<div style='margin-top:6px; font-size:12px;'><i>Toont 80 van "
    +:+ pretty (length tmp)
    +:+ " metingen. Filter verder om minder te tonen.</i></div>".
Proof.
  intros Hlen. unfold more_note.
  rewrite (proj2 (Nat.ltb_lt _ _) Hlen). reflexivity.
Qed.

Lemma more_note_present (tmp : list Row) :
  more_note tmp <> "" <-> (max_rows < length tmp)%nat.
Proof.
  split.
  - intros Hnote. unfold more_note in Hnote.
    destruct (max_rows <? length tmp)%nat eqn:Hlt; [|done].
    by apply Nat.ltb_lt.
  - intros Hlen. rewrite more_note_text by done. discriminate.
Qed.

Lemma make_marker_detail `{TextLib} (key : group_key) (g : list Row) :
  let p := marker_popup (make_marker key g) in
  popup_n p = length g
  /\ popup_rows_html p = map row_html (take 80 (sort_group g))
  /\ length (popup_rows_html p) = Nat.min 80 (popup_n p)
  /\ (popup_more_note p <> "" <-> (80 < popup_n p)%nat)
  /\ ((80 < popup_n p)%nat ->
      popup_more_note p
      = "<div style='margin-top:6px; font-size:12px;'><i>Toont 80 van "
        +:+ pretty (popup_n p)
        +:+ " metingen. Filter verder om minder te tonen.</i></div>").
Proof.
  simpl. unfold show_rows, max_rows.
  assert (Hlen : length (sort_group g) = length g) by apply length_sort_by.
  split; [done|]. split; [done|].
  split; [by rewrite length_map, length_take, Hlen|].
  split.
  - rewrite more_note_present, Hlen. done.
  - intros Hgt. rewrite more_note_text by (rewrite Hlen; exact Hgt).
    by rewrite Hlen.
Qed.

(** C2, as the code has it.  Every marker of [make_map] is the marker of
    one location group.  Its popup lists the first 80 rows of the sorted
    group and never more; it carries a note exactly when the group has more
    than 80 rows, and the note names the cap and the total number of rows
    of the group: [Toont 80 van N metingen]. *)
Theorem make_map_detail_cap `{TextLib}
    (map_df : list Row) (kaarttype : Kaarttype) (m : Marker) :
  m ∈ map_markers (make_map map_df kaarttype) ->
  exists key g,
    (key, g) ∈ location_groups map_df
    /\ m = make_marker key g
    /\ let p := marker_popup m in
       popup_n p = length g
       /\ popup_rows_html p = map row_html (take 80 (sort_group g))
       /\ (length (popup_rows_html p) <= 80)%nat
       /\ length (popup_rows_html p) = Nat.min 80 (popup_n p)
       /\ (popup_more_note p <> "" <-> (80 < popup_n p)%nat)
       /\ ((80 < popup_n p)%nat ->
           popup_more_note p
           = "<div style='margin-top:6px; font-size:12px;'><i>Toont 80 van "
             +:+ pretty (popup_n p)
             +:+ " metingen. Filter verder om minder te tonen.</i></div>").
Proof.
  unfold make_map. cbn [map_markers]. intros Hm.
  apply list_elem_of_fmap in Hm as ([key g] & -> & Hkg).
  cbv beta. cbn [fst snd].
  exists key, g. split; [done|]. split; [done|].
  pose proof (make_marker_detail key g) as Hd. cbv zeta in Hd |- *.
  destruct Hd as (Hn & Hrows & Hlen & Hnote & Htext).
  split; [exact Hn|]. split; [exact Hrows|]. split; [rewrite Hlen; lia|].
  split; [exact Hlen|]. split; [exact Hnote|exact Htext].
Qed.

Lemma make_map_detail_cap_witness :
  exists m,
    m ∈ map_markers
          (make_map (H := AsciiText.lib)
             (replicate 100 (row "PFOS" (Some 2020) (Some 5%Q) "ng/L")) Normaal)
    /\ popup_more_note (marker_popup m)
       = "<div style='margin-top:6px; font-size:12px;'><i>Toont 80 van 100 metingen. Filter verder om minder te tonen.</i></div>".
Proof.
  assert (Hm : exists m,
             map_markers
               (make_map (H := AsciiText.lib)
                  (replicate 100 (row "PFOS" (Some 2020) (Some 5%Q) "ng/L"))
                  Normaal) = [m]).
  { vm_compute. eexists. reflexivity. }
  destruct Hm as [m Hm]. exists m.
  assert (Hin : m ∈ map_markers
                      (make_map (H := AsciiText.lib)
                         (replicate 100 (row "PFOS" (Some 2020) (Some 5%Q) "ng/L"))
                         Normaal)).
  { rewrite Hm. apply list_elem_of_here. }
  split; [exact Hin|].
  destruct (make_map_detail_cap (H := AsciiText.lib) _ _ _ Hin)
    as (key & g & _ & _ & Hn & _ & _ & _ & _ & Htext).
  assert (Hcount : popup_n (marker_popup m) = 100%nat).
  { vm_compute in Hm. injection Hm as <-. reflexivity. }
  rewrite Htext; rewrite Hcount; [reflexivity|lia].
Defined.

(** C2 as stated fails on its last part: for a group of 100 rows the note
    reads 80 of 100; the excess, 20, is not written in it. *)
Lemma more_note_excess_counterexample :
  let tmp := sort_group (replicate 100 (row "PFOS" (Some 2020) (Some 5%Q) "ng/L")) in
  more_note tmp
  = "<div style='margin-top:6px; font-size:12px;'><i>Toont 80 van 100 metingen. Filter verder om minder te tonen.</i></div>"
  /\ occurs (pretty (length tmp - 80)%nat) (more_note tmp) = false.
Proof. by vm_compute. Qed.

(** ** Grouping *)

Section groupby.
Context {A K : Type} (eqb leb : K -> K -> bool) (key : A -> K).
Context (Heqb : forall a b, eqb a b = true <-> a = b).

Lemma elem_of_nub_by (l : list K) (k : K) : k ∈ nub_by eqb l <-> k ∈ l.
Proof.
  induction l as [|x l IH]; simpl; [done|].
  rewrite !elem_of_cons, list_elem_of_filter, IH.
  split.
  - intros [->|[_ Hk]]; [by left|by right].
  - intros [->|Hk]; [by left|].
    destruct (eqb x k) eqn:Hx.
    + left. symmetry. by apply Heqb.
    + right. split; done.
Qed.

Lemma elem_of_groupby (df : list A) (k : K) (g : list A) :
  (k, g) ∈ groupby eqb leb key df
  <-> k ∈ map key df /\ g = filter (fun r => eqb k (key r)) df.
Proof.
  unfold groupby. rewrite list_elem_of_fmap. split.
  - intros (k' & Heq & Hk). injection Heq as -> ->. split; [|done].
    rewrite sort_by_Permutation in Hk. by apply (proj1 (elem_of_nub_by _ _)).
  - intros [Hk ->]. exists k. split; [done|].
    rewrite sort_by_Permutation. by apply (proj2 (elem_of_nub_by _ _)).
Qed.

End groupby.

(** ** The validity filter *)

Lemma combo_eqb_eq (a b : combo) : combo_eqb a b = true <-> a = b.
Proof. unfold combo_eqb. apply bool_decide_eq_true. Qed.

Lemma omap_id_fmap {A B} (f : A -> option B) (l : list A) :
  omap id (map f l) = omap f l.
Proof.
  induction l as [|x l IH]; [done|]. csimpl.
  destruct (f x); csimpl; [|done]. by f_equal.
Qed.

Lemma nunique_size (col : list (option Z)) :
  nunique col = size (list_to_set (omap id col) : gset Z).
Proof.
  unfold nunique. rewrite <- (size_list_to_set (C := gset Z) (remove_dups _))
    by apply NoDup_remove_dups.
  f_equal. apply set_eq. intros y.
  by rewrite !elem_of_list_to_set, elem_of_remove_dups.
Qed.

Lemma distinct_years_group (k : combo) (subset : list Row) :
  distinct_years k subset
  = list_to_set (omap Jaar (filter (fun r => combo_eqb k (combo_of r)) subset)).
Proof.
  unfold distinct_years. f_equal.
  induction subset as [|r l IH]; [done|]. csimpl.
  rewrite filter_cons. unfold combo_eqb at 1.
  destruct (decide (combo_of r = k)) as [Heq|Hne].
  - rewrite decide_True by (apply bool_decide_pack; done). csimpl.
    by destruct (Jaar r); rewrite IH.
  - rewrite decide_False; [done|].
    intros Hk. apply bool_decide_unpack in Hk. by apply Hne.
Qed.

Lemma elem_of_distinct_years (k : combo) (subset : list Row) (y : Z) :
  y ∈ distinct_years k subset
  <-> exists r, r ∈ subset /\ combo_of r = k /\ Jaar r = Some y.
Proof.
  unfold distinct_years. rewrite elem_of_list_to_set, list_elem_of_omap.
  split.
  - intros (r & Hr & Hy). exists r. destruct (decide _); naive_solver.
  - intros (r & Hr & Hk & Hy). exists r. split; [done|].
    by rewrite decide_True.
Qed.

Lemma elem_of_valid_groups (subset : list Row) (k : combo) (n : nat) :
  (k, n) ∈ valid_groups subset
  <-> k ∈ map combo_of subset
      /\ n = size (distinct_years k subset) /\ (2 <= n)%nat.
Proof.
  unfold valid_groups. rewrite list_elem_of_filter, list_elem_of_fmap.
  assert (Hle : forall m : nat, Is_true (2 <=? m)%nat <-> (2 <= m)%nat).
  { intros m. by rewrite Is_true_true, Nat.leb_le. }
  split.
  - intros [Hn ([k' g] & Heq & Hg)]. simpl in Heq. injection Heq as -> ->.
    apply Hle in Hn.
    apply (elem_of_groupby _ _ _ combo_eqb_eq) in Hg as [Hk ->].
    split; [done|]. split; [|done].
    by rewrite nunique_size, omap_id_fmap, distinct_years_group.
  - intros (Hk & -> & Hn). split; [by apply Hle|].
    exists (k, filter (fun r => combo_eqb k (combo_of r)) subset). split.
    + simpl. by rewrite nunique_size, omap_id_fmap, distinct_years_group.
    + by apply (elem_of_groupby _ _ _ combo_eqb_eq).
Qed.

(** C6. A combination is in the valid-combination set exactly when it has
    at least two distinct non-missing years in the subset, and the set
    reports that number; a row without a year adds nothing to it. *)
Theorem valid_groups_distinct_years (subset : list Row) (k : combo) :
  (k ∈ (valid_groups subset).*1 <-> (2 <= size (distinct_years k subset))%nat)
  /\ (forall n, (k, n) ∈ valid_groups subset -> n = size (distinct_years k subset))
  /\ (forall y, y ∈ distinct_years k subset
        <-> exists r, r ∈ subset /\ combo_of r = k /\ Jaar r = Some y)
  /\ (forall l1 l2 r, subset = l1 ++ r :: l2 -> Jaar r = None ->
        distinct_years k (l1 ++ l2) = distinct_years k subset).
Proof.
  split; [|split; [|split]].
  - rewrite list_elem_of_fmap. split.
    + intros ([k' n] & -> & Hkn). simpl.
      apply elem_of_valid_groups in Hkn as (_ & -> & Hn). done.
    + intros Hsize. exists (k, size (distinct_years k subset)). split; [done|].
      apply elem_of_valid_groups. split; [|done].
      destruct (set_choose_L (distinct_years k subset)) as [y Hy].
      { intros Hempty. rewrite Hempty, size_empty in Hsize. lia. }
      apply elem_of_distinct_years in Hy as (r & Hr & <- & _).
      apply list_elem_of_fmap. by exists r.
  - intros n Hkn. by apply elem_of_valid_groups in Hkn as (_ & -> & _).
  - apply elem_of_distinct_years.
  - intros l1 l2 r -> Hr. unfold distinct_years.
    rewrite !omap_app. csimpl. rewrite Hr. by destruct (decide _).
Qed.

Lemma valid_groups_distinct_years_witness :
  ("PFOS", "LocA", "water", "RWS") ∈ (valid_groups (rows example_frame)).*1
  /\ distinct_years ("PFOA", "LocA", "water", "RWS") (rows example_frame ++ [])
     = distinct_years ("PFOA", "LocA", "water", "RWS")
         (rows example_frame ++ [row "PFOA" None (Some 4%Q) "ng/L"]).
Proof.
  split.
  - apply (proj1 (valid_groups_distinct_years _ _)).
    by vm_compute.
  - apply (proj2 (proj2 (proj2 (valid_groups_distinct_years
             (rows example_frame ++ [row "PFOA" None (Some 4%Q) "ng/L"])
             ("PFOA", "LocA", "water", "RWS"))))
             (rows example_frame) [] (row "PFOA" None (Some 4%Q) "ng/L"));
      reflexivity.
Defined.

(** ** The store *)

Lemma store_lookup_new (s : store) (f : Frame) : (s ++ [f]) !!! length s = f.
Proof. by apply list_lookup_total_middle. Qed.

Lemma store_lookup_new2 (s : store) (f g : Frame) :
  (s ++ [f; g]) !!! S (length s) = g.
Proof.
  change (s ++ [f; g]) with (s ++ [f] ++ [g]). rewrite app_assoc.
  apply list_lookup_total_middle. rewrite length_app. simpl. lia.
Qed.

Lemma store_lookup_old (s new : store) (r : ref) :
  (r < length s)%nat -> (s ++ new) !!! r = s !!! r.
Proof. intros Hr. by apply lookup_total_app_l. Qed.

Lemma store_write_new2 (s : store) (f g h : Frame) :
  <[S (length s) := h]> (s ++ [f; g]) = s ++ [f; h].
Proof.
  rewrite insert_app_r_alt by lia.
  replace (S (length s) - length s)%nat with 1%nat by lia. done.
Qed.

Ltac run_frames :=
  unfold copy, getitem, setitem_plot, loc_setitem_plot;
  unfold bind, read, alloc, write, ret;
  cbv beta iota zeta;
  repeat first
    [ rewrite store_lookup_new
    | rewrite store_lookup_new2
    | rewrite store_write_new2
    | rewrite length_app, Nat.add_1_r
    | rewrite <- app_assoc
    | progress cbn [app length rows Waarde_plot default fst snd] ].

Section chart_runs.
Context `{TextLib}.

Lemma bar_plot_df_run (df : ref) (s : store) :
  bar_plot_df df s
  = (S (length s), s ++ [s !!! df; bar_frame (s !!! df)]).
Proof.
  unfold bar_plot_df. run_frames.
  rewrite loc_get_filter. unfold bar_frame, norm_column.
  destruct (existsb id _); run_frames; done.
Qed.

Lemma lijn_plot_df_run (subset : ref) (sel : Selection) (s : store) :
  exists picked,
    lijn_plot_df subset sel s
    = (S (length s), s ++ [picked; lijn_frame sel (s !!! subset)]).
Proof.
  eexists. unfold lijn_plot_df. run_frames.
  rewrite loc_get_filter. unfold lijn_frame, norm_column. done.
Qed.

Lemma length_loc_set {A} (mask : list bool) (vals col : list A) :
  length (loc_set mask vals col) = length col.
Proof.
  revert vals col. induction mask as [|b mask IH]; intros vals [|x col];
    simpl; try done.
  destruct b; [destruct vals|]; simpl; by rewrite IH.
Qed.

Lemma norm_column_lookup (rs : list Row) (i : nat) (r : Row) :
  rs !! i = Some r ->
  norm_column rs !! i
  = Some (if is_ug (Eenheid r) then fmul 1000 (Waarde r) else Waarde r).
Proof.
  intros Hi. unfold norm_column.
  apply (loc_set_loc_get_lookup (fmul 1000)); by rewrite list_lookup_fmap, Hi.
Qed.

Lemma is_ug_spec (eenheid : string) :
  is_ug eenheid = true <-> microgram_label eenheid.
Proof.
  unfold is_ug, microgram_label.
  rewrite bool_decide_eq_true, !elem_of_cons, elem_of_nil. tauto.
Qed.

Lemma existsb_map_false {A} (p : A -> bool) (l : list A) (i : nat) (x : A) :
  existsb id (map p l) = false -> l !! i = Some x -> p x = false.
Proof.
  revert i. induction l as [|y l IH]; intros i Hex Hi; [done|].
  simpl in Hex. apply orb_false_iff in Hex as [Hy Hl].
  destruct i as [|i]; simpl in Hi.
  - by injection Hi as <-.
  - by apply (IH i).
Qed.

(** The three readings of the derived value of one row. *)
Lemma plot_value_cases (r : Row) :
  let v := if is_ug (Eenheid r) then fmul 1000 (Waarde r) else Waarde r in
  (microgram_label (Eenheid r) -> v = fmul 1000 (Waarde r))
  /\ (~ microgram_label (Eenheid r) -> v = Waarde r)
  /\ (forall q, Waarde r = Some q -> ~ (q == 0)%Q ->
        (v = Some (q * 1000)%Q <-> microgram_label (Eenheid r))).
Proof.
  simpl. destruct (is_ug (Eenheid r)) eqn:Hug.
  - apply is_ug_spec in Hug. split; [done|]. split; [done|].
    intros q Hq _. rewrite Hq. done.
  - assert (Hno : ~ microgram_label (Eenheid r)).
    { rewrite <- is_ug_spec, Hug. done. }
    split; [done|]. split; [done|].
    intros q Hq Hq0. split; [|done].
    intros Hv. exfalso. rewrite Hq in Hv. destruct q as [n d].
    unfold Qmult in Hv. simpl in Hv. injection Hv as Hn _.
    apply Hq0. unfold Qeq. simpl. lia.
Qed.

Lemma bar_frame_normalised (f : Frame) : plot_normalised (bar_frame f).
Proof.
  unfold plot_normalised, bar_frame. simpl.
  set (rs := filter valid_locatie (rows f)).
  eexists. split; [done|]. split.
  - destruct (existsb id _); [|by rewrite length_map].
    unfold norm_column. by rewrite length_loc_set, length_map.
  - intros i r Hi.
    exists (if is_ug (Eenheid r) then fmul 1000 (Waarde r) else Waarde r).
    split; [|apply plot_value_cases].
    destruct (existsb id _) eqn:Hex; [by apply norm_column_lookup|].
    rewrite (existsb_map_false (fun r => is_ug (Eenheid r)) _ _ _ Hex Hi).
    by rewrite list_lookup_fmap, Hi.
Qed.

Lemma lijn_frame_normalised (sel : Selection) (f : Frame) :
  plot_normalised (lijn_frame sel f).
Proof.
  unfold plot_normalised, lijn_frame. simpl.
  eexists. split; [done|]. split.
  - unfold norm_column. by rewrite length_loc_set, length_map.
  - intros i r Hi.
    exists (if is_ug (Eenheid r) then fmul 1000 (Waarde r) else Waarde r).
    split; [by apply norm_column_lookup|apply plot_value_cases].
Qed.

End chart_runs.

(** C4. In the table of the bar chart and in the table of the time series
    alike, the derived value [Waarde_plot] of every row is a thousand times
    the value when the lower-cased unit label is [ug/l] or [µg/l], and the
    value itself under every other label; for a value other than zero the
    derived value is the thousandfold exactly under those two labels. *)
Theorem unit_normalisation `{TextLib} (s : store) (df : ref) (sel : Selection) :
  (let (plot_df, s') := bar_plot_df df s in
   rows (s' !!! plot_df) = filter valid_locatie (rows (s !!! df))
   /\ plot_normalised (s' !!! plot_df))
  /\ (let (lijn_df, s') := lijn_plot_df df sel s in
      rows (s' !!! lijn_df) = filter (selected sel) (rows (s !!! df))
      /\ plot_normalised (s' !!! lijn_df)).
Proof.
  split.
  - rewrite bar_plot_df_run, store_lookup_new2.
    split; [done|apply bar_frame_normalised].
  - destruct (lijn_plot_df_run df sel s) as [picked ->].
    rewrite store_lookup_new2.
    split; [done|apply lijn_frame_normalised].
Qed.

Lemma unit_normalisation_witness :
  let (plot_df, s') :=
    bar_plot_df (H := AsciiText.lib) 0%nat
      [{| rows := [row "PFOA" (Some 2020) (Some 3%Q) "µg/L";
                   row "PFOS" (Some 2019) (Some 5%Q) "ng/L"];
          Waarde_plot := None |}] in
  exists wp v, Waarde_plot (s' !!! plot_df) = Some wp
               /\ wp !! 0%nat = Some v /\ v = Some (3 * 1000)%Q.
Proof.
  pose proof (unit_normalisation (H := AsciiText.lib)
    [{| rows := [row "PFOA" (Some 2020) (Some 3%Q) "µg/L";
                 row "PFOS" (Some 2019) (Some 5%Q) "ng/L"];
        Waarde_plot := None |}] 0%nat
    {| gekozen_pfas := "PFOA"; gekozen_locatie := "LocA";
       gekozen_medium := "water"; gekozen_bron := "RWS" |}) as [Hbar _].
  destruct (bar_plot_df _ _) as [plot_df s'].
  destruct Hbar as (Hrows & wp & Hwp & _ & Hcol).
  destruct (Hcol 0%nat (row "PFOA" (Some 2020) (Some 3%Q) "µg/L"))
    as (v & Hv & Hug & _).
  { rewrite Hrows. by vm_compute. }
  exists wp, v. split; [done|]. split; [done|].
  apply Hug. right. by vm_compute.
Defined.

(** ** The charts leave their argument alone *)

Section chart_frames.
Context `{TextLib} `{SeriesSort}.

Lemma make_bar_by_location_run (df : ref) (max_locations : nat) (s : store) :
  exists new,
    make_bar_by_location df max_locations s
    = (bar_heights max_locations (s !!! df), s ++ new).
Proof.
  unfold make_bar_by_location. unfold bind at 1.
  rewrite bar_plot_df_run. unfold bind at 1. unfold read at 1.
  rewrite store_lookup_new2.
  set (s1 := s ++ [s !!! df; bar_frame (s !!! df)]).
  run_frames. subst s1. rewrite !store_lookup_new2, <- app_assoc.
  eexists. reflexivity.
Qed.

Lemma lijn_series_run (subset : ref) (sel : Selection) (s : store) :
  exists new,
    lijn_series subset sel s = (lijn_medians sel (s !!! subset), s ++ new).
Proof.
  unfold lijn_series. unfold bind at 1.
  destruct (lijn_plot_df_run subset sel s) as [picked ->].
  unfold bind, read, ret. rewrite store_lookup_new2. eexists. reflexivity.
Qed.

End chart_frames.

Section export.
Context `{TextLib}.

Lemma to_csv_raw (f : Frame) :
  Waarde_plot f = None ->
  to_csv f
  = csv_lines
      ([ "Locatie"; "PFAS"; "Bron"; "Medium"; "Sampletype"; "Eenheid"; "Jaar";
         "Waarde"; "Latitude"; "Longitude"; "LOQ_flag" ]
       :: map csv_raw_record (rows f)).
Proof.
  intros Hplot. unfold to_csv, csv_lines, csv_header. rewrite Hplot.
  f_equal. f_equal. apply list_eq. intros i.
  rewrite list_lookup_imap, list_lookup_fmap.
  destruct (rows f !! i); simpl; [|done].
  unfold csv_record. rewrite Hplot. done.
Qed.

End export.

(** C5. The bar chart and the time series write to tables of their own:
    every table the store held before, the filtered subset among them, is
    the same afterwards, with its [Waarde] and [Eenheid] columns and without
    a derived column; the export taken after either chart is the export of
    the subset as it was, which for a subset without derived column is the
    header and the loaded fields of each row. *)
Theorem normalisation_is_view_only `{TextLib} `{SeriesSort}
    (s : store) (subset : ref) (max_locations : nat) (sel : Selection) :
  (subset < length s)%nat ->
  let s_bar := (make_bar_by_location subset max_locations s).2 in
  let s_lijn := (lijn_series subset sel s).2 in
  (forall r, (r < length s)%nat -> s_bar !! r = s !! r /\ s_lijn !! r = s !! r)
  /\ s_bar !!! subset = s !!! subset
  /\ s_lijn !!! subset = s !!! subset
  /\ (download_csv subset s_bar).1 = to_csv (s !!! subset)
  /\ (download_csv subset s_lijn).1 = to_csv (s !!! subset)
  /\ (Waarde_plot (s !!! subset) = None ->
      to_csv (s !!! subset)
      = csv_lines
          ([ "Locatie"; "PFAS"; "Bron"; "Medium"; "Sampletype"; "Eenheid";
             "Jaar"; "Waarde"; "Latitude"; "Longitude"; "LOQ_flag" ]
           :: map csv_raw_record (rows (s !!! subset)))).
Proof.
  intros Hsub.
  destruct (make_bar_by_location_run subset max_locations s) as [new1 ->].
  destruct (lijn_series_run subset sel s) as [new2 ->].
  unfold download_csv, bind, read, ret. cbn [fst snd].
  split; [|split; [|split; [|split; [|split]]]].
  - intros r Hr. by rewrite !lookup_app_l.
  - by apply store_lookup_old.
  - by apply store_lookup_old.
  - by rewrite store_lookup_old.
  - by rewrite store_lookup_old.
  - apply to_csv_raw.
Qed.

Lemma normalisation_is_view_only_witness :
  (make_bar_by_location (H := AsciiText.lib) (H0 := InsertionSort.lib)
     0%nat 25 [example_frame]).2 !!! 0%nat
  = example_frame
  /\ (download_csv (H := AsciiText.lib) 0%nat
        (lijn_series (H := AsciiText.lib) 0%nat example_selection
           [example_frame]).2).1
     = to_csv (H := AsciiText.lib) example_frame.
Proof.
  pose proof (normalisation_is_view_only (H := AsciiText.lib) (H0 := InsertionSort.lib)
                [example_frame] 0%nat 25 example_selection) as Hframe.
  destruct Hframe as (_ & Hbar & _ & _ & Hcsv & _).
  - simpl. lia.
  - split; [exact Hbar|exact Hcsv].
Defined.

(** The export of the example keeps the value 3 under its label and holds
    no 3000. *)
Example export_keeps_raw_value :
  let csv := (download_csv (H := AsciiText.lib) 0%nat
                (make_bar_by_location (H := AsciiText.lib) (H0 := InsertionSort.lib) 0%nat 25
                   [example_frame]).2).1 in
  occurs "PFOA,RWS,water,monster,µg/L,2020,3.0," csv = true
  /\ occurs "3000" csv = false
  /\ occurs "Waarde_plot" csv = false.
Proof. by vm_compute. Qed.

(** ** The script *)

Section script_runs.
Context `{TextLib} `{SeriesSort}.

Lemma make_subset_run (working_df : ref) (s : store) :
  make_subset working_df s
  = (S (length s), s ++ [s !!! working_df; subset_frame (s !!! working_df)]).
Proof. unfold make_subset. run_frames. done. Qed.

Lemma rows_subset_frame (f : Frame) :
  rows (subset_frame f) = filter (fun r => is_Some (Waarde r)) (rows f).
Proof.
  unfold subset_frame, select. simpl. rewrite loc_get_filter.
  induction (rows f) as [|r l IH]; [done|].
  rewrite !filter_cons, IH.
  destruct (decide (is_Some (Waarde r))) as [Hv|Hv].
  - by rewrite decide_True by (by apply bool_decide_pack).
  - rewrite decide_False; [done|]. intros Hb. by apply bool_decide_unpack in Hb.
Qed.

Lemma render_kaart_run (subset : ref) (kaarttype : Kaarttype) (s : store) :
  exists new,
    render_kaart subset kaarttype s = (kaart_view kaarttype (s !!! subset), s ++ new).
Proof.
  unfold render_kaart, kaart_view. unfold bind at 1. unfold read at 1.
  destruct (rows (s !!! subset)) as [|r0 rs] eqn:Hrows.
  { exists []. by rewrite app_nil_r. }
  run_frames. rewrite Hrows.
  change (map (fun r => bool_decide (is_Some (Latitude r))
                        && bool_decide (is_Some (Longitude r))) (r0 :: rs))
    with (map has_coords (r0 :: rs)).
  rewrite loc_get_filter.
  destruct (filter has_coords (r0 :: rs)); eexists; reflexivity.
Qed.

Lemma render_lijn_run (subset : ref) (sel : Selection) (s : store) :
  exists new,
    render_lijn subset sel s = (lijn_view sel (s !!! subset), s ++ new).
Proof.
  unfold render_lijn, lijn_view. unfold bind at 1. unfold read at 1.
  destruct (rows (s !!! subset)).
  { exists []. by rewrite app_nil_r. }
  destruct (valid_groups _).
  { exists []. by rewrite app_nil_r. }
  unfold bind. destruct (lijn_series_run subset sel s) as [new ->].
  by exists new.
Qed.

Lemma render_staaf_run (subset : ref) (s : store) :
  exists new, render_staaf subset s = (staaf_view (s !!! subset), s ++ new).
Proof.
  unfold render_staaf, staaf_view. unfold bind at 1. unfold read at 1.
  destruct (remove_dups _) as [|gekozen [|? ?]].
  - exists []. by rewrite app_nil_r.
  - unfold bind. destruct (make_bar_by_location_run subset 25 s) as [new ->].
    by exists new.
  - exists []. by rewrite app_nil_r.
Qed.

Lemma store_lookup_subset (s new : store) (f g : Frame) :
  ((s ++ [f; g]) ++ new) !!! S (length s) = g.
Proof.
  rewrite store_lookup_old; [apply store_lookup_new2|].
  rewrite length_app. simpl. lia.
Qed.

Lemma dashboard_run (working_df : ref) (kaarttype : Kaarttype) (sel : Selection)
    (s : store) :
  (dashboard working_df kaarttype sel s).1
  = views_of kaarttype sel (subset_frame (s !!! working_df)).
Proof.
  unfold dashboard. unfold bind at 1. rewrite make_subset_run.
  set (s1 := s ++ [s !!! working_df; subset_frame (s !!! working_df)]).
  assert (Hsub : forall new, (s1 ++ new) !!! S (length s)
                             = subset_frame (s !!! working_df)).
  { intros new. apply store_lookup_subset. }
  pose proof (Hsub []) as Hsub0. rewrite app_nil_r in Hsub0.
  unfold bind at 1. unfold read at 1.
  unfold bind at 1.
  destruct (render_kaart_run (S (length s)) kaarttype s1) as [new1 ->].
  unfold bind at 1. unfold read at 1.
  unfold bind at 1. unfold download_csv, bind at 1, read at 1, ret at 1.
  unfold bind at 1.
  destruct (render_lijn_run (S (length s)) sel (s1 ++ new1)) as [new2 ->].
  unfold bind at 1. rewrite <- app_assoc.
  destruct (render_staaf_run (S (length s)) (s1 ++ new1 ++ new2)) as [new3 ->].
  unfold ret. cbn [fst]. rewrite !Hsub0, !Hsub. reflexivity.
Qed.

End script_runs.

(** C10. Every view of the script is computed from the filtered subset,
    and the subset holds exactly the rows of the sidebar's table that have
    a value: the table shown, the row count and the export are those of the
    rows with a value, and two tables that agree on their rows with a value
    give the same map, table, charts, counts and export. *)
Theorem dashboard_drops_missing_values `{TextLib} `{SeriesSort}
    (s : store) (working_df : ref) (kaarttype : Kaarttype) (sel : Selection) :
  let v := (dashboard working_df kaarttype sel s).1 in
  let kept := filter (fun r => is_Some (Waarde r)) (rows (s !!! working_df)) in
  v = views_of kaarttype sel (subset_frame (s !!! working_df))
  /\ rows (subset_frame (s !!! working_df)) = kept
  /\ rows (tab_tabel v) = kept
  /\ Forall (fun r => is_Some (Waarde r)) (rows (tab_tabel v))
  /\ n_rows v = length kept
  /\ tab_tabel_csv v = to_csv (subset_frame (s !!! working_df))
  /\ (forall s' working_df',
        subset_frame (s' !!! working_df') = subset_frame (s !!! working_df) ->
        (dashboard working_df' kaarttype sel s').1 = v).
Proof.
  cbv zeta. rewrite dashboard_run. cbn [views_of tab_tabel n_rows tab_tabel_csv].
  rewrite rows_subset_frame.
  split; [done|]. split; [done|]. split; [done|]. split.
  { apply Forall_forall. intros r Hr. by apply list_elem_of_filter in Hr as [? _]. }
  split; [done|]. split; [done|].
  intros s' working_df' Heq. by rewrite dashboard_run, Heq.
Qed.

Lemma dashboard_drops_missing_values_witness :
  (dashboard (H := AsciiText.lib) (H0 := InsertionSort.lib) 0%nat Normaal example_selection
     [{| rows := row "PFOS" (Some 2021) None "ng/L" :: rows example_frame;
         Waarde_plot := None |}]).1
  = (dashboard (H := AsciiText.lib) (H0 := InsertionSort.lib) 0%nat Normaal example_selection
       [example_frame]).1.
Proof.
  apply (proj2 (proj2 (proj2 (proj2 (proj2 (proj2
    (dashboard_drops_missing_values (H := AsciiText.lib) (H0 := InsertionSort.lib)
       [example_frame] 0%nat Normaal example_selection))))))).
  reflexivity.
Defined.

(** ** The end-to-end example of the specification *)

Example example_valid_groups :
  valid_groups (rows example_frame) = [(("PFOS", "LocA", "water", "RWS"), 2%nat)].
Proof. by vm_compute. Qed.

Example example_lijn_series :
  (lijn_series (H := AsciiText.lib) 0%nat example_selection [example_frame]).1
  = [(2019, Some 5%Q); (2020, Some 7%Q)].
Proof. by vm_compute. Qed.

Example example_bar_PFOA :
  (make_bar_by_location (H := AsciiText.lib) (H0 := InsertionSort.lib) 0%nat 25
     [{| rows := [row "PFOA" (Some 2020) (Some 3%Q) "µg/L"];
         Waarde_plot := None |}]).1
  = [("LocA", Some (3 * 1000)%Q)].
Proof. by vm_compute. Qed.

(** * Further properties *)

(** ** Grouping by a key compared up to an equivalence *)

Section groupby_equiv.
Context {A K : Type} (eqb leb : K -> K -> bool) (key : A -> K).
Context (Hrefl : forall a, eqb a a = true).
Context (Hsym : forall a b, eqb a b = true -> eqb b a = true).
Context (Htrans : forall a b c, eqb a b = true -> eqb b c = true -> eqb a c = true).

Lemma nub_by_sublist (l : list K) (k : K) : k ∈ nub_by eqb l -> k ∈ l.
Proof.
  revert k. induction l as [|x l IH]; intros k; simpl; [done|].
  rewrite !elem_of_cons, list_elem_of_filter.
  intros [->|[_ Hk]]; [by left|right; by apply IH].
Qed.

Lemma nub_by_covers (l : list K) (k : K) :
  k ∈ l -> exists k', k' ∈ nub_by eqb l /\ eqb k' k = true.
Proof.
  induction l as [|x l IH]; simpl; [by intros ?%elem_of_nil|].
  intros [->|Hk]%elem_of_cons.
  - exists x. split; [apply list_elem_of_here|apply Hrefl].
  - destruct (IH Hk) as (k' & Hk' & Heq).
    destruct (eqb x k') eqn:Hx.
    + exists x. split; [apply list_elem_of_here|]. by eapply Htrans.
    + exists k'. split; [|done]. apply list_elem_of_further.
      apply list_elem_of_filter. split; [|done]. by rewrite Hx.
Qed.

Lemma StronglySorted_filter {B} (R : B -> B -> Prop) (p : B -> bool) (l : list B) :
  StronglySorted R l -> StronglySorted R (filter p l).
Proof.
  induction 1 as [|x l Hs IH Hall]; [constructor|].
  rewrite filter_cons. destruct (decide (p x)); [|done].
  constructor; [done|]. apply Forall_forall. intros y Hy.
  apply list_elem_of_filter in Hy as [_ Hy].
  rewrite Forall_forall in Hall. by apply Hall.
Qed.

Lemma StronglySorted_Permutation {B} (R : B -> B -> Prop) (l l' : list B) :
  (forall a b, R a b -> R b a) ->
  l ≡ₚ l' -> StronglySorted R l -> StronglySorted R l'.
Proof.
  intros HR. induction 1 as [|x l l' Hp IH|x y l|l1 l2 l3 ? IH1 ? IH2];
    intros Hs.
  - done.
  - apply StronglySorted_inv in Hs as [Hs Hall].
    constructor; [by apply IH|]. by rewrite <- Hp.
  - apply StronglySorted_inv in Hs as [Hs Hy].
    apply StronglySorted_inv in Hs as [Hs Hx].
    apply Forall_cons in Hy as [Hyx Hy].
    constructor; [by constructor|]. constructor; [by apply HR|done].
  - by apply IH2, IH1.
Qed.

(** No two of the distinct keys are equivalent. *)
Lemma nub_by_distinct (l : list K) :
  StronglySorted (fun a b => eqb a b = false) (nub_by eqb l).
Proof.
  induction l as [|x l IH]; simpl; [constructor|].
  constructor; [by apply StronglySorted_filter|].
  apply Forall_forall. intros y Hy. apply list_elem_of_filter in Hy as [Hy _].
  by destruct (eqb x y).
Qed.

Lemma groupby_distinct (df : list A) :
  StronglySorted (fun a b => eqb a b = false) (map fst (groupby eqb leb key df)).
Proof.
  unfold groupby. rewrite map_map. simpl. rewrite map_id.
  eapply StronglySorted_Permutation; [|symmetry; apply sort_by_Permutation|
                                      apply nub_by_distinct].
  intros a b Hab. destruct (eqb b a) eqn:Hba; [|done].
  by rewrite (Hsym _ _ Hba) in Hab.
Qed.

(** The groups partition the rows: the sizes add up to the size of the
    table. *)
Lemma nub_by_group_sizes (l : list K) (xs : list A) :
  (forall x, x ∈ xs -> exists k, k ∈ l /\ eqb k (key x) = true) ->
  sum_list_with (fun k => length (filter (fun x => eqb k (key x)) xs)) (nub_by eqb l)
  = length xs.
Proof.
  revert xs. induction l as [|k l IH]; intros xs Hcov.
  - destruct xs as [|x xs]; [done|].
    destruct (Hcov x) as (? & []%elem_of_nil & _). apply list_elem_of_here.
  - cbn [nub_by sum_list_with].
    set (rest := filter (fun x => negb (eqb k (key x))) xs).
    assert (Hsplit : length xs
                     = (length (filter (fun x => eqb k (key x)) xs) + length rest)%nat).
    { subst rest. clear. induction xs as [|x xs IHxs]; [done|].
      rewrite !filter_cons. destruct (eqb k (key x)); simpl; lia. }
    rewrite Hsplit. f_equal.
    rewrite <- (IH rest).
    + clear IH Hsplit Hcov.
      induction (nub_by eqb l) as [|k' ks IHks]; [done|].
      rewrite filter_cons. destruct (decide _) as [Hk'|Hk'].
      * cbn [sum_list_with]. rewrite IHks. f_equal.
        subst rest. f_equal. clear IHks.
        induction xs as [|x xs IHxs]; [done|].
        rewrite !filter_cons.
        destruct (eqb k' (key x)) eqn:Hx; simpl.
        -- assert (eqb k (key x) = false) as ->.
           { destruct (eqb k (key x)) eqn:Hkx; [|done].
             exfalso. apply Is_true_true in Hk'.
             apply negb_true_iff in Hk'.
             rewrite (Htrans k (key x) k' Hkx (Hsym _ _ Hx)) in Hk'. done. }
           simpl. rewrite filter_cons. simpl. rewrite Hx. simpl. by rewrite IHxs.
        -- destruct (eqb k (key x)); simpl; [done|].
           rewrite filter_cons. simpl. rewrite Hx. simpl. done.
      * cbn [sum_list_with]. rewrite IHks.
        assert (filter (fun x => eqb k' (key x)) rest = []) as ->; [|done].
        subst rest. clear IHks.
        assert (Hkk : eqb k k' = true).
        { destruct (eqb k k') eqn:E; [done|]. exfalso. by apply Hk'. }
        induction xs as [|x xs IHxs]; [done|].
        rewrite filter_cons.
        destruct (eqb k (key x)) eqn:Hkx; simpl; [done|].
        rewrite filter_cons.
        destruct (eqb k' (key x)) eqn:Hx; simpl; [|done].
        rewrite (Htrans k k' (key x) Hkk Hx) in Hkx. done.
    + intros x Hx. subst rest. apply list_elem_of_filter in Hx as [Hnk Hx].
      destruct (Hcov x Hx) as (k0 & [->|Hk0]%elem_of_cons & Heq).
      * rewrite Heq in Hnk. done.
      * by exists k0.
Qed.

Lemma groupby_sizes (df : list A) :
  sum_list_with (fun kg => length kg.2) (groupby eqb leb key df) = length df.
Proof.
  unfold groupby.
  transitivity (sum_list_with
                  (fun k => length (filter (fun x => eqb k (key x)) df))
                  (sort_by leb (nub_by eqb (map key df)))).
  { induction (sort_by leb _) as [|k ks IH]; [done|].
    cbn [map sum_list_with]. by rewrite IH. }
  rewrite sort_by_Permutation. apply nub_by_group_sizes.
  intros x Hx. exists (key x). split; [|apply Hrefl].
  apply list_elem_of_fmap. by exists x.
Qed.

Lemma groupby_group (df : list A) (k : K) (g : list A) :
  (k, g) ∈ groupby eqb leb key df ->
  k ∈ map key df /\ g = filter (fun r => eqb k (key r)) df /\ g <> [].
Proof.
  unfold groupby. intros (k' & Heq & Hk)%list_elem_of_fmap.
  injection Heq as -> ->.
  rewrite sort_by_Permutation in Hk. apply nub_by_sublist in Hk.
  split; [done|]. split; [done|].
  apply list_elem_of_fmap in Hk as (r & -> & Hr).
  intros Hnil.
  assert (Hin : r ∈ filter (fun r0 => eqb (key r) (key r0)) df).
  { apply list_elem_of_filter. split; [|done]. by rewrite Hrefl. }
  rewrite Hnil in Hin. by apply elem_of_nil in Hin.
Qed.

End groupby_equiv.

(** ** The markers of the map *)

Lemma group_key_eqb_spec (a b : group_key) :
  group_key_eqb a b = true <-> same_place a b.
Proof.
  unfold group_key_eqb, same_place.
  rewrite !andb_true_iff, String.eqb_eq, !Qeq_bool_iff. tauto.
Qed.

Lemma group_key_eqb_refl (a : group_key) : group_key_eqb a a = true.
Proof. apply group_key_eqb_spec. by repeat split. Qed.

Lemma group_key_eqb_sym (a b : group_key) :
  group_key_eqb a b = true -> group_key_eqb b a = true.
Proof.
  rewrite !group_key_eqb_spec. intros (? & ? & ?). by repeat split.
Qed.

Lemma group_key_eqb_trans (a b c : group_key) :
  group_key_eqb a b = true -> group_key_eqb b c = true -> group_key_eqb a c = true.
Proof.
  rewrite !group_key_eqb_spec. intros (? & Hab1 & Hab2) (? & Hbc1 & Hbc2).
  split; [congruence|]. split; [by rewrite Hab1|by rewrite Hab2].
Qed.

Lemma elem_of_with_coords (df : list Row) (r : Row) (la lo : Q) :
  (r, (la, lo)) ∈ with_coords df
  <-> r ∈ df /\ Latitude r = Some la /\ Longitude r = Some lo.
Proof.
  unfold with_coords. rewrite list_elem_of_omap. split.
  - intros (x & Hx & Hc). destruct (Latitude x) eqn:Hla, (Longitude x) eqn:Hlo;
      try done. by injection Hc as -> -> ->.
  - intros (Hr & Hla & Hlo). exists r. by rewrite Hla, Hlo.
Qed.

Lemma length_location_groups (map_df : list Row) :
  sum_list_with (fun kg => length kg.2) (location_groups map_df)
  = length (dropna_coords map_df).
Proof.
  unfold location_groups, dropna_coords. rewrite length_map.
  rewrite <- (groupby_sizes group_key_eqb group_key_leb
                (fun rc : Row * (Q * Q) => (Locatie rc.1, rc.2.1, rc.2.2))
                group_key_eqb_refl group_key_eqb_sym group_key_eqb_trans
                (with_coords map_df)).
  induction (groupby _ _ _ _) as [|kg l IH]; [done|].
  cbn [map sum_list_with]. rewrite IH. simpl. by rewrite length_map.
Qed.

Lemma elem_of_location_groups (map_df : list Row) (key : group_key) (g : list Row) :
  (key, g) ∈ location_groups map_df ->
  g <> [] /\ forall r, r ∈ g <-> r ∈ map_df /\ at_place key r.
Proof.
  unfold location_groups. intros ([k g'] & Heq & Hkg)%list_elem_of_fmap.
  simpl in Heq. injection Heq as -> ->.
  apply (groupby_group _ _ _ group_key_eqb_refl) in Hkg as (_ & -> & Hne).
  split.
  { intros Hnil. apply Hne. by apply fmap_nil_inv in Hnil. }
  intros r. rewrite list_elem_of_fmap. split.
  - intros ([r' [la lo]] & -> & Hin). simpl.
    apply list_elem_of_filter in Hin as [Hk Hin]. simpl in Hk.
    apply elem_of_with_coords in Hin as (Hr & Hla & Hlo).
    split; [done|]. apply Is_true_true, group_key_eqb_spec in Hk.
    destruct Hk as (Hloc & Hlat & Hlon). simpl in *.
    exists la, lo. by repeat split.
  - intros (Hr & la & lo & Hla & Hlo & Hloc & Hlat & Hlon).
    exists (r, (la, lo)). split; [done|].
    apply list_elem_of_filter. split; [|by apply elem_of_with_coords].
    apply Is_true_true, group_key_eqb_spec. by repeat split.
Qed.

Lemma marker_counts `{TextLib} (map_df : list Row) (kaarttype : Kaarttype) :
  let markers := map_markers (make_map map_df kaarttype) in
  sum_list_with marker_icon markers = length (dropna_coords map_df)
  /\ Forall (fun m => (1 <= marker_icon m)%nat /\ popup_n (marker_popup m) = marker_icon m)
            markers
  /\ (length markers <= length (dropna_coords map_df))%nat.
Proof.
  cbv zeta. unfold make_map. cbn [map_markers].
  rewrite <- length_location_groups.
  assert (Hne : Forall (fun kg : group_key * list Row => kg.2 <> [])
                  (location_groups map_df)).
  { apply Forall_forall. intros [key g] Hkg.
    by apply elem_of_location_groups in Hkg as [? _]. }
  induction Hne as [|[key g] l Hg Hl IH]; [done|].
  cbn [map sum_list_with length] in *. destruct IH as (IH1 & IH2 & IH3).
  simpl in Hg. destruct g as [|r g]; [done|].
  split; [by rewrite IH1|]. split.
  - constructor; [|done]. simpl. split; [lia|done].
  - simpl. lia.
Qed.

(** The counts on the markers add up to the number of rows that have both
    coordinates; no marker stands for an empty group, so there are at most
    as many markers as such rows. *)
Theorem make_map_marker_counts `{TextLib} (map_df : list Row) (kaarttype : Kaarttype) :
  let markers := map_markers (make_map map_df kaarttype) in
  sum_list_with marker_icon markers = length (dropna_coords map_df)
  /\ Forall (fun m => (1 <= marker_icon m)%nat /\ popup_n (marker_popup m) = marker_icon m)
            markers
  /\ (length markers <= length (dropna_coords map_df))%nat.
Proof. apply marker_counts. Qed.

Section groupby_cover.
Context {A K : Type} (eqb leb : K -> K -> bool) (key : A -> K).
Context (Hrefl : forall a, eqb a a = true).
Context (Htrans : forall a b c, eqb a b = true -> eqb b c = true -> eqb a c = true).

Lemma groupby_covers (df : list A) (x : A) :
  x ∈ df ->
  exists k g, (k, g) ∈ groupby eqb leb key df /\ eqb k (key x) = true /\ x ∈ g.
Proof.
  intros Hx.
  destruct (nub_by_covers eqb Hrefl Htrans (map key df) (key x)) as (k & Hk & Heq).
  { apply list_elem_of_fmap. by exists x. }
  exists k, (filter (fun r => eqb k (key r)) df). split; [|split; [done|]].
  - unfold groupby. apply list_elem_of_fmap. exists k. split; [done|].
    by rewrite sort_by_Permutation.
  - apply list_elem_of_filter. split; [|done]. by rewrite Heq.
Qed.

End groupby_cover.

Lemma location_group_rows (map_df : list Row) (key : group_key) (g : list Row) :
  (key, g) ∈ location_groups map_df ->
  g = filter (placed_at key.1.1 key.1.2 key.2) map_df.
Proof.
  unfold location_groups. intros ([k g'] & Heq & Hkg)%list_elem_of_fmap.
  simpl in Heq. injection Heq as -> ->.
  apply (groupby_group _ _ _ group_key_eqb_refl) in Hkg as (_ & -> & _).
  unfold with_coords. clear. induction map_df as [|r df IH]; [done|].
  rewrite filter_cons. csimpl. rewrite <- IH.
  destruct (decide (placed_at k.1.1 k.1.2 k.2 r)) as [Hp|Hp];
    unfold placed_at in Hp;
    destruct (Latitude r) as [a|]; try done;
    destruct (Longitude r) as [b|]; try done;
    csimpl; rewrite filter_cons; unfold group_key_eqb at 1; cbn [fst snd].
  - by rewrite decide_True.
  - by rewrite decide_False.
Qed.

Lemma make_marker_rows `{TextLib} (map_df : list Row) (key : group_key) (g : list Row) :
  (key, g) ∈ location_groups map_df ->
  rows_of_marker map_df (make_marker key g) = g.
Proof. intros Hkg. by rewrite (location_group_rows _ _ _ Hkg) at 2. Qed.

(** Every row with both coordinates is counted on a marker: the marker
    carries the row's location name, stands at its coordinates, and the
    count on its icon and in its popup is the number of rows of the table
    with that name at those coordinates, the row among them.  No two
    markers carry the same name at the same coordinates. *)
Theorem make_map_one_marker_per_place `{TextLib}
    (map_df : list Row) (kaarttype : Kaarttype) :
  let markers := map_markers (make_map map_df kaarttype) in
  (forall r la lo, r ∈ map_df -> Latitude r = Some la -> Longitude r = Some lo ->
     exists m, m ∈ markers
       /\ popup_loc (marker_popup m) = Locatie r
       /\ ((marker_location m).1 == la)%Q /\ ((marker_location m).2 == lo)%Q
       /\ r ∈ rows_of_marker map_df m
       /\ marker_icon m = length (filter (placed_at (Locatie r) la lo) map_df)
       /\ popup_n (marker_popup m) = marker_icon m)
  /\ (forall m, m ∈ markers ->
        marker_icon m = length (rows_of_marker map_df m)
        /\ (1 <= marker_icon m)%nat)
  /\ (forall i j m1 m2, (i < j)%nat ->
        markers !! i = Some m1 -> markers !! j = Some m2 ->
        ~ (popup_loc (marker_popup m1) = popup_loc (marker_popup m2)
           /\ ((marker_location m1).1 == (marker_location m2).1)%Q
           /\ ((marker_location m1).2 == (marker_location m2).2)%Q)).
Proof.
  cbv zeta. unfold make_map. cbn [map_markers]. split; [|split].
  - intros r la lo Hr Hla Hlo.
    destruct (groupby_covers group_key_eqb group_key_leb
                (fun rc : Row * (Q * Q) => (Locatie rc.1, rc.2.1, rc.2.2))
                group_key_eqb_refl group_key_eqb_trans
                (with_coords map_df) (r, (la, lo)))
      as (k & g & Hkg & Heq & Hrg).
    { by apply elem_of_with_coords. }
    assert (Hgroup : (k, map fst g) ∈ location_groups map_df).
    { unfold location_groups. apply list_elem_of_fmap. by exists (k, g). }
    exists (make_marker k (map fst g)). split.
    { apply list_elem_of_fmap. by exists (k, map fst g). }
    rewrite (make_marker_rows _ _ _ Hgroup).
    pose proof Heq as Heqb.
    apply group_key_eqb_spec in Heq as (Hloc & Hlat & Hlon). simpl in *.
    split; [done|]. split; [done|]. split; [done|]. split.
    { apply list_elem_of_fmap. by exists (r, (la, lo)). }
    split; [|done].
    rewrite (location_group_rows _ _ _ Hgroup) at 1. f_equal.
    apply list_filter_iff. intros x. unfold placed_at.
    destruct (Latitude x) as [a|]; [|done]. destruct (Longitude x) as [b|]; [|done].
    rewrite Hloc.
    assert (Ha : Qeq_bool k.1.2 a = Qeq_bool la a).
    { apply eq_true_iff_eq. rewrite !Qeq_bool_iff. by rewrite Hlat. }
    assert (Hb : Qeq_bool k.2 b = Qeq_bool lo b).
    { apply eq_true_iff_eq. rewrite !Qeq_bool_iff. by rewrite Hlon. }
    by rewrite Ha, Hb.
  - intros m ([key g] & -> & Hkg)%list_elem_of_fmap. cbn [fst snd].
    rewrite (make_marker_rows _ _ _ Hkg). split; [done|]. simpl.
    apply elem_of_location_groups in Hkg as [Hne _].
    destruct g; [done|simpl; lia].
  - intros i j m1 m2 Hij Hi Hj (Hloc & Hlat & Hlon).
    rewrite list_lookup_fmap in Hi, Hj.
    destruct (location_groups map_df !! i) as [[k1 g1]|] eqn:Hi'; [|done].
    destruct (location_groups map_df !! j) as [[k2 g2]|] eqn:Hj'; [|done].
    injection Hi as <-. injection Hj as <-. simpl in *.
    pose proof (groupby_distinct group_key_eqb group_key_leb
                  (fun rc : Row * (Q * Q) => (Locatie rc.1, rc.2.1, rc.2.2))
                  group_key_eqb_sym (with_coords map_df)) as Hd.
    assert (Hkeys : map fst (location_groups map_df)
                    = map fst (groupby group_key_eqb group_key_leb
                                 (fun rc : Row * (Q * Q) => (Locatie rc.1, rc.2.1, rc.2.2))
                                 (with_coords map_df))).
    { unfold location_groups. by rewrite map_map. }
    rewrite <- Hkeys in Hd.
    assert (Hne : group_key_eqb k1 k2 = false).
    { apply (StronglySorted_lookup _ _ i j k1 k2 Hd Hij).
      - by rewrite list_lookup_fmap, Hi'.
      - by rewrite list_lookup_fmap, Hj'. }
    assert (Heq : group_key_eqb k1 k2 = true).
    { apply group_key_eqb_spec. by repeat split. }
    congruence.
Qed.

Lemma make_map_one_marker_per_place_witness :
  exists m,
    m ∈ map_markers (make_map (H := AsciiText.lib) (rows example_frame) Normaal)
    /\ popup_loc (marker_popup m) = "LocA"
    /\ marker_icon m = 3%nat.
Proof.
  destruct (proj1 (make_map_one_marker_per_place (H := AsciiText.lib)
                     (rows example_frame) Normaal)
              (row "PFOS" (Some 2019) (Some 5%Q) "ng/L") (515 # 10)%Q (38 # 10)%Q)
    as (m & Hm & Hloc & _ & _ & _ & Hicon & _).
  - apply list_elem_of_here.
  - reflexivity.
  - reflexivity.
  - exists m. split; [exact Hm|]. split; [exact Hloc|exact Hicon].
Defined.

(** ** The below-limit share *)

Lemma Qlt_bool_true (x y : Q) : Qlt_bool x y = true <-> (x < y)%Q.
Proof.
  unfold Qlt_bool. rewrite negb_true_iff, <- not_true_iff_false, Qle_bool_iff.
  split; [apply Qnot_le_lt | apply Qlt_not_le].
Qed.

Lemma round_half_even_near (t : Q) :
  (t - (1 # 2) <= inject_Z (round_half_even t) <= t + (1 # 2))%Q.
Proof.
  unfold round_half_even.
  pose proof (Qfloor_le t) as Hlo. pose proof (Qlt_floor t) as Hhi.
  rewrite inject_Z_plus in Hhi. change (inject_Z 1) with 1%Q in Hhi.
  destruct (Qlt_bool (t - inject_Z (Qfloor t)) (1 # 2)) eqn:H1.
  { apply Qlt_bool_true in H1. split; lra. }
  assert (H1' : ((1 # 2) <= t - inject_Z (Qfloor t))%Q).
  { apply Qnot_lt_le. intros Hc. apply Qlt_bool_true in Hc. congruence. }
  assert (Hup : (t - (1 # 2) <= inject_Z (Qfloor t + 1) <= t + (1 # 2))%Q).
  { rewrite inject_Z_plus. change (inject_Z 1) with 1%Q. split; lra. }
  destruct (Qlt_bool (1 # 2) (t - inject_Z (Qfloor t))) eqn:H2; [exact Hup|].
  assert (H2' : (t - inject_Z (Qfloor t) <= (1 # 2))%Q).
  { apply Qnot_lt_le. intros Hc. apply Qlt_bool_true in Hc. congruence. }
  destruct (Z.even (Qfloor t)); [|exact Hup]. split; lra.
Qed.

Lemma round_half_even_ge (t : Q) (z : Z) :
  (inject_Z z <= t)%Q -> z <= round_half_even t.
Proof.
  intros Hz. assert (z <= Qfloor t).
  { rewrite <- (Qfloor_Z z). by apply Qfloor_resp_le. }
  unfold round_half_even. repeat destruct (_ : bool); lia.
Qed.

Lemma round_half_even_le (t : Q) (z : Z) :
  (t <= inject_Z z)%Q -> round_half_even t <= z.
Proof.
  intros Hz.
  pose proof (round_half_even_near t) as [_ Hn].
  assert (Hlt : (inject_Z (round_half_even t) < inject_Z (z + 1))%Q).
  { rewrite inject_Z_plus. change (inject_Z 1) with 1%Q. lra. }
  rewrite <- Zlt_Qlt in Hlt. lia.
Qed.

Lemma pow2_pos (e : Z) : (0 < pow2 e)%Q.
Proof. apply Qpower_0_lt. reflexivity. Qed.

Lemma pow2_plus (a b : Z) : (pow2 (a + b) == pow2 a * pow2 b)%Q.
Proof. apply Qpower_plus. discriminate. Qed.

Lemma pow2_inject (n : Z) : 0 <= n -> (pow2 n == inject_Z (2 ^ n))%Q.
Proof. intros Hn. unfold pow2. by rewrite Zpower_Qpower. Qed.

Lemma log2_ratio_lower (n : Z) (d : positive) :
  0 < n -> (pow2 (Z.log2 n - Z.log2 (Z.pos d) - 1) <= n # d)%Q.
Proof.
  intros Hn.
  pose proof (Z.log2_spec n Hn) as [Hn1 _].
  pose proof (Z.log2_spec (Z.pos d) (Pos2Z.is_pos d)) as [_ Hd2].
  pose proof (Z.log2_nonneg n) as Hln.
  pose proof (Z.log2_nonneg (Z.pos d)) as Hld.
  replace (Z.log2 n - Z.log2 (Z.pos d) - 1)
    with (Z.log2 n + - Z.succ (Z.log2 (Z.pos d))) by lia.
  rewrite pow2_plus. unfold pow2 at 2. rewrite Qpower_opp.
  fold (pow2 (Z.succ (Z.log2 (Z.pos d)))). rewrite !pow2_inject by lia.
  generalize dependent (2 ^ Z.log2 n).
  generalize dependent (2 ^ Z.succ (Z.log2 (Z.pos d))).
  intros D HD N HN.
  assert (HD0 : 0 < D) by lia.
  unfold Qle, Qmult, Qinv, inject_Z. simpl.
  destruct D as [|D|D]; try lia. simpl. nia.
Qed.

Lemma log2_ratio_upper (n : Z) (d : positive) :
  0 < n -> (n # d < pow2 (Z.log2 n - Z.log2 (Z.pos d) + 1))%Q.
Proof.
  intros Hn.
  pose proof (Z.log2_spec n Hn) as [_ Hn2].
  pose proof (Z.log2_spec (Z.pos d) (Pos2Z.is_pos d)) as [Hd1 _].
  pose proof (Z.log2_nonneg n) as Hln.
  pose proof (Z.log2_nonneg (Z.pos d)) as Hld.
  replace (Z.log2 n - Z.log2 (Z.pos d) + 1)
    with (Z.succ (Z.log2 n) + - Z.log2 (Z.pos d)) by lia.
  rewrite pow2_plus. unfold pow2 at 2. rewrite Qpower_opp.
  fold (pow2 (Z.log2 (Z.pos d))). rewrite !pow2_inject by lia.
  assert (HD0 : 0 < 2 ^ Z.log2 (Z.pos d)) by (apply Z.pow_pos_nonneg; lia).
  generalize dependent (2 ^ Z.succ (Z.log2 n)).
  generalize dependent (2 ^ Z.log2 (Z.pos d)).
  intros D HD HD0 N HN.
  unfold Qlt, Qmult, Qinv, inject_Z. simpl.
  destruct D as [|D|D]; try lia. simpl. nia.
Qed.

Lemma binade_lower (a : Q) : (0 < a)%Q -> (pow2 52 * pow2 (binade a) <= a)%Q.
Proof.
  intros Ha. unfold binade.
  destruct (Qle_bool _ a) eqn:Ht.
  { apply Qle_bool_iff in Ht. rewrite <- pow2_plus.
    match goal with
    | |- (pow2 ?x <= _)%Q =>
        match type of Ht with (pow2 ?y <= _)%Q => replace x with y by lia end
    end. done. }
  rewrite <- pow2_plus.
  destruct a as [n d]. unfold Qlt in Ha. simpl in Ha. simpl Qnum. simpl Qden.
  assert (Hn : 0 < n) by lia.
  pose proof (log2_ratio_lower n d Hn) as Hl.
  match goal with
  | |- (pow2 ?x <= _)%Q =>
      match type of Hl with (pow2 ?y <= _)%Q => replace x with y by lia end
  end. done.
Qed.

Lemma binade_upper (a : Q) : (0 < a)%Q -> (a < pow2 53 * pow2 (binade a))%Q.
Proof.
  intros Ha. unfold binade. rewrite <- pow2_plus.
  destruct a as [n d]. unfold Qlt in Ha. simpl in Ha. simpl Qnum. simpl Qden.
  assert (Hn : 0 < n) by lia.
  destruct (Qle_bool _ (n # d)) eqn:Ht.
  - pose proof (log2_ratio_upper n d Hn) as Hu.
    match goal with
    | |- (_ < pow2 ?x)%Q =>
        match type of Hu with (_ < pow2 ?y)%Q => replace x with y by lia end
    end. done.
  - apply Qnot_le_lt. intros Hc. apply Qle_bool_iff in Hc.
    match type of Hc with
    | Qle_bool (pow2 ?x) _ = _ =>
        match type of Ht with
        | Qle_bool (pow2 ?y) _ = _ => replace x with y in Hc by lia
        end
    end. congruence.
Qed.

Lemma Qabs_nonneg_eq (q : Q) : (0 <= q)%Q -> Qabs q = q.
Proof.
  destruct q as [n d]. unfold Qle, Qabs. simpl. intros Hn.
  f_equal. apply Z.abs_eq. lia.
Qed.

Lemma binary64_pos (q : Q) :
  (0 < q)%Q ->
  binary64 q = (inject_Z (round_half_even (q / pow2 (binade q))) * pow2 (binade q))%Q.
Proof.
  intros Hq. unfold binary64.
  destruct (Qeq_bool q 0) eqn:H0.
  { apply Qeq_bool_iff in H0. rewrite H0 in Hq. by apply Qlt_irrefl in Hq. }
  rewrite (proj2 (Qle_bool_iff 0 q) (Qlt_le_weak _ _ Hq)).
  by rewrite (Qabs_nonneg_eq q (Qlt_le_weak _ _ Hq)).
Qed.

(** What [binary64] returns is a number of the format: a significand of
    53 bits times a power of two. *)
Lemma binary64_format (q : Q) :
  (0 < q)%Q ->
  exists m e : Z,
    binary64 q = (inject_Z m * pow2 e)%Q /\ 2 ^ 52 <= m <= 2 ^ 53.
Proof.
  intros Hq. rewrite (binary64_pos q Hq).
  exists (round_half_even (q / pow2 (binade q))), (binade q).
  split; [done|].
  pose proof (binade_lower q Hq) as Hlo. pose proof (binade_upper q Hq) as Hhi.
  pose proof (pow2_pos (binade q)) as Hp.
  assert (H52 : (pow2 52 == inject_Z (2 ^ 52))%Q) by reflexivity.
  assert (H53 : (pow2 53 == inject_Z (2 ^ 53))%Q) by reflexivity.
  rewrite H52 in Hlo. rewrite H53 in Hhi. split.
  - apply round_half_even_ge. apply Qle_shift_div_l; done.
  - apply round_half_even_le. apply Qle_shift_div_r; [done|]. by apply Qlt_le_weak.
Qed.

(** It differs from the exact value by at most half a unit in the last
    place. *)
Lemma binary64_error (q : Q) :
  (0 <= q)%Q ->
  (q - q * (1 # 2 ^ 53) <= binary64 q <= q + q * (1 # 2 ^ 53))%Q.
Proof.
  intros Hq. apply Qle_lt_or_eq in Hq as [Hpos|Heq].
  2:{ unfold binary64. rewrite (proj2 (Qeq_bool_iff q 0)) by done.
      rewrite <- Heq. split; lra. }
  rewrite (binary64_pos q Hpos).
  pose proof (binade_lower q Hpos) as Hlow.
  pose proof (pow2_pos (binade q)) as Hp.
  set (P := pow2 (binade q)) in *.
  pose proof (round_half_even_near (q / P)) as [Hn1 Hn2].
  set (m := inject_Z (round_half_even (q / P))) in *.
  assert (HqP : (q / P * P == q)%Q).
  { field. intros Hc. rewrite Hc in Hp. by apply Qlt_irrefl in Hp. }
  assert (H52 : (pow2 52 == 4503599627370496)%Q) by reflexivity.
  rewrite H52 in Hlow.
  assert (Hm1 : ((q / P - (1 # 2)) * P <= m * P)%Q).
  { apply Qmult_le_compat_r; [done|lra]. }
  assert (Hm2 : (m * P <= (q / P + (1 # 2)) * P)%Q).
  { apply Qmult_le_compat_r; [done|lra]. }
  assert (E1 : ((q / P - (1 # 2)) * P == q - (1 # 2) * P)%Q).
  { rewrite <- HqP at 2. ring. }
  assert (E2 : ((q / P + (1 # 2)) * P == q + (1 # 2) * P)%Q).
  { rewrite <- HqP at 2. ring. }
  rewrite E1 in Hm1. rewrite E2 in Hm2.
  change (1 # 2 ^ 53)%Q with (1 # 9007199254740992)%Q.
  split; lra.
Qed.

Lemma share_unit (k n : nat) :
  (0 < n)%nat -> (k <= n)%nat ->
  (0 <= inject_Z (Z.of_nat k) / inject_Z (Z.of_nat n) <= 1)%Q.
Proof.
  intros Hn Hk.
  assert (0 < inject_Z (Z.of_nat n))%Q.
  { change 0%Q with (inject_Z 0). rewrite <- Zlt_Qlt. lia. }
  split.
  - apply Qle_shift_div_l; [done|]. rewrite Qmult_0_l.
    change 0%Q with (inject_Z 0). rewrite <- Zle_Qle. lia.
  - apply Qle_shift_div_r; [done|]. rewrite Qmult_1_l. rewrite <- Zle_Qle. lia.
Qed.

(** The percentage shown for [k] of [n] rows lies within a twentieth, and
    the error of the two float operations, of the exact percentage. *)
Lemma percentage_error (k n : nat) :
  (0 < n)%nat -> (k <= n)%nat ->
  let exact := (inject_Z (Z.of_nat k) / inject_Z (Z.of_nat n) * 100)%Q in
  let shown :=
    round_tenths
      (binary64 (binary64 (inject_Z (Z.of_nat k) / inject_Z (Z.of_nat n)) * 100)) in
  (exact - (1 # 20) - (1 # 2 ^ 40) <= shown <= exact + (1 # 20) + (1 # 2 ^ 40))%Q.
Proof.
  intros Hn Hk. cbv zeta. pose proof (share_unit k n Hn Hk) as Hr.
  set (r := (inject_Z (Z.of_nat k) / inject_Z (Z.of_nat n))%Q) in *.
  pose proof (binary64_error r (proj1 Hr)) as [Ha1 Ha2].
  change (1 # 2 ^ 53)%Q with (1 # 9007199254740992)%Q in *.
  set (x1 := binary64 r) in *.
  assert (Hx1 : (0 <= x1 * 100)%Q) by lra.
  pose proof (binary64_error (x1 * 100) Hx1) as [Hb1 Hb2].
  change (1 # 2 ^ 53)%Q with (1 # 9007199254740992)%Q in *.
  set (x2 := binary64 (x1 * 100)) in *.
  unfold round_tenths.
  pose proof (round_half_even_near (x2 * 10)) as [Hc1 Hc2].
  set (z := inject_Z (round_half_even (x2 * 10))) in *.
  change (1 # 2 ^ 40)%Q with (1 # 1099511627776)%Q.
  assert (Hz : (z / 10 == z * (1 # 10))%Q) by field.
  rewrite Hz. split; lra.
Qed.

Lemma percentage_shown (k n : nat) :
  (0 < n)%nat -> (k <= n)%nat ->
  exists z : Z,
    round_tenths
      (binary64 (binary64 (inject_Z (Z.of_nat k) / inject_Z (Z.of_nat n)) * 100))
    = (inject_Z z / 10)%Q
    /\ 0 <= z <= 1000
    /\ (k = 0%nat -> z = 0)
    /\ (k = n -> z = 1000).
Proof.
  intros Hn Hk. pose proof (percentage_error k n Hn Hk) as Herr. cbv zeta in Herr.
  pose proof (share_unit k n Hn Hk) as Hr.
  unfold round_tenths in *.
  set (z := round_half_even _) in *. exists z. split; [done|].
  change (1 # 2 ^ 40)%Q with (1 # 1099511627776)%Q in Herr.
  assert (Hz : (inject_Z z / 10 == inject_Z z * (1 # 10))%Q) by field.
  rewrite Hz in Herr. clear Hz.
  set (r := (inject_Z (Z.of_nat k) / inject_Z (Z.of_nat n))%Q) in *.
  assert (Hnq : (0 < inject_Z (Z.of_nat n))%Q).
  { change 0%Q with (inject_Z 0). rewrite <- Zlt_Qlt. lia. }
  assert (Hlt : forall a b : Z, (inject_Z a < inject_Z b + 1)%Q -> a <= b).
  { intros a b Hab. change 1%Q with (inject_Z 1) in Hab.
    rewrite <- inject_Z_plus, <- Zlt_Qlt in Hab. lia. }
  destruct Herr as [He1 He2].
  split; [split|split].
  - apply (Hlt 0 z). change (inject_Z 0) with 0%Q. lra.
  - apply (Hlt z 1000). change (inject_Z 1000) with 1000%Q. lra.
  - intros ->. assert (Hr0 : (r == 0)%Q).
    { subst r. simpl. unfold Qdiv. by rewrite Qmult_0_l. }
    assert (z <= 0).
    { apply (Hlt z 0). change (inject_Z 0) with 0%Q. lra. }
    assert (0 <= z).
    { apply (Hlt 0 z). change (inject_Z 0) with 0%Q. lra. }
    lia.
  - intros ->. assert (Hr1 : (r == 1)%Q).
    { subst r. field. intros Hc. rewrite Hc in Hnq. by apply Qlt_irrefl in Hnq. }
    assert (1000 <= z).
    { apply (Hlt 1000 z). change (inject_Z 1000) with 1000%Q. lra. }
    assert (z <= 1000).
    { apply (Hlt z 1000). change (inject_Z 1000) with 1000%Q. lra. }
    lia.
Qed.

(** On every marker the two counts are those of its rows: the number of
    rows of the table at its place, and the number of these whose flag is
    set, a missing flag counting as not set.  The percentage shown is a
    number of tenths between 0 and 100 within a twentieth (and the error
    of the two float operations) of the exact share; it is 0 when no row is
    flagged and 100 when all are. *)
Theorem make_map_loq_share `{TextLib}
    (map_df : list Row) (kaarttype : Kaarttype) (m : Marker) :
  m ∈ map_markers (make_map map_df kaarttype) ->
  let p := marker_popup m in
  let g := rows_of_marker map_df m in
  let exact :=
    (inject_Z (Z.of_nat (popup_n_loq p)) / inject_Z (Z.of_nat (popup_n p)) * 100)%Q in
  popup_n p = length g
  /\ (0 < popup_n p)%nat
  /\ popup_n_loq p = length (filter (fun r => LOQ_flag r = Some true) g)
  /\ (popup_n_loq p <= popup_n p)%nat
  /\ (exists z : Z, popup_perc_loq p = (inject_Z z / 10)%Q /\ 0 <= z <= 1000)
  /\ (exact - (1 # 20) - (1 # 2 ^ 40) <= popup_perc_loq p
      <= exact + (1 # 20) + (1 # 2 ^ 40))%Q
  /\ (popup_n_loq p = 0%nat -> popup_perc_loq p = (inject_Z 0 / 10)%Q)
  /\ (popup_n_loq p = popup_n p -> popup_perc_loq p = (inject_Z 1000 / 10)%Q).
Proof.
  unfold make_map. cbn [map_markers].
  intros ([key g] & -> & Hkg)%list_elem_of_fmap. cbv zeta. cbn [fst snd].
  rewrite (make_marker_rows _ _ _ Hkg).
  apply elem_of_location_groups in Hkg as [Hne _].
  unfold make_marker. cbn [marker_popup popup_n popup_n_loq popup_perc_loq].
  set (n_loq := length (filter (fun r => LOQ_flag r = Some true) g)).
  assert (Hle : (n_loq <= length g)%nat) by apply length_filter.
  assert (Hn : (0 < length g)%nat) by (destruct g; [done|simpl; lia]).
  rewrite (proj2 (Nat.ltb_lt 0 (length g)) Hn).
  destruct (percentage_shown n_loq (length g) Hn Hle) as (z & Hz & Hz01 & Hz0 & Hz1).
  split; [done|]. split; [done|]. split; [done|]. split; [done|].
  split; [by exists z|].
  split; [by apply percentage_error|].
  split.
  - intros H0. rewrite Hz. by rewrite (Hz0 H0).
  - intros H1. rewrite Hz. by rewrite (Hz1 H1).
Qed.

Lemma make_map_loq_share_witness :
  exists m,
    m ∈ map_markers (make_map (H := AsciiText.lib) (rows example_frame) Normaal)
    /\ popup_n (marker_popup m) = 3%nat
    /\ popup_n_loq (marker_popup m) = 0%nat
    /\ popup_perc_loq (marker_popup m) = (inject_Z 0 / 10)%Q.
Proof.
  assert (Hm : exists m,
             map_markers (make_map (H := AsciiText.lib) (rows example_frame) Normaal)
             = [m]).
  { vm_compute. eexists. reflexivity. }
  destruct Hm as [m Hm]. exists m.
  assert (Hin : m ∈ map_markers
                      (make_map (H := AsciiText.lib) (rows example_frame) Normaal)).
  { rewrite Hm. apply list_elem_of_here. }
  destruct (make_map_loq_share (H := AsciiText.lib) _ _ _ Hin)
    as (Hn & _ & Hloq & _ & _ & _ & H0 & _).
  assert (Hm0 : map_markers (make_map (H := AsciiText.lib) (rows example_frame) Normaal)
                !! 0%nat = Some m) by (by rewrite Hm).
  vm_compute in Hm0. injection Hm0 as <-.
  split; [exact Hin|]. split; [reflexivity|]. split; [reflexivity|].
  apply H0. reflexivity.
Defined.

(** Of 80 rows at one place with 23 flagged, the popup shows 28.7 per
    cent: the float nearest to 23/80, times 100, lies just below 28.75. *)
Example loq_share_23_of_80 :
  let flagged (b : bool) :=
    {| Locatie := "LocA"; PFAS := "PFOS"; Bron := "RWS"; Medium := "water";
       Sampletype := "monster"; Eenheid := "ng/L"; Jaar := Some 2020;
       Waarde := Some 1%Q; Latitude := Some (515 # 10); Longitude := Some (38 # 10);
       LOQ_flag := Some b |} in
  map (fun m => (popup_n_loq (marker_popup m), popup_n (marker_popup m),
                 Qred (popup_perc_loq (marker_popup m))))
      (map_markers (make_map (H := AsciiText.lib)
                      (replicate 23 (flagged true) ++ replicate 57 (flagged false))
                      Normaal))
  = [(23%nat, 80%nat, (287 # 10)%Q)].
Proof. by vm_compute. Qed.

(** ** The centre of the map *)

Lemma Qsum_bounds (lo hi : Q) (l : list Q) :
  Forall (fun q => lo <= q <= hi)%Q l ->
  (lo * inject_Z (Z.of_nat (length l)) <= Qsum l
   /\ Qsum l <= hi * inject_Z (Z.of_nat (length l)))%Q.
Proof.
  induction 1 as [|q l [Hlo Hhi] _ [IHlo IHhi]].
  - change (inject_Z (Z.of_nat (length (@nil Q)))) with 0%Q.
    change (Qsum []) with 0%Q. split; lra.
  - change (Qsum (q :: l)) with (q + Qsum l)%Q.
    cbn [length]. rewrite Nat2Z.inj_succ, <- Z.add_1_r, inject_Z_plus.
    change (inject_Z 1) with 1%Q.
    set (n := inject_Z (Z.of_nat (length l))) in *.
    split; rewrite Qmult_plus_distr_r; lra.
Qed.

Lemma Qmean_bounds (lo hi : Q) (l : list Q) :
  l <> [] -> Forall (fun q => lo <= q <= hi)%Q l -> (lo <= Qmean l <= hi)%Q.
Proof.
  intros Hne Hall. destruct (Qsum_bounds lo hi l Hall) as [Hlo Hhi].
  assert (Hn : (0 < inject_Z (Z.of_nat (length l)))%Q).
  { change 0%Q with (inject_Z 0). rewrite <- Zlt_Qlt.
    destruct l; [done|simpl; lia]. }
  unfold Qmean. split.
  - by apply Qle_shift_div_l.
  - by apply Qle_shift_div_r.
Qed.

Lemma Qmean_sum (l : list Q) :
  l <> [] -> (Qmean l * inject_Z (Z.of_nat (length l)) == foldr Qplus 0 l)%Q.
Proof.
  intros Hne. unfold Qmean, Qsum. field.
  intros Hc. destruct l; [done|].
  assert (Hpos : (0 < inject_Z (Z.of_nat (length (q :: l))))%Q).
  { change 0%Q with (inject_Z 0). rewrite <- Zlt_Qlt. simpl. lia. }
  rewrite Hc in Hpos. by apply Qlt_irrefl in Hpos.
Qed.

Lemma between_spec (lo hi : Q) (c : fcell) :
  between lo hi c = true <-> exists q, c = Some q /\ (lo <= q <= hi)%Q.
Proof.
  destruct c as [q|]; simpl.
  - rewrite andb_true_iff, !Qle_bool_iff. split; [eauto|].
    by intros (? & [= <-] & ?).
  - split; [done|]. by intros (? & ? & ?).
Qed.

Lemma box_positions_rows (map_df : list Row) :
  let nl := filter (fun r => between 50 54 (Latitude r) && between 3 8 (Longitude r))
                   map_df in
  omap Latitude nl = (box_positions map_df).*1
  /\ omap Longitude nl = (box_positions map_df).*2
  /\ length nl = length (box_positions map_df).
Proof.
  cbv zeta. unfold box_positions.
  induction map_df as [|r df (IH1 & IH2 & IH3)]; [done|].
  rewrite filter_cons. csimpl.
  destruct (decide (between 50 54 (Latitude r) && between 3 8 (Longitude r)))
    as [Hb|Hb]; unfold between in Hb;
    destruct (Latitude r) as [la|] eqn:Hla; try done;
    destruct (Longitude r) as [lo|] eqn:Hlo;
    rewrite ?andb_false_r in Hb; try done.
  - rewrite <- andb_assoc. rewrite (Is_true_true_1 _ Hb).
    csimpl. rewrite Hla, Hlo. csimpl. by rewrite IH1, IH2, IH3.
  - rewrite <- andb_assoc. apply Is_true_false_1 in Hb. by rewrite Hb.
Qed.

(** The map is centred on the mean position of the rows that lie between
    50 and 54 degrees north and 3 and 8 degrees east, and on 51.45 N,
    3.80 E when no row does; so the centre lies in that box whatever the
    data. *)
Theorem make_map_center_in_box `{TextLib} (map_df : list Row) (kaarttype : Kaarttype) :
  let c := map_center (make_map map_df kaarttype) in
  let box := box_positions map_df in
  let n := inject_Z (Z.of_nat (length box)) in
  (box <> [] ->
     (c.1 * n == foldr Qplus 0 box.*1)%Q /\ (c.2 * n == foldr Qplus 0 box.*2)%Q)
  /\ (box = [] -> c = (5145 # 100, 380 # 100)%Q)
  /\ (50 <= c.1 <= 54)%Q /\ (3 <= c.2 <= 8)%Q
  /\ ((forall r, r ∈ map_df ->
         ~ (between 50 54 (Latitude r) = true /\ between 3 8 (Longitude r) = true)) ->
      c = (5145 # 100, 380 # 100)%Q).
Proof.
  cbv zeta. unfold make_map. cbn [map_center].
  destruct (box_positions_rows map_df) as (Hbl & Hbo & Hlen).
  cbv zeta in Hbl, Hbo, Hlen. rewrite <- Hbl, <- Hbo, <- Hlen.
  assert (Hbox : box_positions map_df = []
                 <-> filter (fun r => between 50 54 (Latitude r)
                                      && between 3 8 (Longitude r)) map_df = []).
  { rewrite <- !length_zero_iff_nil, Hlen. done. }
  rewrite Hbox. clear Hbl Hbo Hlen Hbox.
  set (nl := filter _ map_df).
  assert (Hnl : forall r, r ∈ nl ->
            r ∈ map_df /\ between 50 54 (Latitude r) = true
            /\ between 3 8 (Longitude r) = true).
  { intros r Hr. subst nl. apply list_elem_of_filter in Hr as [Hb Hr].
    apply Is_true_true, andb_true_iff in Hb. tauto. }
  clearbody nl. destruct nl as [|r0 nl'].
  { split; [done|]. split; [done|].
    simpl. split; [split; unfold Qle; simpl; lia|].
    split; [split; unfold Qle; simpl; lia|done]. }
  set (nl := r0 :: nl') in *.
  assert (Hlat : omap Latitude nl <> [] /\
                 Forall (fun q => 50 <= q <= 54)%Q (omap Latitude nl)).
  { split.
    - destruct (Hnl r0) as (_ & Hb & _); [apply list_elem_of_here|].
      apply between_spec in Hb as (q & Hq & _). subst nl. csimpl. by rewrite Hq.
    - apply Forall_forall. intros q Hq.
      apply list_elem_of_omap in Hq as (r & Hr & Hq).
      destruct (Hnl r Hr) as (_ & Hb & _).
      apply between_spec in Hb as (q' & Hq' & Hb). congruence. }
  assert (Hlon : omap Longitude nl <> [] /\
                 Forall (fun q => 3 <= q <= 8)%Q (omap Longitude nl)).
  { split.
    - destruct (Hnl r0) as (_ & _ & Hb); [apply list_elem_of_here|].
      apply between_spec in Hb as (q & Hq & _). subst nl. csimpl. by rewrite Hq.
    - apply Forall_forall. intros q Hq.
      apply list_elem_of_omap in Hq as (r & Hr & Hq).
      destruct (Hnl r Hr) as (_ & _ & Hb).
      apply between_spec in Hb as (q' & Hq' & Hb). congruence. }
  assert (Hll : length nl = length (omap Latitude nl)
                /\ length nl = length (omap Longitude nl)).
  { clear -Hnl. induction nl as [|r l IH]; [done|].
    destruct (Hnl r) as (_ & Hb1 & Hb2); [apply list_elem_of_here|].
    apply between_spec in Hb1 as (q1 & Hq1 & _).
    apply between_spec in Hb2 as (q2 & Hq2 & _).
    csimpl. rewrite Hq1, Hq2. csimpl.
    destruct IH as [IH1 IH2].
    { intros r' Hr'. apply Hnl. by apply list_elem_of_further. }
    by rewrite <- IH1, <- IH2. }
  change ((let (x, _) := (Qmean (omap Latitude nl), Qmean (omap Longitude nl)) in x))
    with (Qmean (omap Latitude nl)).
  cbn [fst snd]. split; [|split; [|split; [|split]]].
  - intros _. split.
    + rewrite (proj1 Hll) at 1. apply Qmean_sum, Hlat.
    + rewrite (proj2 Hll) at 1. apply Qmean_sum, Hlon.
  - done.
  - apply Qmean_bounds; apply Hlat.
  - apply Qmean_bounds; apply Hlon.
  - intros Hnone. exfalso.
    destruct (Hnl r0) as (Hr & Hb1 & Hb2); [apply list_elem_of_here|].
    by apply (Hnone r0).
Qed.

Lemma make_map_center_in_box_witness :
  let c := map_center (make_map (H := AsciiText.lib)
                         [row "PFOS" None (Some 5%Q) "ng/L";
                          {| Locatie := "LocB"; PFAS := "PFOA"; Bron := "RWS";
                             Medium := "water"; Sampletype := "monster";
                             Eenheid := "ng/L"; Jaar := None; Waarde := None;
                             Latitude := Some (525 # 10); Longitude := Some (48 # 10);
                             LOQ_flag := None |}] Satelliet) in
  (c.1 * 2 == (515 # 10) + ((525 # 10) + 0))%Q
  /\ (c.2 * 2 == (38 # 10) + ((48 # 10) + 0))%Q
  /\ map_center (make_map (H := AsciiText.lib) [] Satelliet)
     = (5145 # 100, 380 # 100)%Q.
Proof.
  cbv zeta.
  destruct (proj1 (make_map_center_in_box (H := AsciiText.lib)
                     [row "PFOS" None (Some 5%Q) "ng/L";
                      {| Locatie := "LocB"; PFAS := "PFOA"; Bron := "RWS";
                         Medium := "water"; Sampletype := "monster";
                         Eenheid := "ng/L"; Jaar := None; Waarde := None;
                         Latitude := Some (525 # 10); Longitude := Some (48 # 10);
                         LOQ_flag := None |}] Satelliet)) as [Hlat Hlon].
  { discriminate. }
  split; [exact Hlat|]. split; [exact Hlon|].
  apply (proj1 (proj2 (make_map_center_in_box (H := AsciiText.lib) [] Satelliet))).
  reflexivity.
Defined.

(** ** The sidebar filters *)

Lemma isin_spec {A} `{EqDecision A} (keuze : list A) (c : option A) :
  isin keuze c = true <-> exists x, c = Some x /\ x ∈ keuze.
Proof.
  destruct c as [x|]; simpl.
  - rewrite bool_decide_eq_true. split; [eauto|]. by intros (? & [= <-] & ?).
  - split; [done|]. by intros (? & ? & ?).
Qed.

Lemma elem_of_keep_isin {A} `{EqDecision A} (col : Row -> option A)
    (keuze : list A) (df : list Row) (r : Row) :
  r ∈ keep_isin col keuze df <-> r ∈ df /\ chosen keuze (col r).
Proof.
  unfold keep_isin, chosen. destruct keuze as [|y keuze].
  - split; [by intros ?; split; [|left]|by intros [? _]].
  - rewrite list_elem_of_filter, Is_true_true, isin_spec. split.
    + intros [? ?]. split; [done|by right].
    + intros [? [?|?]]; [done|by split].
Qed.

Lemma keep_isin_sublist {A} `{EqDecision A} (col : Row -> option A)
    (keuze : list A) (df : list Row) :
  keep_isin col keuze df `sublist_of` df.
Proof.
  unfold keep_isin. destruct keuze; [done|]. apply sublist_filter.
Qed.

(** The filtered table is the loaded table with rows left out, never
    reordered or changed: a row stays exactly when it passes each of the
    six selections, an empty selection letting every row pass and a row
    without a year passing no selection of years.  With the filters
    switched off, or with nothing selected, it is the loaded table. *)
Theorem sidebar_working_df_filters (df : list Row) (k : Keuzes) :
  sidebar_working_df df k `sublist_of` df
  /\ (forall r, r ∈ sidebar_working_df df k
        <-> r ∈ df /\ (filters_aan k = true -> passes k r))
  /\ (filters_aan k = false -> sidebar_working_df df k = df)
  /\ (bron_filter k = [] -> medium_filter k = [] -> pfas_filter k = [] ->
      jaar_filter k = [] -> sampletype_filter k = [] -> locatie_filter k = [] ->
      sidebar_working_df df k = df).
Proof.
  unfold sidebar_working_df, sidebar_filters. cbn [working_df].
  split; [|split; [|split]].
  - destruct (filters_aan k); [|done].
    repeat (etransitivity; [apply keep_isin_sublist|]). done.
  - intros r. destruct (filters_aan k).
    + rewrite !elem_of_keep_isin. unfold passes. tauto.
    + split; [by intros ?; split|by intros [? _]].
  - by intros ->.
  - intros -> -> -> -> -> ->. by destruct (filters_aan k).
Qed.

Lemma sidebar_working_df_filters_witness :
  sidebar_working_df (rows example_frame)
    {| filters_aan := true; bron_filter := []; medium_filter := [];
       pfas_filter := ["PFOA"]; jaar_filter := [2020]; sampletype_filter := [];
       locatie_filter := [] |}
  = [row "PFOA" (Some 2020) (Some 3%Q) "µg/L"]
  /\ row "PFOA" (Some 2020) (Some 3%Q) "µg/L"
       ∈ sidebar_working_df (rows example_frame)
           {| filters_aan := true; bron_filter := []; medium_filter := [];
              pfas_filter := ["PFOA"]; jaar_filter := [2020];
              sampletype_filter := []; locatie_filter := [] |}.
Proof.
  split; [by vm_compute|].
  apply (proj1 (proj2 (sidebar_working_df_filters (rows example_frame) _))).
  split.
  - apply list_elem_of_further, list_elem_of_further, list_elem_of_here.
  - intros _. unfold passes, chosen. simpl.
    split; [by left|]. split; [by left|].
    split; [right; eexists; split; [done|apply list_elem_of_here]|].
    split; [right; eexists; split; [done|apply list_elem_of_here]|].
    split; by left.
Defined.

(** ** What the selectors offer *)

Lemma elem_of_unique {A} `{EqDecision A} (l : list A) (x : A) :
  x ∈ unique l <-> x ∈ l.
Proof.
  unfold unique. apply elem_of_nub_by. intros a b. apply bool_decide_eq_true.
Qed.

Lemma NoDup_unique {A} `{EqDecision A} (l : list A) : NoDup (unique l).
Proof.
  unfold unique. induction l as [|x l IH]; simpl; [constructor|].
  apply NoDup_cons. split.
  - rewrite list_elem_of_filter. intros [Hx _].
    by rewrite bool_decide_eq_true_2 in Hx.
  - by apply NoDup_filter.
Qed.

Lemma String_leb_trans (a b c : string) :
  String.leb a b = true -> String.leb b c = true -> String.leb a c = true.
Proof.
  intros Hab Hbc. apply Is_true_true.
  change (String.le a c). transitivity b; by apply Is_true_true.
Qed.

Lemma String_ltb_of_leb (a b : string) :
  String.leb a b = true -> a <> b -> String.ltb a b = true.
Proof.
  unfold String.leb, String.ltb. intros Hle Hne.
  destruct (String.compare a b) eqn:Hc; try done.
  by apply String.compare_eq_iff in Hc.
Qed.

Lemma StronglySorted_NoDup_strict {A} (R : A -> A -> Prop) (l : list A) :
  StronglySorted R l -> NoDup l -> StronglySorted (fun a b => R a b /\ a <> b) l.
Proof.
  induction 1 as [|x l Hs IH Hall]; intros Hnd; [constructor|].
  apply NoDup_cons in Hnd as [Hx Hnd]. constructor; [by apply IH|].
  rewrite Forall_forall in Hall |- *. intros y Hy. split; [by apply Hall|].
  by intros ->.
Qed.

Lemma sorted_strings_strict (l : list string) :
  NoDup l -> StronglySorted (fun a b => String.ltb a b = true) (sorted_strings l).
Proof.
  intros Hnd. unfold sorted_strings.
  eapply StronglySorted_weaken;
    [|apply (StronglySorted_NoDup_strict (fun a b => String.leb a b = true))].
  - intros a b [Hle Hne]. by apply String_ltb_of_leb.
  - apply sort_by_StronglySorted; [apply String.leb_total|apply String_leb_trans].
  - by rewrite sort_by_Permutation.
Qed.

Lemma sorted_years_strict (l : list Z) :
  NoDup l -> StronglySorted Z.lt (sorted_years l).
Proof.
  intros Hnd. unfold sorted_years.
  eapply StronglySorted_weaken;
    [|apply (StronglySorted_NoDup_strict (fun a b => Z.leb a b = true))].
  - intros a b [Hle Hne]. apply Z.leb_le in Hle. lia.
  - apply sort_by_StronglySorted.
    + intros x y. rewrite !Z.leb_le. lia.
    + intros x y z. rewrite !Z.leb_le. lia.
  - by rewrite sort_by_Permutation.
Qed.

Lemma string_options_spec (col : Row -> string) (df : list Row) :
  StronglySorted (fun a b => String.ltb a b = true) (string_options col df)
  /\ (forall x, x ∈ string_options col df <-> exists r, r ∈ df /\ col r = x).
Proof.
  split.
  - apply sorted_strings_strict, NoDup_unique.
  - intros x. unfold string_options, sorted_strings.
    rewrite sort_by_Permutation, elem_of_unique, list_elem_of_fmap.
    split; intros (r & ? & ?); by exists r.
Qed.

Lemma year_options_spec (df : list Row) :
  StronglySorted Z.lt (sorted_years (unique (omap Jaar df)))
  /\ (forall y, y ∈ sorted_years (unique (omap Jaar df))
        <-> exists r, r ∈ df /\ Jaar r = Some y).
Proof.
  split.
  - apply sorted_years_strict, NoDup_unique.
  - intros y. unfold sorted_years.
    rewrite sort_by_Permutation, elem_of_unique, list_elem_of_omap. done.
Qed.

Lemma elem_of_pfas_options (l : list string) (x : string) :
  x ∈ pfas_options l <-> x ∈ l.
Proof.
  unfold pfas_options, sorted_strings.
  rewrite elem_of_app, sort_by_Permutation, !list_elem_of_filter.
  destruct (decide (x ∈ top_pfas)); tauto.
Qed.

(** The substance selector offers every substance of its table exactly
    once: first those of the five best-known substances that occur, in
    their fixed order, then all others in ascending order.  The default
    entry computed for the time-series selector is always the first. *)
Theorem pfas_options_complete (col : list string) :
  let options := pfas_options (unique col) in
  NoDup options
  /\ (forall x, x ∈ options <-> x ∈ col)
  /\ (exists rest,
        options = filter (fun p => p ∈ col) top_pfas ++ rest
        /\ StronglySorted (fun a b => String.ltb a b = true) rest
        /\ forall x, x ∈ rest -> x ∉ top_pfas)
  /\ default_index options = 0%nat.
Proof.
  cbv zeta.
  assert (Htop : filter (fun p => p ∈ unique col) top_pfas
                 = filter (fun p => p ∈ col) top_pfas).
  { apply list_filter_iff. intros x. apply elem_of_unique. }
  assert (Hel : forall x, x ∈ pfas_options (unique col) <-> x ∈ col).
  { intros x. by rewrite elem_of_pfas_options, elem_of_unique. }
  split; [|split; [done|split]].
  - unfold pfas_options, sorted_strings. apply NoDup_app. split; [|split].
    + apply NoDup_filter. unfold top_pfas. by apply (bool_decide_unpack _).
    + intros x Hx. rewrite sort_by_Permutation, list_elem_of_filter. tauto.
    + rewrite sort_by_Permutation. apply NoDup_filter, NoDup_unique.
  - eexists. split; [unfold pfas_options; by rewrite Htop|]. split.
    + apply sorted_strings_strict, NoDup_filter, NoDup_unique.
    + intros x Hx. unfold sorted_strings in Hx.
      rewrite sort_by_Permutation in Hx.
      apply list_elem_of_filter in Hx as [Hnot Hx].
      intros Hx'. apply Hnot. apply list_elem_of_filter.
      split; [exact (proj1 (elem_of_unique _ _) Hx)|exact Hx'].
  - unfold default_index.
    destruct (list_find _ _) as [[i x]|] eqn:Hfind; [|done].
    apply list_find_Some in Hfind as (Hi & -> & Hleast).
    assert (Hcol : "PFOS" ∈ col).
    { apply Hel. by eapply list_elem_of_lookup_2. }
    destruct i as [|i]; [done|]. exfalso.
    apply (Hleast 0%nat "PFOS"); [|lia|done].
    unfold pfas_options. rewrite Htop. unfold top_pfas.
    rewrite filter_cons, decide_True by done. done.
Qed.

Lemma pfas_options_complete_witness :
  "PFOA" ∈ pfas_options (unique ["PFBA"; "PFOA"; "PFBA"; "PFOS"]).
Proof.
  apply (proj1 (proj2 (pfas_options_complete ["PFBA"; "PFOA"; "PFBA"; "PFOS"]))).
  apply list_elem_of_further, list_elem_of_here.
Defined.

Lemma NoDup_pfas_options (col : list string) : NoDup (pfas_options (unique col)).
Proof.
  unfold pfas_options, sorted_strings. apply NoDup_app. split; [|split].
  - apply NoDup_filter. unfold top_pfas. by apply (bool_decide_unpack _).
  - intros x Hx. rewrite sort_by_Permutation, list_elem_of_filter. tauto.
  - rewrite sort_by_Permutation. apply NoDup_filter, NoDup_unique.
Qed.

(** With the filters switched on, every option list of the sidebar holds
    exactly the values that occur in the rows passing the selections made
    above it.  The lists of sources, media, years, sample types and
    locations are strictly ascending; the list of substances, which puts
    the best-known ones first, is free of duplicates. *)
Theorem sidebar_options_sorted (df : list Row) (k : Keuzes) :
  let sb := sidebar_filters df k in
  let ascending := StronglySorted (fun a b => String.ltb a b = true) in
  let bron r := chosen (bron_filter k) (Some (Bron r)) in
  let medium r := chosen (medium_filter k) (Some (Medium r)) in
  let pfas r := chosen (pfas_filter k) (Some (PFAS r)) in
  let jaar r := chosen (jaar_filter k) (Jaar r) in
  let sampletype r := chosen (sampletype_filter k) (Some (Sampletype r)) in
  (ascending (bron_options sb)
   /\ forall x, x ∈ bron_options sb <-> exists r, r ∈ df /\ Bron r = x)
  /\ (ascending (medium_options sb)
      /\ forall x, x ∈ medium_options sb
            <-> exists r, r ∈ df /\ bron r /\ Medium r = x)
  /\ (NoDup (sidebar_pfas_options sb)
      /\ forall x, x ∈ sidebar_pfas_options sb
            <-> exists r, r ∈ df /\ bron r /\ medium r /\ PFAS r = x)
  /\ (StronglySorted Z.lt (jaar_options sb)
      /\ forall y, y ∈ jaar_options sb
            <-> exists r, r ∈ df /\ bron r /\ medium r /\ pfas r /\ Jaar r = Some y)
  /\ (ascending (sampletype_options sb)
      /\ forall x, x ∈ sampletype_options sb
            <-> exists r, r ∈ df /\ bron r /\ medium r /\ pfas r /\ jaar r
                          /\ Sampletype r = x)
  /\ (ascending (locatie_options sb)
      /\ forall x, x ∈ locatie_options sb
            <-> exists r, r ∈ df /\ bron r /\ medium r /\ pfas r /\ jaar r
                          /\ sampletype r /\ Locatie r = x).
Proof.
  cbv zeta. unfold sidebar_filters.
  cbn [bron_options medium_options sidebar_pfas_options jaar_options
       sampletype_options locatie_options].
  repeat split.
  all: try apply string_options_spec.
  all: try apply year_options_spec.
  all: try apply NoDup_pfas_options.
  - intros Hx. apply string_options_spec in Hx as (r & Hr & <-).
    rewrite !elem_of_keep_isin in Hr. exists r. tauto.
  - intros (r & Hr & ? & <-). apply string_options_spec. exists r.
    rewrite !elem_of_keep_isin. tauto.
  - intros Hx. rewrite elem_of_pfas_options, elem_of_unique in Hx.
    apply list_elem_of_fmap in Hx as (r & -> & Hr).
    rewrite !elem_of_keep_isin in Hr. exists r. tauto.
  - intros (r & Hr & ? & ? & <-). rewrite elem_of_pfas_options, elem_of_unique.
    apply list_elem_of_fmap. exists r. rewrite !elem_of_keep_isin. tauto.
  - intros Hy. apply year_options_spec in Hy as (r & Hr & Hy).
    rewrite !elem_of_keep_isin in Hr. exists r. tauto.
  - intros (r & Hr & ? & ? & ? & Hy). apply year_options_spec. exists r.
    rewrite !elem_of_keep_isin. tauto.
  - intros Hx. apply string_options_spec in Hx as (r & Hr & <-).
    rewrite !elem_of_keep_isin in Hr. exists r. tauto.
  - intros (r & Hr & ? & ? & ? & ? & <-). apply string_options_spec. exists r.
    rewrite !elem_of_keep_isin. tauto.
  - intros Hx. apply string_options_spec in Hx as (r & Hr & <-).
    rewrite !elem_of_keep_isin in Hr. exists r. tauto.
  - intros (r & Hr & ? & ? & ? & ? & ? & <-). apply string_options_spec. exists r.
    rewrite !elem_of_keep_isin. tauto.
Qed.

Lemma sidebar_options_sorted_witness :
  2019 ∈ jaar_options
           (sidebar_filters (rows example_frame)
              {| filters_aan := true; bron_filter := []; medium_filter := [];
                 pfas_filter := ["PFOS"]; jaar_filter := [];
                 sampletype_filter := []; locatie_filter := [] |})
  /\ "PFOA" ∈ sidebar_pfas_options
               (sidebar_filters (rows example_frame)
                  {| filters_aan := true; bron_filter := []; medium_filter := [];
                     pfas_filter := ["PFOS"]; jaar_filter := [];
                     sampletype_filter := []; locatie_filter := [] |}).
Proof.
  destruct (sidebar_options_sorted (rows example_frame)
              {| filters_aan := true; bron_filter := []; medium_filter := [];
                 pfas_filter := ["PFOS"]; jaar_filter := [];
                 sampletype_filter := []; locatie_filter := [] |})
    as (_ & _ & [_ Hpfas] & [_ Hjaar] & _).
  split.
  - apply Hjaar. exists (row "PFOS" (Some 2019) (Some 5%Q) "ng/L").
    split; [apply list_elem_of_here|].
    split; [by left|]. split; [by left|].
    split; [|reflexivity]. right. exists "PFOS". split; [reflexivity|].
    apply list_elem_of_here.
  - apply Hpfas. exists (row "PFOA" (Some 2020) (Some 3%Q) "µg/L").
    split; [do 2 apply list_elem_of_further; apply list_elem_of_here|].
    split; [by left|]. split; [by left|reflexivity].
Defined.

(** ** The selectors of the time series *)

Section nub_by_eq.
Context {K : Type} (eqb : K -> K -> bool).
Context (Heqb : forall a b, eqb a b = true <-> a = b).

Lemma NoDup_nub_by (l : list K) : NoDup (nub_by eqb l).
Proof.
  induction l as [|x l IH]; simpl; [constructor|].
  apply NoDup_cons. split.
  - rewrite list_elem_of_filter. intros [Hx _].
    by rewrite (proj2 (Heqb x x) eq_refl) in Hx.
  - by apply NoDup_filter.
Qed.

End nub_by_eq.

Lemma elem_of_sorted_unique {A} (f : A -> string) (l : list A) (x : string) :
  x ∈ sorted_strings (unique (map f l)) <-> exists y, y ∈ l /\ f y = x.
Proof.
  unfold sorted_strings.
  rewrite sort_by_Permutation, elem_of_unique, list_elem_of_fmap.
  split; intros (y & ? & ?); by exists y.
Qed.

Lemma offered_iff (vg : list (combo * nat)) (sel : Selection) :
  offered vg sel <-> exists n, (selection_combo sel, n) ∈ vg.
Proof.
  unfold offered, lijn_pfas_options, lijn_locatie_options, lijn_medium_options,
    lijn_bron_options, vg_med, vg_loc, vg_pfas.
  rewrite elem_of_pfas_options, elem_of_unique, list_elem_of_fmap.
  rewrite !elem_of_sorted_unique.
  split.
  - intros (_ & _ & _ & [[[[p l] m] b] n] & Hin & Hb).
    apply list_elem_of_filter in Hin as [Hm Hin].
    apply list_elem_of_filter in Hin as [Hl Hin].
    apply list_elem_of_filter in Hin as [Hp Hin].
    unfold combo_pfas, combo_locatie, combo_medium, combo_bron in *.
    simpl in *. subst. exists n. exact Hin.
  - intros [n Hin]. unfold selection_combo in Hin.
    split; [by exists (selection_combo sel, n)|].
    split; [exists (selection_combo sel, n); split; [|done];
            by apply list_elem_of_filter|].
    split; exists (selection_combo sel, n); (split; [|done]);
      repeat (apply list_elem_of_filter; split; [done|]); done.
Qed.

Section lijn_facts.
Context `{TextLib}.

Lemma selected_spec (sel : Selection) (r : Row) :
  selected sel r = true <-> combo_of r = selection_combo sel.
Proof.
  unfold selected, combo_of, selection_combo.
  rewrite !andb_true_iff, !String.eqb_eq. split.
  - intros [[[-> ->] ->] ->]. done.
  - intros [= -> -> -> ->]. done.
Qed.

Lemma length_norm_column (rs : list Row) : length (norm_column rs) = length rs.
Proof. unfold norm_column. by rewrite length_loc_set, length_map. Qed.

Lemma omap_jaar_zip (rs : list Row) (vs : list fcell) :
  length vs = length rs ->
  map fst (omap (fun rv : Row * fcell => k ← Jaar rv.1; Some (k, rv.2)) (zip rs vs))
  = omap Jaar rs.
Proof.
  revert vs. induction rs as [|r rs IH]; intros [|v vs] Hlen; try done.
  csimpl. injection Hlen as Hlen.
  destruct (Jaar r); csimpl; rewrite (IH vs Hlen); done.
Qed.

Lemma lijn_medians_years (sel : Selection) (f : Frame) :
  (lijn_medians sel f).*1
  = sorted_years (nub_by Z.eqb (omap Jaar (filter (selected sel) (rows f)))).
Proof.
  unfold lijn_medians, group_median, groupby, sorted_years.
  rewrite !map_map. simpl. rewrite map_id.
  do 2 f_equal.
  unfold plot_rows, lijn_frame. cbn [rows Waarde_plot default].
  apply omap_jaar_zip, length_norm_column.
Qed.

End lijn_facts.

Lemma size_years_nub (l : list Z) :
  size (list_to_set l : gset Z) = length (nub_by Z.eqb l).
Proof.
  rewrite <- (size_list_to_set (C := gset Z) (nub_by Z.eqb l))
    by apply (NoDup_nub_by _ Z.eqb_eq).
  f_equal. apply set_eq. intros y.
  by rewrite !elem_of_list_to_set, (elem_of_nub_by _ Z.eqb_eq).
Qed.

Lemma valid_combination (rs : list Row) (k : combo) :
  (exists n, (k, n) ∈ valid_groups rs) <-> (2 <= size (distinct_years k rs))%nat.
Proof.
  split.
  - intros [n Hn]. by apply elem_of_valid_groups in Hn as (_ & -> & ?).
  - intros Hsize. exists (size (distinct_years k rs)).
    apply elem_of_valid_groups. split; [|done].
    destruct (set_choose_L (distinct_years k rs)) as [y Hy].
    { intros Hempty. rewrite Hempty, size_empty in Hsize. lia. }
    apply elem_of_distinct_years in Hy as (r & Hr & <- & _).
    apply list_elem_of_fmap. by exists r.
Qed.

(** The four selectors of the time-series tab can be answered from what
    they offer exactly for the combinations with at least two distinct
    years.  The series drawn has one point per distinct year of the chosen
    combination, in strictly ascending order of year, so a series chosen
    from the selectors has at least two points. *)
Theorem lijn_series_of_offered `{TextLib}
    (s : store) (subset : ref) (sel : Selection) :
  let rs := rows (s !!! subset) in
  let series := (lijn_series subset sel s).1 in
  (offered (valid_groups rs) sel
   <-> (2 <= size (distinct_years (selection_combo sel) rs))%nat)
  /\ length series = size (distinct_years (selection_combo sel) rs)
  /\ StronglySorted Z.lt series.*1
  /\ (forall y, y ∈ series.*1
        <-> exists r, r ∈ rs /\ combo_of r = selection_combo sel /\ Jaar r = Some y)
  /\ (offered (valid_groups rs) sel -> (2 <= length series)%nat).
Proof.
  cbv zeta. destruct (lijn_series_run subset sel s) as [new ->]. cbn [fst].
  set (f := s !!! subset).
  assert (Hoff : offered (valid_groups (rows f)) sel
                 <-> (2 <= size (distinct_years (selection_combo sel) (rows f)))%nat).
  { by rewrite offered_iff, valid_combination. }
  assert (Hsel : filter (fun r => combo_eqb (selection_combo sel) (combo_of r)) (rows f)
                 = filter (selected sel) (rows f)).
  { apply list_filter_iff. intros r. rewrite !Is_true_true, selected_spec.
    unfold combo_eqb. rewrite bool_decide_eq_true. split; congruence. }
  assert (Hlen : length (lijn_medians sel f)
                 = size (distinct_years (selection_combo sel) (rows f))).
  { rewrite <- (length_map fst), lijn_medians_years.
    unfold sorted_years. rewrite length_sort_by.
    by rewrite distinct_years_group, Hsel, size_years_nub. }
  split; [done|]. split; [done|]. split; [|split].
  - rewrite lijn_medians_years. apply sorted_years_strict.
    apply (NoDup_nub_by _ Z.eqb_eq).
  - intros y. rewrite lijn_medians_years. unfold sorted_years.
    rewrite sort_by_Permutation, (elem_of_nub_by _ Z.eqb_eq), list_elem_of_omap.
    split.
    + intros (r & Hr & Hy). apply list_elem_of_filter in Hr as [Hs Hr].
      apply Is_true_true, selected_spec in Hs. by exists r.
    + intros (r & Hr & Hk & Hy). exists r. split; [|done].
      apply list_elem_of_filter. split; [|done].
      by apply Is_true_true, selected_spec.
  - intros Hoffered. rewrite Hlen. by apply Hoff.
Qed.

Lemma lijn_series_of_offered_witness :
  (2 <= length (lijn_series (H := AsciiText.lib) 0%nat example_selection
                  [example_frame]).1)%nat.
Proof.
  apply (proj2 (proj2 (proj2 (proj2
           (lijn_series_of_offered (H := AsciiText.lib)
              [example_frame] 0%nat example_selection))))).
  apply offered_iff. exists 2%nat. apply (bool_decide_unpack _). by vm_compute.
Defined.

(** The time-series tab tells an empty subset from a subset without a
    combination of two distinct years: the first gives the notice that
    there is no data, the second the warning that no series can be drawn,
    and a chart is drawn in every other case. *)
Theorem render_lijn_states `{TextLib} (s : store) (subset : ref) (sel : Selection) :
  let rs := rows (s !!! subset) in
  let view := (render_lijn subset sel s).1 in
  (view = LijnGeenData <-> rs = [])
  /\ (view = LijnGeenCombinatie
      <-> rs <> [] /\ forall k, (size (distinct_years k rs) < 2)%nat)
  /\ ((exists series, view = LijnChart series)
      <-> exists k, (2 <= size (distinct_years k rs))%nat).
Proof.
  cbv zeta. destruct (render_lijn_run subset sel s) as [new ->]. cbn [fst].
  unfold lijn_view. set (rs := rows (s !!! subset)).
  assert (Hvg : valid_groups rs = []
                <-> forall k, (size (distinct_years k rs) < 2)%nat).
  { split.
    - intros Hnil k. destruct (decide (2 <= size (distinct_years k rs))%nat) as [Hk|]; [|lia].
      apply valid_combination in Hk as [n Hn]. rewrite Hnil in Hn.
      by apply elem_of_nil in Hn.
    - intros Hall. destruct (valid_groups rs) as [|[k n] vg] eqn:Hv; [done|].
      assert (Hk : exists n, (k, n) ∈ valid_groups rs).
      { exists n. rewrite Hv. apply list_elem_of_here. }
      apply valid_combination in Hk. specialize (Hall k). lia. }
  assert (Hex : (exists k, (2 <= size (distinct_years k rs))%nat)
                <-> valid_groups rs <> []).
  { rewrite Hvg. split.
    - intros [k Hk] Hall. specialize (Hall k). lia.
    - intros Hnot. destruct (valid_groups rs) as [|[k n] vg] eqn:Hv.
      + exfalso. apply Hnot. by apply Hvg.
      + exists k. apply valid_combination. exists n. rewrite Hv.
        apply list_elem_of_here. }
  assert (Hempty : rs = [] -> valid_groups rs = []).
  { intros ->. done. }
  destruct rs as [|r rs'] eqn:Hrs.
  - split; [done|]. split.
    + split; [done|]. by intros [? _].
    + split; [by intros [? ?]|]. intros He. apply Hex in He.
      by rewrite Hempty in He.
  - rewrite <- Hrs in *. clear Hempty.
    destruct (valid_groups rs) as [|kn vg] eqn:Hv.
    + split; [by split; [|intros ->]|]. split.
      * split; [intros _|done]. split; [by intros ->|]. by apply Hvg.
      * split; [by intros [? ?]|]. intros He. by apply Hex in He.
    + split; [by split; [|intros ->]|]. split.
      * split; [done|]. intros [_ Hall]. by apply Hvg in Hall.
      * split; [intros _|by eauto]. by apply Hex.
Qed.

(** ** Mixed units and the bar-chart tab *)



Section units.
Context `{TextLib}.



End units.





(** The bar-chart tab draws a chart exactly when all rows of the subset
    carry one and the same substance, and then it is the chart
    [make_bar_by_location] makes of the subset with at most 25 locations;
    an empty subset gives the notice to select a substance, and a subset
    with two different substances the warning to select one. *)
Theorem render_staaf_states `{TextLib} `{SeriesSort} (s : store) (subset : ref) :
  let rs := rows (s !!! subset) in
  let view := (render_staaf subset s).1 in
  (view = StaafGeenPfas <-> rs = [])
  /\ (view = StaafMeerderePfas
      <-> exists r1 r2, r1 ∈ rs /\ r2 ∈ rs /\ PFAS r1 <> PFAS r2)
  /\ (forall pfas gevonden bars, view = StaafChart pfas gevonden bars ->
        rs <> [] /\ Forall (fun r => PFAS r = pfas) rs
        /\ bars = (make_bar_by_location subset 25 s).1).
Proof.
  cbv zeta. destruct (render_staaf_run subset s) as [new ->].
  destruct (make_bar_by_location_run subset 25 s) as [new' ->]. cbn [fst].
  unfold staaf_view. set (rs := rows (s !!! subset)).
  pose proof (NoDup_remove_dups (map PFAS rs)) as Hnd.
  assert (Hel : forall p, p ∈ remove_dups (map PFAS rs)
                          <-> exists r, r ∈ rs /\ PFAS r = p).
  { intros p. rewrite elem_of_remove_dups, list_elem_of_fmap.
    split; intros (r & ? & ?); by exists r. }
  destruct (remove_dups (map PFAS rs)) as [|p [|q l]] eqn:Hrd.
  - assert (Hnil : rs = []).
    { destruct rs as [|r rs']; [done|]. exfalso.
      assert (Hin : PFAS r ∈ @nil string).
      { apply Hel. exists r. split; [apply list_elem_of_here|done]. }
      by apply elem_of_nil in Hin. }
    split; [done|]. split; [|done].
    split; [done|]. intros (r1 & _ & Hr1 & _). rewrite Hnil in Hr1.
    by apply elem_of_nil in Hr1.
  - assert (Hall : Forall (fun r => PFAS r = p) rs).
    { apply Forall_forall. intros r Hr.
      assert (Hin : PFAS r ∈ [p]) by (apply Hel; by exists r).
      by apply list_elem_of_singleton in Hin. }
    assert (Hne : rs <> []).
    { intros Hnil. destruct (proj1 (Hel p)) as (r & Hr & _);
        [apply list_elem_of_here|]. rewrite Hnil in Hr.
      by apply elem_of_nil in Hr. }
    split; [by split; [|intros ?]|]. split.
    + split; [done|]. intros (r1 & r2 & Hr1 & Hr2 & Hne').
      rewrite Forall_forall in Hall.
      rewrite (Hall r1 Hr1), (Hall r2 Hr2) in Hne'. done.
    + intros pfas gevonden bars [= <- <- <-]. done.
  - split; [|split; [|done]].
    + split; [done|]. intros Hnil.
      destruct (proj1 (Hel p)) as (r & Hr & _); [apply list_elem_of_here|].
      rewrite Hnil in Hr. by apply elem_of_nil in Hr.
    + split; [intros _|done].
      destruct (proj1 (Hel p)) as (r1 & Hr1 & Hp1); [apply list_elem_of_here|].
      destruct (proj1 (Hel q)) as (r2 & Hr2 & Hp2);
        [apply list_elem_of_further, list_elem_of_here|].
      exists r1, r2. split; [done|]. split; [done|].
      rewrite Hp1, Hp2. apply NoDup_cons in Hnd as [Hp _].
      intros ->. apply Hp, list_elem_of_here.
Qed.

Lemma render_staaf_states_witness :
  (render_staaf (H := AsciiText.lib) (H0 := InsertionSort.lib)
     0%nat [example_frame]).1 = StaafMeerderePfas.
Proof.
  apply (proj2 (proj1 (proj2
           (render_staaf_states (H := AsciiText.lib) (H0 := InsertionSort.lib)
              [example_frame] 0%nat)))).
  exists (row "PFOS" (Some 2019) (Some 5%Q) "ng/L"),
         (row "PFOA" (Some 2020) (Some 3%Q) "µg/L").
  split; [apply list_elem_of_here|].
  split; [apply list_elem_of_further, list_elem_of_further, list_elem_of_here|].
  by vm_compute.
Defined.

(** ** The bar chart *)

Section sort_filter.
Context {A : Type} (leb : A -> A -> bool).
Context (Htrans : forall x y z, leb x y = true -> leb y z = true -> leb x z = true).

Lemma insert_by_front (x : A) (l : list A) :
  Forall (fun y => leb x y = true) l -> insert_by leb x l = x :: l.
Proof. intros Hall. destruct Hall as [|y l Hy _]; simpl; [done|by rewrite Hy]. Qed.

Lemma filter_insert_by (p : A -> Prop) `{forall x, Decision (p x)}
    (x : A) (l : list A) :
  StronglySorted (fun a b => leb a b = true) l ->
  filter p (insert_by leb x l)
  = if decide (p x) then insert_by leb x (filter p l) else filter p l.
Proof.
  induction 1 as [|y l Hs IH Hall]; simpl.
  { rewrite filter_cons. by destruct (decide (p x)). }
  destruct (leb x y) eqn:Hxy.
  - rewrite (filter_cons _ x). destruct (decide (p x)) as [Hpx|Hpx]; [|done].
    rewrite filter_cons. destruct (decide (p y)) as [Hpy|Hpy].
    + simpl. by rewrite Hxy.
    + symmetry. apply insert_by_front. apply Forall_forall. intros z Hz.
      apply list_elem_of_filter in Hz as [_ Hz].
      rewrite Forall_forall in Hall. eapply Htrans; [exact Hxy|by apply Hall].
  - rewrite (filter_cons _ y), IH. rewrite (filter_cons _ y).
    destruct (decide (p y)) as [Hpy|Hpy]; [|done].
    destruct (decide (p x)); [|done]. simpl. by rewrite Hxy.
Qed.

Context (Htotal : forall x y, leb x y = true \/ leb y x = true).

Lemma filter_sort_by (p : A -> Prop) `{forall x, Decision (p x)} (l : list A) :
  filter p (sort_by leb l) = sort_by leb (filter p l).
Proof.
  induction l as [|x l IH]; [done|].
  change (sort_by leb (x :: l)) with (insert_by leb x (sort_by leb l)).
  rewrite filter_insert_by by (by apply sort_by_StronglySorted).
  rewrite filter_cons. destruct (decide (p x)); simpl; by rewrite IH.
Qed.

End sort_filter.

Lemma filter_all {A} (p : A -> Prop) `{forall x, Decision (p x)} (l : list A) :
  Forall p l -> filter p l = l.
Proof.
  induction 1 as [|x l Hx _ IH]; [done|].
  by rewrite filter_cons, decide_True, IH.
Qed.

Lemma filter_none {A} (p : A -> Prop) `{forall x, Decision (p x)} (l : list A) :
  Forall (fun x => ~ p x) l -> filter p l = [].
Proof.
  induction 1 as [|x l Hx _ IH]; [done|].
  by rewrite filter_cons, decide_False, IH.
Qed.

Lemma filter_keys_app {K V} `{EqDecision K} (l1 l2 : list (K * V)) :
  NoDup (l1 ++ l2).*1 ->
  filter (fun kv => kv.1 ∈ l1.*1) (l1 ++ l2) = l1.
Proof.
  intros Hnd. rewrite fmap_app in Hnd.
  apply NoDup_app in Hnd as (_ & Hdisj & _).
  rewrite filter_app, filter_all, filter_none; [by rewrite app_nil_r| |].
  - apply Forall_forall. intros [k v] Hkv Hin. simpl in Hin.
    apply (Hdisj k Hin). apply list_elem_of_fmap. by exists (k, v).
  - apply Forall_forall. intros [k v] Hkv. simpl.
    apply list_elem_of_fmap. by exists (k, v).
Qed.

Lemma filter_take_keys {K V} `{EqDecision K} (n : nat) (l : list (K * V)) :
  NoDup l.*1 ->
  filter (fun kv => kv.1 ∈ (take n l).*1) l = take n l.
Proof.
  intros Hnd. rewrite <- (take_drop n l) in Hnd.
  pose proof (filter_keys_app (take n l) (drop n l) Hnd) as Hf.
  by rewrite take_drop in Hf.
Qed.

Section nub_filter.
Context {K : Type} (eqb : K -> K -> bool).
Context (Heqb : forall a b, eqb a b = true <-> a = b).

Lemma nub_by_filter (p : K -> Prop) `{forall x, Decision (p x)} (l : list K) :
  nub_by eqb (filter p l) = filter p (nub_by eqb l).
Proof.
  induction l as [|x l IH]; [done|].
  rewrite filter_cons. cbn [nub_by]. destruct (decide (p x)) as [Hp|Hp].
  - cbn [nub_by]. rewrite filter_cons, decide_True by done. f_equal.
    rewrite IH. rewrite !list_filter_filter. apply list_filter_iff. tauto.
  - rewrite filter_cons, decide_False by done. rewrite IH.
    rewrite list_filter_filter. apply list_filter_iff. intros y.
    split; [|tauto]. intros Hy. split; [done|].
    destruct (eqb x y) eqn:Hxy; [|done].
    apply Heqb in Hxy as ->. done.
Qed.

End nub_filter.

Lemma filter_fmap_fst {K V} (p : K -> Prop) `{forall x, Decision (p x)}
    (l : list (K * V)) :
  (filter (fun kv => p kv.1) l).*1 = filter p l.*1.
Proof.
  induction l as [|[k v] l IH]; [done|].
  rewrite fmap_cons, !filter_cons. cbn [fst].
  destruct (decide (p k)); [rewrite fmap_cons|]; by rewrite IH.
Qed.

Lemma fmap_filter_ext {A B} (q : A -> Prop) `{forall x, Decision (q x)}
    (q' : B -> Prop) `{forall x, Decision (q' x)} (g g' : A -> B) (l : list A) :
  (forall x, q' (g x) <-> q x) -> (forall x, q x -> g' x = g x) ->
  map g' (filter q l) = filter q' (map g l).
Proof.
  intros Hq Hg. induction l as [|x l IH]; [done|].
  cbn [map]. rewrite !filter_cons. destruct (decide (q x)) as [Hx|Hx].
  - rewrite decide_True by (by apply Hq). cbn [map]. by rewrite IH, Hg.
  - rewrite decide_False by (by rewrite Hq). done.
Qed.

Lemma loc_get_nil {A} (mask : list bool) : loc_get mask (@nil A) = [].
Proof. by destruct mask as [|[] ?]. Qed.

Lemma location_pairs_select (p : string -> Prop) `{forall x, Decision (p x)}
    (rs : list Row) (col : list fcell) :
  omap (fun rv : Row * fcell => k ← Some (Locatie rv.1); Some (k, rv.2))
       (zip (loc_get (map (fun r => bool_decide (p (Locatie r))) rs) rs)
            (loc_get (map (fun r => bool_decide (p (Locatie r))) rs) col))
  = filter (fun kv => p kv.1)
      (omap (fun rv : Row * fcell => k ← Some (Locatie rv.1); Some (k, rv.2))
            (zip rs col)).
Proof.
  revert col. induction rs as [|r rs IH]; intros col; [done|].
  destruct col as [|v col].
  { rewrite loc_get_nil. generalize (loc_get (map (fun r0 => bool_decide (p (Locatie r0))) (r :: rs)) (r :: rs)).
    intros l. by destruct l. }
  cbn [map loc_get]. destruct (decide (p (Locatie r))) as [Hp|Hp].
  - rewrite bool_decide_eq_true_2 by done. csimpl.
    rewrite filter_cons, decide_True by done. by rewrite IH.
  - rewrite bool_decide_eq_false_2 by done. csimpl.
    rewrite filter_cons, decide_False by done. by rewrite IH.
Qed.

(** The sort of the examples is one [sort_values] may be. *)
Lemma desc_leb_total (a b : string * fcell) :
  InsertionSort.desc_leb a b = true \/ InsertionSort.desc_leb b a = true.
Proof.
  unfold InsertionSort.desc_leb. destruct a.2 as [x|], b.2 as [y|]; try tauto.
  rewrite !Qle_bool_iff. destruct (Qlt_le_dec x y); [right|left]; lra.
Qed.

Lemma desc_leb_trans (a b c : string * fcell) :
  InsertionSort.desc_leb a b = true -> InsertionSort.desc_leb b c = true ->
  InsertionSort.desc_leb a c = true.
Proof.
  unfold InsertionSort.desc_leb.
  destruct a.2 as [x|], b.2 as [y|], c.2 as [z|]; try done.
  rewrite !Qle_bool_iff. lra.
Qed.

Lemma desc_leb_spec (a b : string * fcell) :
  InsertionSort.desc_leb a b = true <-> median_ge a b.
Proof.
  unfold InsertionSort.desc_leb, median_ge. destruct a.2, b.2; try done.
  apply Qle_bool_iff.
Qed.

Lemma insertion_sort_spec : @sort_values_spec InsertionSort.lib.
Proof.
  intros s. split; [apply sort_by_Permutation|].
  eapply StronglySorted_weaken;
    [|apply sort_by_StronglySorted; [apply desc_leb_total|apply desc_leb_trans]].
  intros a b. apply desc_leb_spec.
Qed.

Lemma StronglySorted_take {A} (R : A -> A -> Prop) (n : nat) (l : list A) :
  StronglySorted R l -> StronglySorted R (take n l).
Proof.
  intros Hs. revert n. induction Hs as [|x l Hs IH Hall]; intros [|n]; simpl;
    try constructor; [by apply IH|].
  apply Forall_forall. intros y Hy. rewrite Forall_forall in Hall.
  apply Hall. by apply (subseteq_take n l).
Qed.

(** The median of a column is the median of its numbers. *)
Lemma median_spec (col : list fcell) : is_median (omap id col) (median col).
Proof.
  unfold median, is_median.
  set (vs := omap id col). set (xs := sort_by Qle_bool vs).
  assert (Hlen : length xs = length vs) by apply length_sort_by.
  assert (Hperm : xs ≡ₚ vs) by apply sort_by_Permutation.
  assert (Hsorted : StronglySorted Qle xs).
  { eapply StronglySorted_weaken; [|apply sort_by_StronglySorted].
    - intros a b. apply Qle_bool_iff.
    - intros x y. rewrite !Qle_bool_iff.
      destruct (Qlt_le_dec x y); [left|right]; lra.
    - intros x y z. rewrite !Qle_bool_iff. lra. }
  rewrite Hlen. clearbody xs.
  destruct (length vs =? 0)%nat eqn:H0.
  { apply Nat.eqb_eq in H0. by apply length_zero_iff_nil. }
  apply Nat.eqb_neq in H0.
  assert (Hmid : (length vs / 2 < length xs)%nat).
  { rewrite Hlen. apply Nat.div_lt; lia. }
  destruct (lookup_lt_is_Some_2 xs _ Hmid) as [b Hb].
  destruct (Nat.odd (length vs)) eqn:Hodd.
  - rewrite Hb. by exists xs.
  - assert (Hlow : (length vs / 2 - 1 < length xs)%nat) by lia.
    destruct (lookup_lt_is_Some_2 xs _ Hlow) as [a Ha].
    rewrite Ha, Hb. exists xs.
    split; [done|]. split; [done|]. by exists a, b.
Qed.

Section bar_chart.
Context `{TextLib} `{SeriesSort}.

Lemma group_median_select (tmp : list string) (pf : Frame) (col : list fcell) :
  Waarde_plot pf = Some col ->
  group_median String.eqb String.leb (fun r => Some (Locatie r))
    (select (map (fun r => bool_decide (Locatie r ∈ tmp)) (rows pf)) pf)
  = filter (fun kv => kv.1 ∈ tmp)
      (group_median String.eqb String.leb (fun r => Some (Locatie r)) pf).
Proof.
  intros Hcol. unfold group_median, groupby, plot_rows, select.
  rewrite Hcol. cbn [rows Waarde_plot default fmap option_fmap option_map].
  unfold id.
  pose proof (location_pairs_select (fun x => x ∈ tmp) (rows pf) col) as Hsel.
  cbv beta in Hsel. rewrite Hsel. clear Hsel.
  set (pairs := omap _ (zip (rows pf) col)).
  rewrite !map_map. cbn [fst snd].
  pose proof (filter_fmap_fst (fun x => x ∈ tmp) pairs) as Hfst.
  cbv beta in Hfst.
  change ((filter (fun kv : string * fcell => kv.1 ∈ tmp) pairs).*1)
    with (map fst (filter (fun kv : string * fcell => kv.1 ∈ tmp) pairs)) in Hfst.
  rewrite Hfst. clear Hfst.
  change (pairs.*1) with (map fst pairs).
  rewrite (nub_by_filter _ String.eqb_eq).
  rewrite <- (filter_sort_by String.leb String_leb_trans String.leb_total
                (fun x => x ∈ tmp)).
  apply (fmap_filter_ext (fun k => k ∈ tmp) (fun kv : string * fcell => kv.1 ∈ tmp)).
  - done.
  - intros k Hk. do 3 f_equal.
    rewrite list_filter_filter. apply list_filter_iff. intros [k' v]. simpl.
    split; [tauto|]. intros Hkk. split; [done|].
    apply Is_true_true, String.eqb_eq in Hkk. by subst.
Qed.

Lemma NoDup_group_median (f : Frame) :
  NoDup (group_median String.eqb String.leb (fun r => Some (Locatie r)) f).*1.
Proof.
  unfold group_median, groupby.
  change (NoDup (map fst (map (fun kg : string * list (string * fcell) =>
                                 (kg.1, median (map snd kg.2)))
                   (map (fun k => (k, filter (fun r : string * fcell => String.eqb k r.1)
                                        (omap (fun rv : Row * fcell =>
                                                 k0 ← Some (Locatie rv.1); Some (k0, rv.2))
                                              (plot_rows f))))
                        (sort_by String.leb
                           (nub_by String.eqb
                              (map fst (omap (fun rv : Row * fcell =>
                                                k0 ← Some (Locatie rv.1); Some (k0, rv.2))
                                             (plot_rows f))))))))).
  rewrite !map_map. cbn [fst]. rewrite map_id, sort_by_Permutation.
  apply (NoDup_nub_by _ String.eqb_eq).
Qed.

(** Whatever the order among equal medians, the bars are the first
    [max_locations] entries of the sorted medians, in descending order. *)
Lemma bar_heights_perm (max_locations : nat) (f : Frame) :
  sort_values_spec ->
  bar_heights max_locations f
  ≡ₚ take max_locations (sort_values (location_medians f))
  /\ StronglySorted median_ge (bar_heights max_locations f).
Proof.
  intros Hspec. unfold bar_heights, location_medians.
  set (medians := group_median _ _ _ (bar_frame f)).
  rewrite (group_median_select _ (bar_frame f) _ eq_refl). fold medians.
  split; [|apply Hspec].
  rewrite (proj1 (Hspec _)).
  change (map fst (take max_locations (sort_values medians)))
    with ((take max_locations (sort_values medians)).*1).
  transitivity (filter (fun kv : string * fcell =>
                          kv.1 ∈ (take max_locations (sort_values medians)).*1)
                       (sort_values medians)).
  - apply (filter_Permutation _). symmetry. apply Hspec.
  - rewrite filter_take_keys; [done|].
    rewrite (proj1 (Hspec medians)). apply NoDup_group_median.
Qed.

Lemma valid_locatie_spec (r : Row) :
  valid_locatie r = true <-> usable_name (Locatie r).
Proof.
  unfold valid_locatie, usable_name.
  by rewrite andb_true_iff, !negb_true_iff, !String.eqb_neq.
Qed.

Lemma derived_value_label (r : Row) :
  (microgram_label (Eenheid r) -> derived_value r = fmul 1000 (Waarde r))
  /\ (~ microgram_label (Eenheid r) -> derived_value r = Waarde r).
Proof.
  unfold derived_value, microgram_label, fmul.
  destruct (decide (str_lower (Eenheid r) = "ug/l")) as [H1|H1];
    destruct (decide (str_lower (Eenheid r) = "µg/l")) as [H2|H2].
  all: rewrite ?(bool_decide_eq_true_2 _ H1), ?(bool_decide_eq_false_2 _ H1),
         ?(bool_decide_eq_true_2 _ H2), ?(bool_decide_eq_false_2 _ H2).
  all: destruct (Waarde r); simpl; split; try done; try tauto.
Qed.

Lemma bar_frame_column (f : Frame) :
  Waarde_plot (bar_frame f) = Some (map derived_value (rows (bar_frame f))).
Proof.
  destruct (bar_frame_normalised f) as (wp & Hwp & Hlen & Hcol).
  rewrite Hwp. f_equal. apply list_eq. intros i. rewrite list_lookup_fmap.
  destruct (rows (bar_frame f) !! i) as [r|] eqn:Hi.
  - destruct (Hcol i r Hi) as (v & -> & Hug & Hno & _). simpl. f_equal.
    destruct (derived_value_label r) as [Hd1 Hd2].
    destruct (decide (microgram_label (Eenheid r))) as [Hl|Hl].
    + by rewrite Hug, Hd1.
    + by rewrite Hno, Hd2.
  - simpl. apply lookup_ge_None. apply lookup_ge_None in Hi. lia.
Qed.

Lemma location_pairs_map (rs : list Row) :
  omap (fun rv : Row * fcell => k ← Some (Locatie rv.1); Some (k, rv.2))
       (zip rs (map derived_value rs))
  = map (fun r => (Locatie r, derived_value r)) rs.
Proof. induction rs as [|r rs IH]; [done|]. cbn. by rewrite <- IH. Qed.

Lemma location_group_values (k : string) (rs : list Row) :
  map snd (filter (fun p : string * fcell => String.eqb k p.1)
                  (map (fun r => (Locatie r, derived_value r)) rs))
  = map derived_value (filter (fun r => Locatie r = k) rs).
Proof.
  induction rs as [|r rs IH]; [done|].
  cbn [map]. rewrite !filter_cons. cbn [fst].
  destruct (decide (Locatie r = k)) as [Hk|Hk].
  - rewrite decide_True by (apply Is_true_true, String.eqb_eq; done).
    cbn [map snd]. by rewrite IH.
  - rewrite decide_False; [done|].
    intros Heq. apply Hk. by apply Is_true_true, String.eqb_eq in Heq.
Qed.

Lemma location_values_valid (loc : string) (rs : list Row) :
  usable_name loc ->
  omap id (map derived_value
             (filter (fun r => Locatie r = loc) (filter valid_locatie rs)))
  = location_values rs loc.
Proof.
  intros Hloc. unfold location_values. induction rs as [|r rs IH]; [done|].
  csimpl. rewrite filter_cons.
  destruct (decide (Locatie r = loc)) as [Hk|Hk].
  - rewrite decide_True.
    2:{ apply Is_true_true, valid_locatie_spec. by rewrite Hk. }
    rewrite filter_cons, decide_True by done. csimpl. by rewrite IH.
  - destruct (decide (valid_locatie r)); [|done].
    by rewrite filter_cons, decide_False.
Qed.

Lemma elem_of_location_medians (f : Frame) (loc : string) :
  loc ∈ (location_medians f).*1
  <-> exists r, r ∈ rows f /\ valid_locatie r = true /\ Locatie r = loc.
Proof.
  unfold location_medians, group_median, groupby.
  change (loc ∈ map fst (map (fun kg : string * list (string * fcell) =>
                                (kg.1, median (map snd kg.2)))
                  (map (fun k => (k, filter (fun r : string * fcell => String.eqb k r.1)
                                       (omap (fun rv : Row * fcell =>
                                                k0 ← Some (Locatie rv.1); Some (k0, rv.2))
                                             (plot_rows (bar_frame f)))))
                       (sort_by String.leb
                          (nub_by String.eqb
                             (map fst (omap (fun rv : Row * fcell =>
                                               k0 ← Some (Locatie rv.1); Some (k0, rv.2))
                                            (plot_rows (bar_frame f))))))))
          <-> exists r, r ∈ rows f /\ valid_locatie r = true /\ Locatie r = loc).
  rewrite !map_map. cbn [fst]. rewrite map_id, sort_by_Permutation.
  rewrite (elem_of_nub_by _ String.eqb_eq).
  unfold plot_rows. rewrite bar_frame_column. cbn [default from_option]. unfold id.
  rewrite location_pairs_map, map_map. cbn [fst].
  unfold bar_frame. cbn [rows]. rewrite list_elem_of_fmap.
  split.
  - intros (r & -> & Hr). apply list_elem_of_filter in Hr as [Hv Hr].
    exists r. split; [done|]. split; [by apply Is_true_true|done].
  - intros (r & Hr & Hv & <-). exists r. split; [done|].
    apply list_elem_of_filter. split; [by apply Is_true_true|done].
Qed.

(** An entry of the medians per location carries the median of the
    derived values of the rows of its location. *)
Lemma location_medians_value (f : Frame) (loc : string) (m : fcell) :
  (loc, m) ∈ location_medians f ->
  usable_name loc /\ is_median (location_values (rows f) loc) m.
Proof.
  intros Hin.
  assert (Hloc : usable_name loc).
  { destruct (proj1 (elem_of_location_medians f loc)) as (r & _ & Hv & <-).
    - apply list_elem_of_fmap. by exists (loc, m).
    - by apply valid_locatie_spec. }
  split; [done|].
  unfold location_medians, group_median, groupby in Hin.
  unfold plot_rows in Hin. rewrite bar_frame_column in Hin.
  cbn [default from_option] in Hin. unfold id in Hin.
  rewrite location_pairs_map in Hin.
  apply list_elem_of_fmap in Hin as ([k g] & Heq & Hkg).
  apply list_elem_of_fmap in Hkg as (k' & Heq' & _).
  cbn [fst snd] in Heq. injection Heq' as -> ->. injection Heq as -> ->.
  rewrite location_group_values.
  rewrite <- (location_values_valid k' (rows f) Hloc).
  apply median_spec.
Qed.

End bar_chart.

(** The bar chart shows the locations with the highest medians.  Each bar
    stands for a location whose name is usable, and its height is the
    median of the derived values of the rows of that location; there are
    at most [max_locations] bars, one per location, from high to low with
    missing medians last.  A location with a usable name is left out only
    when the chart is full, and then its median is above that of no bar.
    The order among equal medians is that of [sort_values]. *)
Theorem make_bar_top_locations `{TextLib} `{SeriesSort}
    (s : store) (df : ref) (max_locations : nat) :
  sort_values_spec ->
  let rs := rows (s !!! df) in
  let bars := (make_bar_by_location df max_locations s).1 in
  (length bars <= max_locations)%nat
  /\ NoDup bars.*1
  /\ StronglySorted median_ge bars
  /\ (forall loc m, (loc, m) ∈ bars ->
        (exists r, r ∈ rs /\ Locatie r = loc)
        /\ usable_name loc
        /\ is_median (location_values rs loc) m)
  /\ (forall r, r ∈ rs -> usable_name (Locatie r) -> Locatie r ∉ bars.*1 ->
        length bars = max_locations
        /\ exists m, is_median (location_values rs (Locatie r)) m
                     /\ forall b, b ∈ bars -> median_ge b (Locatie r, m)).
Proof.
  intros Hspec. cbv zeta.
  destruct (make_bar_by_location_run df max_locations s) as [new ->]. cbn [fst].
  set (f := s !!! df).
  destruct (bar_heights_perm max_locations f Hspec) as [Hperm Hsorted].
  set (medians := location_medians f) in *.
  destruct (Hspec medians) as [Hsv Hsvs].
  assert (Hnd : NoDup (sort_values medians).*1).
  { rewrite Hsv. apply NoDup_group_median. }
  split; [rewrite Hperm, length_take; lia|].
  split.
  { rewrite Hperm.
    rewrite <- (take_drop max_locations (sort_values medians)) in Hnd.
    rewrite fmap_app in Hnd. by apply NoDup_app in Hnd as [? _]. }
  split; [done|]. split.
  - intros loc m Hbar. rewrite Hperm in Hbar.
    apply (subseteq_take _ _) in Hbar. rewrite Hsv in Hbar.
    destruct (location_medians_value f loc m Hbar) as [Hloc Hmed].
    split; [|done].
    destruct (proj1 (elem_of_location_medians f loc)) as (r & Hr & _ & Hlr).
    { apply list_elem_of_fmap. by exists (loc, m). }
    by exists r.
  - intros r Hr Hname Hnot.
    assert (Hkey : Locatie r ∈ (location_medians f).*1).
    { apply elem_of_location_medians. exists r.
      split; [done|]. split; [by apply valid_locatie_spec|done]. }
    apply list_elem_of_fmap in Hkey as ([loc m] & Hloc & Hentry).
    simpl in Hloc. subst loc.
    assert (Hsorted_entry : (Locatie r, m) ∈ sort_values medians) by (by rewrite Hsv).
    rewrite <- (take_drop max_locations (sort_values medians)) in Hsorted_entry, Hsvs.
    apply elem_of_app in Hsorted_entry as [Htake|Hdrop].
    { exfalso. apply Hnot. rewrite Hperm. apply list_elem_of_fmap.
      by exists (Locatie r, m). }
    split.
    + rewrite Hperm, length_take. apply Nat.min_l.
      destruct (decide (max_locations <= length (sort_values medians))%nat); [done|].
      rewrite drop_ge in Hdrop by lia. by apply elem_of_nil in Hdrop.
    + exists m. split; [by apply (location_medians_value f)|].
      intros b Hb. rewrite Hperm in Hb.
      by apply (StronglySorted_app_1_elem_of _ _ _ _ _ Hsvs).
Qed.

Lemma make_bar_top_locations_witness :
  is_median [5 # 1; 7 # 1; 3 * 1000]%Q (Some 7%Q)
  /\ (make_bar_by_location (H := AsciiText.lib) (H0 := InsertionSort.lib)
        0%nat 25 [example_frame]).1 = [("LocA", Some 7%Q)].
Proof.
  destruct (make_bar_top_locations (H := AsciiText.lib) (H0 := InsertionSort.lib)
              [example_frame] 0%nat 25 insertion_sort_spec)
    as (_ & _ & _ & Hbars & _).
  assert (Hrun : (make_bar_by_location (H := AsciiText.lib) (H0 := InsertionSort.lib)
                    0%nat 25 [example_frame]).1 = [("LocA", Some 7%Q)])
    by reflexivity.
  split; [|exact Hrun].
  apply (Hbars "LocA" (Some 7%Q)). rewrite Hrun. apply list_elem_of_here.
Defined.

Lemma render_lijn_states_witness :
  exists series,
    (render_lijn (H := AsciiText.lib) 0%nat example_selection [example_frame]).1
    = LijnChart series.
Proof.
  apply (proj2 (proj2 (proj2
           (render_lijn_states (H := AsciiText.lib)
              [example_frame] 0%nat example_selection)))).
  exists ("PFOS", "LocA", "water", "RWS"). vm_compute. lia.
Defined.

(** ** The counts of the sidebar and the map *)

Lemma dropna_coords_filter (df : list Row) :
  dropna_coords df = filter has_coords df.
Proof.
  unfold dropna_coords, with_coords.
  induction df as [|r df IH]; [done|].
  rewrite filter_cons. csimpl. rewrite <- IH.
  destruct (decide (has_coords r)) as [Hr|Hr]; unfold has_coords in Hr;
    destruct (Latitude r), (Longitude r); try done.
  all: by exfalso; apply Hr.
Qed.

Lemma dropna_coords_idemp (df : list Row) :
  dropna_coords (dropna_coords df) = dropna_coords df.
Proof.
  rewrite !dropna_coords_filter. induction df as [|r df IH]; [done|].
  rewrite filter_cons. destruct (decide (has_coords r)) as [Hr|Hr]; [|done].
  by rewrite filter_cons, decide_True, IH by done.
Qed.

Lemma length_remove_dups `{EqDecision A} (l : list A) :
  (length (remove_dups l) <= length l)%nat.
Proof.
  induction l as [|x l IH]; [done|]. simpl.
  destruct (decide_rel _ x l); simpl; lia.
Qed.

(** The counts in the sidebar agree with the map tab: the rows with
    coordinates are among the filtered rows, the notice that there is no
    data appears exactly when no row is left, the notice that no row has
    coordinates exactly when rows are left but none has both coordinates,
    and when a map is drawn the counts on its markers add up to the number
    of rows with coordinates shown in the sidebar. *)
Theorem dashboard_counts `{TextLib} `{SeriesSort}
    (s : store) (working_df : ref) (kaarttype : Kaarttype) (sel : Selection) :
  let v := (dashboard working_df kaarttype sel s).1 in
  (n_map v <= n_rows v)%nat
  /\ (n_loc v <= n_rows v)%nat
  /\ (n_rows v <= length (rows (s !!! working_df)))%nat
  /\ (n_loc v = 0%nat <-> n_rows v = 0%nat)
  /\ (tab_kaart v = KaartGeenData <-> n_rows v = 0%nat)
  /\ (tab_kaart v = KaartGeenCoords <-> n_rows v <> 0%nat /\ n_map v = 0%nat)
  /\ (forall m, tab_kaart v = KaartMap m ->
        sum_list_with marker_icon (map_markers m) = n_map v
        /\ (1 <= length (map_markers m) <= n_map v)%nat).
Proof.
  cbv zeta. rewrite dashboard_run.
  cbn [views_of n_rows n_loc n_map tab_kaart].
  set (f := subset_frame (s !!! working_df)).
  split; [rewrite dropna_coords_filter; apply length_filter|].
  split; [etrans; [apply length_remove_dups|by rewrite length_map]|].
  split; [subst f; rewrite rows_subset_frame; apply length_filter|].
  split.
  { destruct (rows f) as [|r rs] eqn:Hrows; [done|]. split; [|done].
    intros Hnil. apply length_zero_iff_nil in Hnil.
    assert (Hin : Locatie r ∈ remove_dups (map Locatie (r :: rs))).
    { apply elem_of_remove_dups. apply list_elem_of_here. }
    rewrite Hnil in Hin. by apply elem_of_nil in Hin. }
  unfold kaart_view. rewrite dropna_coords_filter.
  destruct (rows f) as [|r0 rs] eqn:Hrows.
  { split; [done|]. split; [split; [done|by intros [? _]]|done]. }
  destruct (filter has_coords (r0 :: rs)) as [|r1 kept] eqn:Hkept.
  { split; [done|]. split; [done|done]. }
  split; [done|]. split; [split; [done|by intros [_ ?]]|].
  intros m [= <-].
  destruct (marker_counts (r1 :: kept) kaarttype) as (Hsum & Hpos & Hlen).
  assert (Hid : dropna_coords (r1 :: kept) = r1 :: kept).
  { rewrite <- Hkept, <- dropna_coords_filter. apply dropna_coords_idemp. }
  rewrite Hid in Hsum, Hlen. split; [done|]. split; [|done].
  destruct (map_markers (make_map (r1 :: kept) kaarttype)); [done|simpl; lia].
Qed.

Lemma dashboard_counts_witness :
  tab_kaart (dashboard (H := AsciiText.lib) (H0 := InsertionSort.lib)
               0%nat Normaal example_selection
               [example_frame]).1 <> KaartGeenData.
Proof.
  intros Hv.
  apply (proj1 (proj1 (proj2 (proj2 (proj2 (proj2
           (dashboard_counts (H := AsciiText.lib) (H0 := InsertionSort.lib) [example_frame] 0%nat
              Normaal example_selection))))))) in Hv.
  vm_compute in Hv. discriminate Hv.
Defined.
